(** * pp1solver: the push-puzzle board engine of [utils.py]

    A shallow embedding of [PushPosition] (layered board tensor, breadth-first
    reachability pass, push moves and single steps), of the move codec and of
    the symmetry augmentation ([x_rotations], [y_rotations]).

    Conventions.
    - The numpy array [arr] of shape (size, size, num_layers) is a nested list
      [list (list (list Z))], indexed row, column, layer.  All stored values
      are integral floats, modelled in [Z].
    - Accesses that the source guards by [in_bounds] use the total [get]/[set];
      accesses at indices the source does not guard go through numpy's index
      normalisation ([np_index]) and can raise [IndexError].
    - The [while] loop of [assign_pushes] takes fuel; the termination theorem
      shows that the fuel chosen by [assign_pushes] is always enough. *)

From Stdlib Require Import ZArith Lia.
From stdpp Require Import base list numbers.

Local Open Scope Z_scope.

(** ** Module-level constants *)

Definition ILLEGAL : Z := -1.
Definition NORMAL : Z := 1.
Definition PUSH : Z := 2.
Definition WIN : Z := 10000.

Definition num_layers : Z := 12.
Definition size : Z := 20.

(** ** Arrays *)

Abbreviation ndarray := (list (list (list Z))).

(** [a[x, y, l]] for indices known to be inside the array. *)
Definition get (a : ndarray) (x y l : Z) : Z :=
  ((a !!! Z.to_nat x) !!! Z.to_nat y) !!! Z.to_nat l.

(** [a[x, y, l] = v] for indices known to be inside the array. *)
Definition set (a : ndarray) (x y l v : Z) : ndarray :=
  alter (alter (<[Z.to_nat l := v]>) (Z.to_nat y)) (Z.to_nat x) a.

(** An assignment to a slice along the last axis: every cell [a[x, y, :]]
    is replaced by its image under [f]. *)
Definition map_cells (f : list Z → list Z) (a : ndarray) : ndarray :=
  (λ row : list (list Z), f <$> row) <$> a.

(** [a] has shape (n, m, k). *)
Definition shape (n m k : nat) (a : ndarray) : Prop :=
  length a = n ∧
  Forall (λ row, length row = m ∧ Forall (λ cell : list Z, length cell = k) row) a.

(** numpy's treatment of one index into an axis of length [n]: negative
    indices count from the end, anything outside [-n, n) is an IndexError. *)
Definition np_index (n i : Z) : option Z :=
  if (0 <=? i) && (i <? n) then Some i
  else if (- n <=? i) && (i <? 0) then Some (n + i)
  else None.

(** ** Small error monad for the operations that can raise *)

Inductive exn : Type := IndexError | OutOfFuel.

Inductive result (A : Type) : Type :=
| Ok (a : A)
| Raise (e : exn).
Arguments Ok {A} a.
Arguments Raise {A} e.

#[export] Instance result_ret : MRet result := λ A a, Ok a.

#[export] Instance result_bind : MBind result := λ A B f m,
  match m with
  | Ok a => f a
  | Raise e => Raise e
  end.

Definition of_index (o : option Z) : result Z :=
  match o with
  | Some i => Ok i
  | None => Raise IndexError
  end.

(** Dimensions of an array, as numpy's [arr.shape]. *)
Definition dim0 (a : ndarray) : Z := Z.of_nat (length a).
Definition dim1 (a : ndarray) : Z := Z.of_nat (length (a !!! 0%nat)).
Definition dim2 (a : ndarray) : Z := Z.of_nat (length ((a !!! 0%nat) !!! 0%nat)).

(** [a[x, y, l]] with numpy's index checks. *)
Definition get_checked (a : ndarray) (x y l : Z) : result Z :=
  x' ← of_index (np_index (dim0 a) x);
  y' ← of_index (np_index (dim1 a) y);
  l' ← of_index (np_index (dim2 a) l);
  Ok (get a x' y' l').

(** [a[x, y, l] = v] with numpy's index checks. *)
Definition set_checked (a : ndarray) (x y l v : Z) : result ndarray :=
  x' ← of_index (np_index (dim0 a) x);
  y' ← of_index (np_index (dim1 a) y);
  l' ← of_index (np_index (dim2 a) l);
  Ok (set a x' y' l' v).

(** ** PushPosition *)

Record PushPosition : Type := mkPos {
  self_size : Z;
  arr : ndarray;
  moves : list (Z * Z * Z);
  char_loc : Z * Z;
  exit_loc : option (Z * Z);
  moves_penalty : Z
}.

Definition with_arr (self : PushPosition) (a : ndarray) : PushPosition :=
  mkPos (self_size self) a (moves self) (char_loc self) (exit_loc self)
        (moves_penalty self).

(** The class invariant every constructed position satisfies: the array has
    shape (size, size, num_layers) and the character is on the board. *)
Definition in_bounds (n x y : Z) : bool :=
  (0 <=? x) && (0 <=? y) && (x <? n) && (y <? n).

Definition wf (self : PushPosition) : Prop :=
  shape (Z.to_nat (self_size self)) (Z.to_nat (self_size self))
        (Z.to_nat num_layers) (arr self) ∧
  in_bounds (self_size self) (char_loc self).1 (char_loc self).2 = true.

Definition is_unmovable (a : ndarray) (x y : Z) : bool := get a x y 0 =? 1.
Definition is_movable (a : ndarray) (x y : Z) : bool := get a x y 1 =? 1.
Definition is_char (a : ndarray) (x y : Z) : bool := get a x y 2 =? 1.
Definition is_win (a : ndarray) (x y : Z) : bool := get a x y 3 =? 1.
Definition is_empty (a : ndarray) (x y : Z) : bool := get a x y 4 =? 1.

Definition vecs : list (Z * Z) := [(-1, 0); (0, 1); (1, 0); (0, -1)].

(** [vecs[move]] for [move] in [range(4)]. *)
Definition vec_of (move : Z) : Z * Z := vecs !!! Z.to_nat move.

(** ** The reachability pass *)

(** [np.sum(self.arr[x, y, 6:10])] *)
Definition sum_costs (a : ndarray) (x y : Z) : Z :=
  get a x y 6 + get a x y 7 + get a x y 8 + get a x y 9.

(** [append_square]: the array and [new_squares] are threaded through. *)
Definition append_square (n : Z) (a : ndarray) (new_squares : list (Z * Z))
    (square vec : Z * Z) (move num_moves : Z) : ndarray * list (Z * Z) :=
  let x := square.1 + vec.1 in
  let y := square.2 + vec.2 in
  if negb (in_bounds n x y) then (a, new_squares)
  else if is_empty a x y && negb (is_win a x y) then
    if get a x y 5 =? 1 then (a, new_squares)
    else (set a x y 5 1, new_squares ++ [(x, y)])
  else if is_win a x y && is_empty a x y then
    if negb (sum_costs a x y =? 0) then (a, new_squares)
    else (set (set a x y (move + 6) (- num_moves)) x y 10 (- num_moves),
          new_squares)
  else if negb (in_bounds n (x + vec.1) (y + vec.2)) then (a, new_squares)
  else if is_movable a x y && is_empty a (x + vec.1) (y + vec.2) then
    let a1 := set a x y (move + 6) (- num_moves) in
    if is_win a1 x y
    then (set a1 x y 10 (Z.max (get a1 x y 10) (- num_moves)), new_squares)
    else (a1, new_squares)
  else (a, new_squares).

(** The body of [for move in range(4)] for one square. *)
Definition expand_square (n num_moves : Z) (st : ndarray * list (Z * Z))
    (square : Z * Z) : ndarray * list (Z * Z) :=
  foldl (λ st move,
           append_square n st.1 st.2 square (vec_of move) move num_moves)
        st [0; 1; 2; 3].

(** One iteration of the [while] loop: [for square in squares: ...]. *)
Definition explore (n num_moves : Z) (a : ndarray) (squares : list (Z * Z))
    : ndarray * list (Z * Z) :=
  foldl (expand_square n num_moves) (a, []) squares.

(** [while len(squares) > 0: ...] *)
Fixpoint while_squares (fuel : nat) (n : Z) (a : ndarray)
    (squares : list (Z * Z)) (number_moves : Z) : option ndarray :=
  match squares with
  | [] => Some a
  | _ :: _ =>
    match fuel with
    | O => None
    | S fuel' =>
      let number_moves := number_moves + 1 in
      let st := explore n number_moves a squares in
      while_squares fuel' n st.1 st.2 number_moves
    end
  end.

(** The successive values of the local variable [squares] (the frontiers),
    computed by the same loop. *)
Fixpoint frontiers (fuel : nat) (n : Z) (a : ndarray)
    (squares : list (Z * Z)) (number_moves : Z) : list (list (Z * Z)) :=
  match squares with
  | [] => []
  | _ :: _ =>
    match fuel with
    | O => [squares]
    | S fuel' =>
      let number_moves := number_moves + 1 in
      let st := explore n number_moves a squares in
      squares :: frontiers fuel' n st.1 st.2 number_moves
    end
  end.

(** [self.arr[:,:,5:] = np.zeros((self.size, self.size, num_layers-5))] *)
Definition clear_layers (a : ndarray) : ndarray :=
  map_cells (λ cell, take 5 cell ++ replicate (Z.to_nat (num_layers - 5)) 0) a.

(** [self.arr[:,:,11] += self.arr[:,:,5]] *)
Definition add_visits (a : ndarray) : ndarray :=
  map_cells (λ cell, <[11%nat := cell !!! 11%nat + cell !!! 5%nat]> cell) a.

(** The array the loop starts from. *)
Definition start_arr (self : PushPosition) : ndarray :=
  set (clear_layers (arr self)) (char_loc self).1 (char_loc self).2 5 1.

Definition pass_fuel (self : PushPosition) : nat :=
  S (Z.to_nat (self_size self * self_size self)).

Definition assign_pushes (self : PushPosition) : option PushPosition :=
  a ← while_squares (pass_fuel self) (self_size self) (start_arr self)
        [char_loc self] 0;
  Some (with_arr self (add_visits a)).

(** The frontiers of the pass that [assign_pushes] runs. *)
Definition pass_frontiers (self : PushPosition) : list (list (Z * Z)) :=
  frontiers (pass_fuel self) (self_size self) (start_arr self)
    [char_loc self] 0.

(** ** Move application *)

Definition with_moves (self : PushPosition) (ms : list (Z * Z * Z))
    : PushPosition :=
  mkPos (self_size self) (arr self) ms (char_loc self) (exit_loc self)
        (moves_penalty self).

Definition with_char_loc (self : PushPosition) (c : Z * Z) : PushPosition :=
  mkPos (self_size self) (arr self) (moves self) c (exit_loc self)
        (moves_penalty self).

Definition with_moves_penalty (self : PushPosition) (p : Z) : PushPosition :=
  mkPos (self_size self) (arr self) (moves self) (char_loc self) (exit_loc self) p.

(** Indexing the Python list [vecs] (negative indices count from the end). *)
Definition vecs_index (direction : Z) : result (Z * Z) :=
  i ← of_index (np_index 4 direction);
  Ok (vec_of i).

Definition run_pass (self : PushPosition) : result PushPosition :=
  match assign_pushes self with
  | Some self' => Ok self'
  | None => Raise OutOfFuel
  end.

(** [make_move]: the returned code together with the position afterwards. *)
Definition make_move (self : PushPosition) (x y direction : Z)
    : result (Z * PushPosition) :=
  if negb (in_bounds (self_size self) x y) then Ok (ILLEGAL, self)
  else
    c ← get_checked (arr self) x y (direction + 6);
    if c =? 0 then Ok (ILLEGAL, self)
    else
      let self := with_moves self (moves self ++ [(x, y, direction)]) in
      if is_win (arr self) x y && negb (is_movable (arr self) x y) then
        Ok (WIN, with_moves_penalty self
                   (moves_penalty self + get (arr self) x y 10))
      else
        let self := with_moves_penalty self (moves_penalty self + c) in
        if is_win (arr self) x y then Ok (WIN, self)
        else
          let a := set (arr self) (char_loc self).1 (char_loc self).2 2 0 in
          let a := set a x y 1 0 in
          let a := set a x y 2 1 in
          let a := set a x y 4 1 in
          vec ← vecs_index direction;
          a ← set_checked a (x + vec.1) (y + vec.2) 4 0;
          a ← set_checked a (x + vec.1) (y + vec.2) 1 1;
          let self := with_char_loc (with_arr self a) (x, y) in
          self ← run_pass self;
          Ok (PUSH, self).

(** The target and direction that [make_move_number] reads off a move
    number: the three assignments before its call of [make_move]. *)
Definition decode_move_number (self : PushPosition) (move : Z) : Z * Z * Z :=
  let x := move / ((self_size self * 2 - 1) * 4) + (char_loc self).1 - (size - 1) in
  let y := (move mod ((self_size self * 2 - 1) * 4)) / 4
           + (char_loc self).2 - (size - 1) in
  let direction := move mod 4 in
  (x, y, direction).

Definition make_move_number (self : PushPosition) (move : Z)
    : result (Z * PushPosition) :=
  let '(x, y, direction) := decode_move_number self move in
  make_move self x y direction.

(** [move_in_direction]: the returned boolean and the position afterwards. *)
Definition move_in_direction (self : PushPosition) (direction : Z)
    : result (bool * PushPosition) :=
  vec ← vecs_index direction;
  let new_x := (char_loc self).1 + vec.1 in
  let new_y := (char_loc self).2 + vec.2 in
  if negb (in_bounds (self_size self) new_x new_y) then Ok (false, self)
  else
    c ← get_checked (arr self) new_x new_y (direction + 6);
    if c =? 0 then
      if is_unmovable (arr self) new_x new_y || is_movable (arr self) new_x new_y
      then Ok (false, self)
      else
        let a := set (arr self) (char_loc self).1 (char_loc self).2 2 0 in
        let a := set a new_x new_y 2 1 in
        let self := with_char_loc (with_arr self a) (new_x, new_y) in
        self ← run_pass self;
        Ok (true, with_moves_penalty self (moves_penalty self + 1))
    else
      let self := with_moves_penalty self (moves_penalty self + 1) in
      r ← make_move self new_x new_y direction;
      Ok (true, r.2).

(** ** Symmetry augmentation *)

(** [a[r0:r0+size, c0:c0+size, :] = b], for [b] of shape
    (size, size, num_layers) and a block that lies inside [a]. *)
Definition assign_block (a : ndarray) (r0 c0 : Z) (b : ndarray) : ndarray :=
  imap (λ i row,
    imap (λ j cell,
      if (r0 <=? Z.of_nat i) && (Z.of_nat i <? r0 + size)
         && (c0 <=? Z.of_nat j) && (Z.of_nat j <? c0 + size)
      then (b !!! Z.to_nat (Z.of_nat i - r0)) !!! Z.to_nat (Z.of_nat j - c0)
      else cell) row) a.

(** [centered], for a character on the board (then both slices start at a
    non-negative index and have [size] entries). *)
Definition centered (a : ndarray) (char_x char_y : Z) : ndarray :=
  let d := Z.to_nat (2 * size - 1) in
  let new_arr := replicate d (replicate d (replicate (Z.to_nat num_layers) 0)) in
  let new_arr := map_cells (λ cell, <[0%nat := 1]> cell) new_arr in
  assign_block new_arr (size - 1 - char_x) (size - 1 - char_y) a.

(** [a.swapaxes(0, 1)] *)
Definition swapaxes (a : ndarray) : ndarray :=
  (λ j : nat, (λ row : list (list Z), row !!! j) <$> a)
    <$> seq 0 (length (a !!! 0%nat)).

(** [np.flip(a, 1)] *)
Definition flip_axis1 (a : ndarray) : ndarray :=
  (λ row : list (list Z), reverse row) <$> a.

(** [np.rot90(a)], which numpy computes as [transpose(flip(a, 1))] with the
    first two axes exchanged. *)
Definition rot90 (a : ndarray) : ndarray := swapaxes (flip_axis1 a).

(** [a[:,:,6:10] = f(a[:,:,6:10])] for an [f] acting along the last axis. *)
Definition on_costs (f : list Z → list Z) (a : ndarray) : ndarray :=
  map_cells (λ cell, take 6 cell ++ f (take 4 (drop 6 cell)) ++ drop 10 cell) a.

(** [np.roll(_, -1, axis=2)] on one cell. *)
Definition roll_back (l : list Z) : list Z := drop 1 l ++ take 1 l.

(** The rotation step of [x_rotations]: [np.rot90] and the roll of the four
    directional layers. *)
Definition rotate_state (a : ndarray) : ndarray :=
  on_costs roll_back (rot90 a).

(** The reflection step of [x_rotations]: [swapaxes] and the flip of the four
    directional layers. *)
Definition reflect_state (a : ndarray) : ndarray :=
  on_costs reverse (swapaxes a).

(** [for i in range(4): data_x.append(cop_arr); cop_arr = rotate(cop_arr)] *)
Fixpoint x_loop (i : nat) (cop_arr : ndarray) (data_x : list ndarray)
    : ndarray * list ndarray :=
  match i with
  | O => (cop_arr, data_x)
  | S i' => x_loop i' (rotate_state cop_arr) (data_x ++ [cop_arr])
  end.

Definition x_rotations (a : ndarray) (data_x : list ndarray) : list ndarray :=
  let st := x_loop 4 a data_x in
  let cop_arr := reflect_state st.1 in
  let st := x_loop 4 cop_arr st.2 in
  st.2.

Definition rotate_once (x y direction : Z) : Z * Z * Z :=
  ((2 * size - 1) - y - 1, x, (direction - 1) mod 4).

(** [np.zeros(length)] with [out[ind] = 1]. *)
Definition onehot (length ind : Z) : result (list Z) :=
  i ← of_index (np_index length ind);
  Ok (<[Z.to_nat i := 1]> (replicate (Z.to_nat length) 0)).

(** [for i in range(4): data_y.append(onehot(...)); x, y, direction = rotate_once(...)] *)
Fixpoint y_loop (i : nat) (x y direction : Z) (data_y : list (list Z))
    : result (Z * Z * Z * list (list Z)) :=
  match i with
  | O => Ok (x, y, direction, data_y)
  | S i' =>
    let dsize := 2 * size - 1 in
    v ← onehot (dsize * dsize * 4) (4 * dsize * x + 4 * y + direction);
    let '(x', y', direction') := rotate_once x y direction in
    y_loop i' x' y' direction' (data_y ++ [v])
  end.

Definition y_rotations (x y direction : Z) (data_y : list (list Z))
    : result (list (list Z)) :=
  st ← y_loop 4 x y direction data_y;
  let '(x, y, direction, data_y) := st in
  let direction := 3 - direction in
  let '(x, y) := (y, x) in
  st ← y_loop 4 x y direction data_y;
  Ok st.2.

(** The move number that [append_level_data] and [y_rotations] give a push
    at [(row, col)] seen from the character at [(char_x, char_y)]. *)
Definition move_number (char_x char_y row col direction : Z) : Z :=
  let dsize := 2 * size - 1 in
  let x := row + size - 1 - char_x in
  let y := col + size - 1 - char_y in
  4 * dsize * x + 4 * y + direction.

(** Reading a label back: [np.argmax], then the inverse of the move-index
    formula in the centered frame. *)
Fixpoint argmax_from (best_i best_v i : Z) (l : list Z) : Z :=
  match l with
  | [] => best_i
  | v :: l' =>
    if best_v <? v then argmax_from i v (i + 1) l'
    else argmax_from best_i best_v (i + 1) l'
  end.

Definition argmax (l : list Z) : option Z :=
  match l with
  | [] => None
  | v :: l' => Some (argmax_from 0 v 1 l')
  end.

Definition decode_index (move : Z) : Z * Z * Z :=
  let dsize := 2 * size - 1 in
  (move / (dsize * 4), (move mod (dsize * 4)) / 4, move mod 4).

Definition decode_label (v : list Z) : option (Z * Z * Z) :=
  decode_index <$> argmax v.

(** ** Construction *)

(** All board coordinates in the order of the two nested [range] loops. *)
Definition coords (n : Z) : list (Z * Z) :=
  x ← seqZ 0 n; y ← seqZ 0 n; [(x, y)].

(** The last coordinate whose [layer] holds 1 (each hit overwrites the
    previous one in [__init__]). *)
Definition locate (a : ndarray) (n layer : Z) : option (Z * Z) :=
  list.last (filter (λ p, get a p.1 p.2 layer = 1) (coords n)).

(** [__init__] for an input of shape (n, n, num_layers), where the padding
    branch is not taken.  A board without a character has no [char_loc]
    attribute and the first pass fails on it. *)
Inductive init_error : Type := NoCharacter | PassOutOfFuel.

Definition init (a : ndarray) : init_error + PushPosition :=
  let n := dim1 a in
  match locate a n 2 with
  | None => inl NoCharacter
  | Some c =>
    let self := mkPos n (clear_layers a) [] c (locate a n 3) 0 in
    match assign_pushes self with
    | Some self' => inr self'
    | None => inl PassOutOfFuel
    end
  end.

(** * Vocabulary of the statements *)

Definition inside (n m k : nat) (x y l : Z) : Prop :=
  0 ≤ x < Z.of_nat n ∧ 0 ≤ y < Z.of_nat m ∧ 0 ≤ l < Z.of_nat k.

(** The cell that [append_square] looks at from [p] in direction [m]. *)
Definition step_to (p : Z * Z) (m : Z) : Z * Z :=
  (p.1 + (vec_of m).1, p.2 + (vec_of m).2).

(** Empty space without an exit: the cells the pass walks through. *)
Definition walkable (n : Z) (a : ndarray) (p : Z * Z) : bool :=
  in_bounds n p.1 p.2 && is_empty a p.1 p.2 && negb (is_win a p.1 p.2).

(** An exit with nothing on it. *)
Definition open_exit (n : Z) (a : ndarray) (p : Z * Z) : bool :=
  in_bounds n p.1 p.2 && is_win a p.1 p.2 && is_empty a p.1 p.2.

(** The calls of [append_square] that one iteration makes, in order. *)
Definition edges (squares : list (Z * Z)) : list (Z * Z * Z) :=
  sq ← squares; (λ m, (sq, m)) <$> [0; 1; 2; 3].

Definition edge_step (n k : Z) (st : ndarray * list (Z * Z)) (e : Z * Z * Z)
    : ndarray * list (Z * Z) :=
  append_square n st.1 st.2 e.1 (vec_of e.2) e.2 k.

(** All directional costs are at most 0. *)
Definition nonpos (n : Z) (a : ndarray) : Prop :=
  ∀ x y m, in_bounds n x y = true → 0 ≤ m < 4 → get a x y (m + 6) ≤ 0.

(** Layers 0 to 4 agree. *)
Definition same_terrain (n : Z) (a a' : ndarray) : Prop :=
  ∀ x y l, in_bounds n x y = true → 0 ≤ l < 5 → get a' x y l = get a x y l.

(** At an exit, layer 10 repeats the single directional entry. *)
Definition exit_ok (a : ndarray) (x y : Z) : Prop :=
  get a x y 10 = sum_costs a x y ∧
  ∀ m m', 0 ≤ m < 4 → 0 ≤ m' < 4 →
    get a x y (m + 6) ≠ 0 → get a x y (m' + 6) ≠ 0 → m = m'.

Section round_invariant.
Variables (n k : Z) (a : ndarray).

(** The state after the calls [es] of an iteration that started from [a]. *)
Record round_inv (es : list (Z * Z * Z)) (st : ndarray * list (Z * Z))
  : Prop := {
ri_shape :
  shape (Z.to_nat n) (Z.to_nat n) (Z.to_nat num_layers) st.1;
ri_terrain : same_terrain n a st.1;
ri_nonpos : nonpos n st.1;
ri_flag : ∀ x y, in_bounds n x y = true →
  (get st.1 x y 5 = 1 ↔ get a x y 5 = 1 ∨ (x, y) ∈ st.2);
ri_new : ∀ q, q ∈ st.2 ↔
  walkable n a q = true ∧ get a q.1 q.2 5 ≠ 1 ∧
  ∃ e, e ∈ es ∧ step_to e.1 e.2 = q;
ri_nodup : NoDup st.2;
ri_cost : ∀ x y m, in_bounds n x y = true → 0 ≤ m < 4 →
  get st.1 x y (m + 6) = get a x y (m + 6) ∨
  (get st.1 x y (m + 6) = - k ∧ walkable n a (x, y) = false ∧
   ∃ p, (p, m) ∈ es ∧ step_to p m = (x, y));
ri_frozen : ∀ x y l, open_exit n a (x, y) = true →
  sum_costs a x y ≠ 0 → 0 ≤ l → get st.1 x y l = get a x y l;
ri_mark : ∀ x y, open_exit n a (x, y) = true →
  (∃ e, e ∈ es ∧ step_to e.1 e.2 = (x, y)) → sum_costs st.1 x y ≠ 0;
ri_exit : ∀ x y, open_exit n a (x, y) = true →
  exit_ok a x y → exit_ok st.1 x y
}.
End round_invariant.

(** Walks from the character through empty space without exits: every cell
    entered is walkable; the start is the character's cell whatever it holds. *)
Inductive walk (n : Z) (a : ndarray) (c : Z * Z) : Z * Z → nat → Prop :=
| walk_start : walk n a c c 0
| walk_step p m j :
    walk n a c p j → 0 ≤ m < 4 → walkable n a (step_to p m) = true →
    walk n a c (step_to p m) (S j).

(** [j] is the length of a shortest walk to [q]. *)
Definition shortest (n : Z) (a : ndarray) (c q : Z * Z) (j : nat) : Prop :=
  walk n a c q j ∧ ∀ j', walk n a c q j' → (j ≤ j')%nat.

Section pass_invariant.
Variables (n : Z) (a0 : ndarray) (c : Z * Z).

(** The loop invariant: [D] are the frontiers already expanded, [S] is the
  value of [squares], [a] the array. *)
Record pass_inv (D : list (list (Z * Z))) (S : list (Z * Z)) (a : ndarray)
  : Prop := {
pi_shape : shape (Z.to_nat n) (Z.to_nat n) (Z.to_nat num_layers) a;
pi_terrain : same_terrain n a0 a;
pi_nonpos : nonpos n a;
pi_root : ∃ F, (D ++ [S]) !! 0%nat = Some F ∧ c ∈ F;
pi_sound : ∀ i F q, (D ++ [S]) !! i = Some F → q ∈ F →
  walk n a0 c q i ∧ in_bounds n q.1 q.2 = true;
pi_closed : ∀ i F p m, D !! i = Some F → p ∈ F → 0 ≤ m < 4 →
  walkable n a0 (step_to p m) = true →
  ∃ i' F', (D ++ [S]) !! i' = Some F' ∧ step_to p m ∈ F' ∧
           (i' ≤ Datatypes.S i)%nat;
pi_flag : ∀ x y, in_bounds n x y = true →
  (get a x y 5 = 1 ↔ (x, y) ∈ mjoin (D ++ [S]));
pi_nodup : NoDup (mjoin (D ++ [S]));
pi_cost : ∀ x y m, in_bounds n x y = true → 0 ≤ m < 4 →
  get a x y (m + 6) ≠ 0 →
  walkable n a0 (x, y) = false ∧
  ∃ i F p, D !! i = Some F ∧ p ∈ F ∧ step_to p m = (x, y) ∧
           get a x y (m + 6) = - Z.of_nat (Datatypes.S i);
pi_mark : ∀ x y i F p m, open_exit n a0 (x, y) = true →
  D !! i = Some F → p ∈ F → 0 ≤ m < 4 → step_to p m = (x, y) →
  sum_costs a x y ≠ 0;
pi_min : ∀ x y m, open_exit n a0 (x, y) = true → 0 ≤ m < 4 →
  get a x y (m + 6) ≠ 0 →
  ∀ i F p m', D !! i = Some F → p ∈ F → 0 ≤ m' < 4 →
    step_to p m' = (x, y) →
    - get a x y (m + 6) ≤ Z.of_nat (Datatypes.S i);
pi_exit : ∀ x y, open_exit n a0 (x, y) = true → exit_ok a x y
}.
End pass_invariant.

(** A walk to [q] whose last step enters [q] itself: [q] need not be
    walkable (an exit, a box), every cell before it is. *)
Definition reaches (n : Z) (a : ndarray) (c q : Z * Z) (j : nat) : Prop :=
  ∃ p m i, walk n a c p i ∧ 0 ≤ m < 4 ∧ step_to p m = q ∧ j = S i.

(** Example boards: cells as rows of the twelve layers. *)
Definition cE : list Z := [0; 0; 0; 0; 1; 0; 0; 0; 0; 0; 0; 0].
Definition cU : list Z := [1; 0; 0; 0; 0; 0; 0; 0; 0; 0; 0; 0].
Definition cC : list Z := [0; 0; 1; 0; 1; 0; 0; 0; 0; 0; 0; 0].
Definition cW : list Z := [0; 0; 0; 1; 1; 0; 0; 0; 0; 0; 0; 0].
Definition cM : list Z := [0; 1; 0; 0; 0; 0; 0; 0; 0; 0; 0; 0].
Definition cMW : list Z := [0; 1; 0; 1; 0; 0; 0; 0; 0; 0; 0; 0].

(** The 3x3 open board with the character in the middle and the exit to
    its right, before the first pass. *)
Definition board3 : PushPosition :=
  mkPos 3 [[cE; cE; cE]; [cE; cC; cW]; [cE; cE; cE]] [] (1, 1) (Some (1, 2)) 0.

(** The same board after the pass that [__init__] runs. *)
Definition board3_ready : PushPosition :=
  mkPos 3
    [[[0; 0; 0; 0; 1; 1; 0; 0; 0; 0; 0; 1];
      [0; 0; 0; 0; 1; 1; 0; 0; 0; 0; 0; 1];
      [0; 0; 0; 0; 1; 1; 0; 0; 0; 0; 0; 1]];
     [[0; 0; 0; 0; 1; 1; 0; 0; 0; 0; 0; 1];
      [0; 0; 1; 0; 1; 1; 0; 0; 0; 0; 0; 1];
      [0; 0; 0; 1; 1; 0; 0; -1; 0; 0; -1; 0]];
     [[0; 0; 0; 0; 1; 1; 0; 0; 0; 0; 0; 1];
      [0; 0; 0; 0; 1; 1; 0; 0; 0; 0; 0; 1];
      [0; 0; 0; 0; 1; 1; 0; 0; 0; 0; 0; 1]]]
    [] (1, 1) (Some (1, 2)) 0.

(** The 5x5 board with a box on the exit at (2,2), a second box above it and
    the character at (2,0), after the pass that [__init__] runs. *)
Definition board5_ready : PushPosition :=
  mkPos 5
    [[[0; 0; 0; 0; 1; 1; 0; 0; 0; 0; 0; 1];
      [0; 0; 0; 0; 1; 1; 0; 0; 0; 0; 0; 1];
      [0; 0; 0; 0; 1; 1; 0; 0; 0; 0; 0; 1];
      [0; 0; 0; 0; 1; 1; 0; 0; 0; 0; 0; 1];
      [0; 0; 0; 0; 1; 1; 0; 0; 0; 0; 0; 1]];
     [[0; 0; 0; 0; 1; 1; 0; 0; 0; 0; 0; 1];
      [0; 0; 0; 0; 1; 1; 0; 0; 0; 0; 0; 1];
      [0; 1; 0; 0; 0; 0; 0; -3; 0; -7; 0; 0];
      [0; 0; 0; 0; 1; 1; 0; 0; 0; 0; 0; 1];
      [0; 0; 0; 0; 1; 1; 0; 0; 0; 0; 0; 1]];
     [[0; 0; 1; 0; 1; 1; 0; 0; 0; 0; 0; 1];
      [0; 0; 0; 0; 1; 1; 0; 0; 0; 0; 0; 1];
      [0; 1; 0; 1; 0; 0; 0; -2; 0; -6; 0; 0];
      [0; 0; 0; 0; 1; 1; 0; 0; 0; 0; 0; 1];
      [0; 0; 0; 0; 1; 1; 0; 0; 0; 0; 0; 1]];
     [[0; 0; 0; 0; 1; 1; 0; 0; 0; 0; 0; 1];
      [0; 0; 0; 0; 1; 1; 0; 0; 0; 0; 0; 1];
      [0; 0; 0; 0; 1; 1; 0; 0; 0; 0; 0; 1];
      [0; 0; 0; 0; 1; 1; 0; 0; 0; 0; 0; 1];
      [0; 0; 0; 0; 1; 1; 0; 0; 0; 0; 0; 1]];
     [[0; 0; 0; 0; 1; 1; 0; 0; 0; 0; 0; 1];
      [0; 0; 0; 0; 1; 1; 0; 0; 0; 0; 0; 1];
      [0; 0; 0; 0; 1; 1; 0; 0; 0; 0; 0; 1];
      [0; 0; 0; 0; 1; 1; 0; 0; 0; 0; 0; 1];
      [0; 0; 0; 0; 1; 1; 0; 0; 0; 0; 0; 1]]]
    [] (2, 0) (Some (2, 2)) 0.

(** The input of [__init__] that gives [board5_ready]. *)
Definition board5_input : ndarray :=
  [[cE; cE; cE; cE; cE]; [cE; cE; cM; cE; cE]; [cC; cE; cMW; cE; cE];
   [cE; cE; cE; cE; cE]; [cE; cE; cE; cE; cE]].

(** The cell [a[i, j, :]]. *)
Definition cell (a : ndarray) (i j : nat) : list Z := (a !!! i) !!! j.

Definition cost_slice (f : list Z → list Z) (c : list Z) : list Z :=
  take 6 c ++ f (take 4 (drop 6 c)) ++ drop 10 c.

(** Four calls of [rotate_once], each on the result of the one before. *)
Definition rotate_four (x y direction : Z) : Z * Z * Z :=
  let '(x, y, direction) := rotate_once x y direction in
  let '(x, y, direction) := rotate_once x y direction in
  let '(x, y, direction) := rotate_once x y direction in
  rotate_once x y direction.

Definition plain_layer (l : Z) : Prop := 0 ≤ l < 6 ∨ 10 ≤ l < 12.

(** The side of a centered tensor. *)
Definition dsize : Z := 2 * size - 1.

Definition in_frame (x y : Z) : Prop := 0 ≤ x < dsize ∧ 0 ≤ y < dsize.

(** [t'] is the image of [t] under a transform that moves cells by [pm] and
    directions by [dm]. *)
Record image_of (t t' : ndarray) (pm : Z * Z → Z * Z) (dm : Z → Z)
    : Prop := {
  io_shape : shape (Z.to_nat dsize) (Z.to_nat dsize) 12 t';
  io_frame : ∀ x y, in_frame x y → in_frame (pm (x, y)).1 (pm (x, y)).2;
  io_dir : ∀ d, 0 ≤ d < 4 → 0 ≤ dm d < 4;
  io_cost : ∀ x y d, in_frame x y → 0 ≤ d < 4 →
    get t' (pm (x, y)).1 (pm (x, y)).2 (dm d + 6) = get t x y (d + 6);
  io_plain : ∀ x y l, in_frame x y → plain_layer l →
    get t' (pm (x, y)).1 (pm (x, y)).2 l = get t x y l;
  io_step : ∀ p d, 0 ≤ d < 4 → pm (step_to p d) = step_to (pm p) (dm d);
  io_centre : pm (size - 1, size - 1) = (size - 1, size - 1);
  io_dist : ∀ x y,
    ((pm (x, y)).1 - (size - 1)) ^ 2 + ((pm (x, y)).2 - (size - 1)) ^ 2
    = (x - (size - 1)) ^ 2 + (y - (size - 1)) ^ 2
}.

(** The moves of [rotate_once] and of the reflection in [y_rotations]. *)
Definition rot_cell (p : Z * Z) : Z * Z := ((2 * size - 1) - p.2 - 1, p.1).
Definition rot_dir (d : Z) : Z := (d - 1) mod 4.
Definition ref_cell (p : Z * Z) : Z * Z := (p.2, p.1).
Definition ref_dir (d : Z) : Z := 3 - d.

Definition label_index (tr : Z * Z * Z) : Z :=
  4 * dsize * tr.1.1 + 4 * tr.1.2 + tr.2.

Definition in_label (tr : Z * Z * Z) : Prop :=
  in_frame tr.1.1 tr.1.2 ∧ 0 ≤ tr.2 < 4.

Definition hot (i : Z) : list Z :=
  <[Z.to_nat i := 1]> (replicate (Z.to_nat (dsize * dsize * 4)) 0).

(** The triples that [y_rotations] labels, in order. *)
Definition rot_label (tr : Z * Z * Z) : Z * Z * Z :=
  rotate_once tr.1.1 tr.1.2 tr.2.

Definition ref_label (tr : Z * Z * Z) : Z * Z * Z :=
  (tr.1.2, tr.1.1, 3 - tr.2).

Definition orbit (tr : Z * Z * Z) : list (Z * Z * Z) :=
  let t1 := rot_label tr in
  let t2 := rot_label t1 in
  let t3 := rot_label t2 in
  let t4 := ref_label (rot_label t3) in
  let t5 := rot_label t4 in
  let t6 := rot_label t5 in
  let t7 := rot_label t6 in
  [tr; t1; t2; t3; t4; t5; t6; t7].

(** The padding cell: unmovable, nothing else. *)
Definition pad_cell : list Z := <[0%nat := 1]> (replicate (Z.to_nat num_layers) 0).

(** The 3x3 open board of [board3] inside the 20x20 array the module's
    [size] asks for, padded with unmovable cells. *)
Definition board20_input : ndarray :=
  [[cE; cE; cE] ++ replicate 17 cU;
   [cE; cC; cW] ++ replicate 17 cU;
   [cE; cE; cE] ++ replicate 17 cU]
  ++ replicate 17 (replicate 20 cU).

Definition board20_ready : PushPosition :=
  Eval vm_compute in
    match init board20_input with
    | inr self => self
    | inl _ => mkPos 0 [] [] (0, 0) None 0
    end.

(** ** Vocabulary of the further properties *)

(** A box at [q] that [append_square] records as pushed in direction [m]:
    the cell is not empty space, it holds a movable, and the cell behind it
    is an empty cell of the board. *)
Definition pushable (n : Z) (a : ndarray) (q : Z * Z) (m : Z) : bool :=
  in_bounds n q.1 q.2 && negb (is_empty a q.1 q.2) && is_movable a q.1 q.2
  && in_bounds n (step_to q m).1 (step_to q m).2
  && is_empty a (step_to q m).1 (step_to q m).2.

(** What the loop of a pass keeps of the layers above the terrain: the
    reachable flag is 0 or 1, layer 11 is not written, layer 10 is only set
    at an exit with nothing on it, and a directional cost is only recorded
    at such an exit or at a pushable box. *)
Definition layers_inv (n : Z) (a0 a : ndarray) : Prop :=
  shape (Z.to_nat n) (Z.to_nat n) (Z.to_nat num_layers) a ∧
  same_terrain n a0 a ∧
  (∀ x y, in_bounds n x y = true → get a x y 5 = 0 ∨ get a x y 5 = 1) ∧
  (∀ x y, in_bounds n x y = true → get a x y 11 = 0) ∧
  (∀ x y, in_bounds n x y = true → open_exit n a0 (x, y) = false →
          get a x y 10 = 0) ∧
  (∀ x y m, in_bounds n x y = true → 0 ≤ m < 4 →
     get a x y (m + 6) ≠ 0 →
     open_exit n a0 (x, y) = true ∨ pushable n a0 (x, y) m = true).

(** Every push of a box from a square in [P] has its cost entry. *)
Definition push_inv (n : Z) (a0 : ndarray) (P : Z * Z → Prop) (a : ndarray)
    : Prop :=
  shape (Z.to_nat n) (Z.to_nat n) (Z.to_nat num_layers) a ∧
  same_terrain n a0 a ∧
  ∀ p m, P p → 0 ≤ m < 4 → pushable n a0 (step_to p m) m = true →
    get a (step_to p m).1 (step_to p m).2 (m + 6) ≠ 0.

(** A position whose derived layers are up to date: a pass changes
    nothing. *)
Definition ready (self : PushPosition) : Prop :=
  wf self ∧ assign_pushes self = Some self.

(** The position [make_move] hands to the pass when it pushes the box at
    [(x, y)] in [direction]: the move is recorded, the stored cost added to
    the penalty, the character put on the box's cell and the box on the
    cell behind it. *)
Definition pushed (self : PushPosition) (x y direction : Z) : PushPosition :=
  let b := step_to (x, y) direction in
  let a := set (arr self) (char_loc self).1 (char_loc self).2 2 0 in
  let a := set a x y 1 0 in
  let a := set a x y 2 1 in
  let a := set a x y 4 1 in
  let a := set a b.1 b.2 4 0 in
  let a := set a b.1 b.2 1 1 in
  mkPos (self_size self) a (moves self ++ [(x, y, direction)]) (x, y)
        (exit_loc self)
        (moves_penalty self + get (arr self) x y (direction + 6)).

(** The position [move_in_direction] hands to the pass when the character
    steps onto the free cell [(x, y)]. *)
Definition stepped (self : PushPosition) (x y : Z) : PushPosition :=
  let a := set (arr self) (char_loc self).1 (char_loc self).2 2 0 in
  let a := set a x y 2 1 in
  mkPos (self_size self) a (moves self) (x, y) (exit_loc self)
        (moves_penalty self).

(** The loop of [get_position]: the moves are played in order and the codes
    that [make_move] returns are dropped. *)
Definition play (p : PushPosition) (moves : list (Z * Z * Z))
    : result PushPosition :=
  foldl (λ rp mv, p ← rp; r ← make_move p mv.1.1 mv.1.2 mv.2; Ok r.2)
        (Ok p) moves.

(** [get_position], for an input that [init] models. *)
Definition get_position (a : ndarray) (moves : list (Z * Z * Z))
    : init_error + result PushPosition :=
  match init a with
  | inl e => inl e
  | inr p => inr (play p moves)
  end.

(** ** [set_up_position] *)

(** [pass_in[x, y]] for non-negative indices. *)
Definition code_at (pass_in : list (list Z)) (x y : Z) : result Z :=
  match pass_in !! Z.to_nat x with
  | Some row =>
    match row !! Z.to_nat y with
    | Some c => Ok c
    | None => Raise IndexError
    end
  | None => Raise IndexError
  end.

(** The body of the two nested loops of [set_up_position] for one cell. *)
Definition set_code (pass_in : list (list Z)) (ra : result ndarray)
    (p : Z * Z) : result ndarray :=
  a ← ra;
  c ← code_at pass_in p.1 p.2;
  if c <? 5 then set_checked a p.1 p.2 c 1
  else Ok (set (set a p.1 p.2 1 1) p.1 p.2 3 1).

(** The cells of [range(size_x)] by [range(size_y)], in the order of the
    loops. *)
Definition area (size_x size_y : Z) : list (Z * Z) :=
  x ← seqZ 0 size_x; y ← seqZ 0 size_y; [(x, y)].

(** The array of [set_up_position] before its loops, for
    [0 <= size_x, size_y <= 20]: unmovables everywhere, cleared inside the
    area. *)
Definition set_up_base (size_x size_y : Z) : ndarray :=
  let arr := replicate 20 (replicate 20 (replicate (Z.to_nat num_layers) 0)) in
  let arr := map_cells (λ cell, <[0%nat := 1]> cell) arr in
  imap (λ i row,
    imap (λ j cell,
      if (Z.of_nat i <? size_x) && (Z.of_nat j <? size_y)
      then <[0%nat := 0]> cell else cell) row) arr.

(** The array that [set_up_position] hands to [PushPosition]: one layer set
    per code. *)
Definition set_up_arr (pass_in : list (list Z)) (size_x size_y : Z)
    : result ndarray :=
  foldl (set_code pass_in) (Ok (set_up_base size_x size_y))
        (area size_x size_y).

Definition set_up_position (pass_in : list (list Z)) (size_x size_y : Z)
    : result (init_error + PushPosition) :=
  a ← set_up_arr pass_in size_x size_y;
  Ok (init a).

(** No exit of the board can be entered or pushed from: every cell with the
    exit flag has neither the empty flag nor a box. *)
Definition sealed (n : Z) (a : ndarray) : Prop :=
  ∀ x y, in_bounds n x y = true → is_win a x y = true →
    is_empty a x y = false ∧ is_movable a x y = false.

(** An exit without the empty flag, as [set_up_position] makes them. *)
Definition cX : list Z := [0; 0; 0; 1; 0; 0; 0; 0; 0; 0; 0; 0].

(** A 3x3 board with a box next to the character and such an exit. *)
Definition board3_sealed : PushPosition :=
  Eval vm_compute in
    match init [[cE; cE; cE]; [cC; cM; cE]; [cE; cX; cE]] with
    | inr self => self
    | inl _ => mkPos 0 [] [] (0, 0) None 0
    end.

(** The same board after the box was pushed east. *)
Definition board3_sealed_pushed : PushPosition :=
  Eval vm_compute in
    match make_move board3_sealed 1 1 1 with
    | Ok r => r.2
    | Raise _ => mkPos 0 [] [] (0, 0) None 0
    end.

(** The codes of a small level for [set_up_position]: a character, a box,
    an exit, a wall and empty space. *)
Definition codes3 : list (list Z) := [[4; 4; 4]; [2; 1; 4]; [0; 3; 4]].

(** * Properties *)

(** ** Array access *)

Lemma shape_row n m k a i :
  shape n m k a → (i < n)%nat →
  length (a !!! i) = m ∧ Forall (λ cell : list Z, length cell = k) (a !!! i).
Proof.
  intros [Hn Hrows] Hi.
  rewrite Forall_lookup in Hrows.
  apply (Hrows i). apply list_lookup_lookup_total_lt. lia.
Qed.

Lemma shape_cell n m k a i j :
  shape n m k a → (i < n)%nat → (j < m)%nat →
  length ((a !!! i) !!! j) = k.
Proof.
  intros Hs Hi Hj.
  destruct (shape_row _ _ _ _ _ Hs Hi) as [Hm Hcells].
  rewrite Forall_lookup in Hcells.
  apply (Hcells j). apply list_lookup_lookup_total_lt. lia.
Qed.

Lemma shape_set n m k a x y l v :
  shape n m k a → shape n m k (set a x y l v).
Proof.
  intros [Hn Hrows]. split.
  - unfold set. by rewrite length_alter.
  - unfold set. apply Forall_alter; [done|].
    intros row _ [Hm Hcells]. split.
    + by rewrite length_alter.
    + apply Forall_alter; [done|].
      intros cell _ Hk. by rewrite length_insert.
Qed.

Lemma get_set_eq n m k a x y l v :
  shape n m k a → inside n m k x y l →
  get (set a x y l v) x y l = v.
Proof.
  intros Hs (Hx & Hy & Hl). unfold get, set.
  destruct (shape_row n m k a (Z.to_nat x) Hs) as [Hm _]; [lia|].
  pose proof (shape_cell n m k a (Z.to_nat x) (Z.to_nat y) Hs) as Hk.
  destruct Hs as [Hn _].
  rewrite list_lookup_total_alter_eq by lia.
  rewrite list_lookup_total_alter_eq by lia.
  rewrite list_lookup_total_insert_eq by lia.
  done.
Qed.

Lemma get_set_ne a x y l v x' y' l' :
  0 ≤ x → 0 ≤ y → 0 ≤ l → 0 ≤ x' → 0 ≤ y' → 0 ≤ l' →
  (x, y, l) ≠ (x', y', l') →
  get (set a x y l v) x' y' l' = get a x' y' l'.
Proof.
  intros Hx Hy Hl Hx' Hy' Hl' Hne. unfold get, set.
  rewrite list_lookup_total_alter.
  destruct (decide _) as [[Hex Hlt]|_]; [|done].
  assert (x = x') by lia; subst x'.
  rewrite list_lookup_total_alter.
  destruct (decide _) as [[Hey Hlt']|_]; [|done].
  assert (y = y') by lia; subst y'.
  rewrite list_lookup_total_insert_ne; [done|].
  intros He. apply Hne. f_equal. lia.
Qed.

Lemma get_set n m k a x y l v x' y' l' :
  shape n m k a → inside n m k x y l → 0 ≤ x' → 0 ≤ y' → 0 ≤ l' →
  get (set a x y l v) x' y' l' =
  if (x' =? x) && (y' =? y) && (l' =? l) then v else get a x' y' l'.
Proof.
  intros Hs Hin Hx' Hy' Hl'.
  destruct ((x' =? x) && (y' =? y) && (l' =? l)) eqn:E.
  - apply andb_prop in E as [E El]. apply andb_prop in E as [Ex Ey].
    apply Z.eqb_eq in Ex, Ey, El. subst. by eapply get_set_eq.
  - destruct Hin as (? & ? & ?).
    apply get_set_ne; try lia.
    intros [= -> -> ->]. by rewrite !Z.eqb_refl in E.
Qed.


(** ** Cell-wise assignments *)

Lemma shape_map_cells n m k k' f a :
  (∀ cell, length cell = k → length (f cell) = k') →
  shape n m k a → shape n m k' (map_cells f a).
Proof.
  intros Hf [Hn Hrows]. split.
  - unfold map_cells. by rewrite length_fmap.
  - unfold map_cells. apply Forall_fmap.
    eapply Forall_impl; [|exact Hrows].
    intros row [Hm Hcells]. simpl. split.
    + by rewrite length_fmap.
    + apply Forall_fmap. eapply Forall_impl; [|exact Hcells].
      intros cell Hk. simpl. by apply Hf.
Qed.

Lemma cell_map_cells n m k f a i j :
  shape n m k a → (i < n)%nat → (j < m)%nat →
  (map_cells f a !!! i) !!! j = f ((a !!! i) !!! j).
Proof.
  intros Hs Hi Hj.
  destruct (shape_row n m k a i Hs Hi) as [Hm _].
  destruct Hs as [Hn _]. unfold map_cells.
  rewrite (list_lookup_total_fmap (fmap f) a i) by lia.
  rewrite (list_lookup_total_fmap f (a !!! i) j) by lia. done.
Qed.

Lemma shape_clear_layers n m a :
  shape n m (Z.to_nat num_layers) a →
  shape n m (Z.to_nat num_layers) (clear_layers a).
Proof.
  apply shape_map_cells. intros cell Hk.
  rewrite length_app, length_take, length_replicate, Hk.
  unfold num_layers. lia.
Qed.

Lemma get_clear_layers n m a x y l :
  shape n m (Z.to_nat num_layers) a →
  inside n m (Z.to_nat num_layers) x y l →
  get (clear_layers a) x y l = if l <? 5 then get a x y l else 0.
Proof.
  intros Hs (Hx & Hy & Hl). unfold get, clear_layers.
  rewrite (cell_map_cells n m (Z.to_nat num_layers)) by (done || lia).
  pose proof (shape_cell n m _ a (Z.to_nat x) (Z.to_nat y) Hs) as Hk.
  unfold num_layers in *.
  destruct (Z.ltb_spec l 5).
  - rewrite lookup_total_app_l by (rewrite length_take; lia).
    by rewrite lookup_total_take_lt by lia.
  - rewrite lookup_total_app_r by (rewrite length_take; lia).
    rewrite lookup_total_replicate_2; [done|].
    rewrite length_take. lia.
Qed.

Lemma shape_add_visits n m k a :
  shape n m k a → shape n m k (add_visits a).
Proof.
  apply shape_map_cells. intros cell Hk. by rewrite length_insert.
Qed.

Lemma get_add_visits n m a x y l :
  shape n m (Z.to_nat num_layers) a →
  inside n m (Z.to_nat num_layers) x y l →
  get (add_visits a) x y l =
  if l =? 11 then get a x y 11 + get a x y 5 else get a x y l.
Proof.
  intros Hs (Hx & Hy & Hl). unfold get, add_visits.
  rewrite (cell_map_cells n m (Z.to_nat num_layers)) by (done || lia).
  pose proof (shape_cell n m _ a (Z.to_nat x) (Z.to_nat y) Hs) as Hk.
  unfold num_layers in *.
  destruct (Z.eqb_spec l 11) as [->|Hne].
  - rewrite list_lookup_total_insert_eq by lia. done.
  - rewrite list_lookup_total_insert_ne by lia. done.
Qed.

(** ** One call of [append_square] *)

Ltac split_ifs :=
  repeat (match goal with
          | |- context [if ?b then _ else _] => destruct b eqn:?
          end).

Ltac bools :=
  repeat (match goal with
          | H : negb _ = false |- _ => apply negb_false_iff in H
          | H : negb _ = true |- _ => apply negb_true_iff in H
          | H : _ && _ = true |- _ => apply andb_prop in H as [? ?]
          | H : (_ =? _) = true |- _ => apply Z.eqb_eq in H
          | H : (_ =? _) = false |- _ => apply Z.eqb_neq in H
          end).

Section one_call.
Variable n : Z.

Abbreviation shaped a :=
  (shape (Z.to_nat n) (Z.to_nat n) (Z.to_nat num_layers) a).

Lemma in_bounds_inside x y l :
  in_bounds n x y = true → 0 ≤ l < 12 →
  inside (Z.to_nat n) (Z.to_nat n) (Z.to_nat num_layers) x y l.
Proof.
  unfold in_bounds, inside, num_layers. intros H Hl.
  repeat (apply andb_prop in H as [H ?]). lia.
Qed.

Lemma in_bounds_nonneg x y :
  in_bounds n x y = true → 0 ≤ x ∧ 0 ≤ y.
Proof.
  unfold in_bounds. intros H.
  repeat (apply andb_prop in H as [H ?]). lia.
Qed.

Lemma get_set_in a x y l v x' y' l' :
  shaped a → in_bounds n x y = true → 0 ≤ l < 12 →
  in_bounds n x' y' = true → 0 ≤ l' →
  get (set a x y l v) x' y' l' =
  if (x' =? x) && (y' =? y) && (l' =? l) then v else get a x' y' l'.
Proof.
  intros Hs Hb Hl Hb' Hl'.
  apply in_bounds_nonneg in Hb' as [? ?].
  eapply get_set; eauto using in_bounds_inside.
Qed.

Lemma append_square_shape a new p vec m k :
  shaped a → shaped (append_square n a new p vec m k).1.
Proof.
  intros Hs. unfold append_square.
  repeat (match goal with |- context [if ?b then _ else _] => destruct b end);
    simpl; auto using shape_set.
Qed.

(** Case analysis on what [append_square] finds at its target. *)
Ltac target p m :=
  unfold walkable, open_exit, step_to in *; simpl in *;
  unfold append_square;
  generalize dependent (p.1 + (vec_of m).1);
  generalize dependent (p.2 + (vec_of m).2);
  intros qy qx; intros.

Ltac layers :=
  repeat (rewrite get_set_in by (auto using shape_set; lia)).

Ltac known :=
  repeat (match goal with
          | H : ?b = true |- context [?b] => rewrite H
          | H : ?b = false |- context [?b] => rewrite H
          end); simpl.

Ltac eqs :=
  repeat (match goal with
          | |- context [?u =? ?v] =>
            destruct (Z.eqb_spec u v); cbn [andb]; try lia; subst
          end).

(** Layers 0 to 4 are never written. *)
Lemma append_square_terrain a new p m k x y l :
  shaped a → 0 ≤ m < 4 → in_bounds n x y = true → 0 ≤ l < 5 →
  get (append_square n a new p (vec_of m) m k).1 x y l = get a x y l.
Proof.
  intros Hs Hm Hb Hl. target p m.
  split_ifs; cbn [fst snd]; bools; layers; try done;
    split_ifs; bools; auto; lia.
Qed.

(** What one call appends to [new_squares]. *)
Lemma append_square_new a new p m k :
  (append_square n a new p (vec_of m) m k).2 =
  if walkable n a (step_to p m)
     && negb (get a (step_to p m).1 (step_to p m).2 5 =? 1)
  then new ++ [step_to p m] else new.
Proof.
  target p m.
  destruct (in_bounds n qx qy); simpl; [|done].
  destruct (is_empty a qx qy) eqn:He; simpl.
  - destruct (is_win a qx qy); simpl.
    + by destruct (negb _).
    + by destruct (get a qx qy 5 =? 1).
  - rewrite andb_false_r. split_ifs; done.
Qed.

(** The reachable flag is only ever raised, and only on the walkable
    target. *)
Lemma append_square_flag a new p m k x y :
  shaped a → 0 ≤ m < 4 → in_bounds n x y = true →
  get (append_square n a new p (vec_of m) m k).1 x y 5 =
  if (x =? (step_to p m).1) && (y =? (step_to p m).2)
     && walkable n a (step_to p m)
  then 1 else get a x y 5.
Proof.
  intros Hs Hm Hb. target p m.
  destruct (in_bounds n qx qy) eqn:Hin; simpl;
    [|by rewrite andb_false_r].
  destruct (is_empty a qx qy) eqn:He, (is_win a qx qy) eqn:Hw; simpl;
    rewrite ?andb_false_r, ?andb_true_r.
  - split_ifs; cbn [fst snd]; layers; eqs; done.
  - destruct (get a qx qy 5 =? 1) eqn:Hf; cbn [fst snd]; layers; eqs; bools; done.
  - split_ifs; cbn [fst snd]; layers; eqs; done.
  - split_ifs; cbn [fst snd]; layers; eqs; done.
Qed.

(** Every cell other than the target keeps all its layers. *)
Lemma append_square_frame a new p m k x y l :
  shaped a → 0 ≤ m < 4 → in_bounds n x y = true → 0 ≤ l →
  (x, y) ≠ step_to p m →
  get (append_square n a new p (vec_of m) m k).1 x y l = get a x y l.
Proof.
  intros Hs Hm Hb Hl Hne. target p m.
  split_ifs; cbn [fst snd]; bools; layers; try done; eqs; done.
Qed.

(** A directional cost either stays or becomes [-k] at the target, in the
    direction of the call, and the target is then not walkable. *)
Lemma append_square_cost a new p m k x y m' :
  shaped a → 0 ≤ m < 4 → in_bounds n x y = true → 0 ≤ m' < 4 →
  get (append_square n a new p (vec_of m) m k).1 x y (m' + 6)
    = get a x y (m' + 6)
  ∨ ((x, y) = step_to p m ∧ m' = m ∧ walkable n a (step_to p m) = false ∧
     get (append_square n a new p (vec_of m) m k).1 x y (m' + 6) = - k).
Proof.
  intros Hs Hm Hb Hm'. target p m.
  destruct (in_bounds n qx qy) eqn:Hin; simpl; [|by left].
  destruct (is_empty a qx qy) eqn:He, (is_win a qx qy) eqn:Hw; simpl.
  all: split_ifs; cbn [fst snd]; layers; eqs; auto;
    right; repeat split; (done || lia).
Qed.

(** An exit with nothing on it: the first arrival writes the direction
    entry and layer 10, every later arrival changes nothing. *)
Lemma append_square_exit_first a new p m k :
  shaped a → 0 ≤ m < 4 →
  open_exit n a (step_to p m) = true →
  sum_costs a (step_to p m).1 (step_to p m).2 = 0 →
  let a' := (append_square n a new p (vec_of m) m k).1 in
  get a' (step_to p m).1 (step_to p m).2 (m + 6) = - k ∧
  get a' (step_to p m).1 (step_to p m).2 10 = - k ∧
  ∀ m', 0 ≤ m' < 4 → m' ≠ m →
    get a' (step_to p m).1 (step_to p m).2 (m' + 6)
    = get a (step_to p m).1 (step_to p m).2 (m' + 6).
Proof.
  intros Hs Hm He Hsum. target p m. bools. known.
  rewrite Hsum. simpl.
  repeat split; [ | | intros m' Hm' Hne]; layers; eqs; done.
Qed.

Lemma append_square_exit_later a new p m k :
  open_exit n a (step_to p m) = true →
  sum_costs a (step_to p m).1 (step_to p m).2 ≠ 0 →
  (append_square n a new p (vec_of m) m k).1 = a.
Proof.
  intros He Hsum. target p m. bools. known.
  apply Z.eqb_neq in Hsum. rewrite Hsum. done.
Qed.
End one_call.

(** ** One iteration of the loop *)

Lemma explore_edges n k a squares :
  explore n k a squares = foldl (edge_step n k) (a, []) (edges squares).
Proof.
  unfold explore. generalize (a, @nil (Z * Z)) as st.
  induction squares as [|sq squares IH]; intros st; [done|].
  simpl. rewrite IH. unfold edges. simpl.
  change (sq ← squares; (λ m, (sq, m)) <$> [0; 1; 2; 3]) with (edges squares).
  done.
Qed.

Lemma edges_dir squares e : e ∈ edges squares → 0 ≤ e.2 < 4.
Proof.
  unfold edges. rewrite list_elem_of_bind. intros (sq & He & _).
  cbn in He. rewrite !elem_of_cons, elem_of_nil in He.
  destruct He as [->|[->|[->|[->|[]]]]]; simpl; lia.
Qed.

Lemma elem_of_edges squares p m :
  (p, m) ∈ edges squares ↔ p ∈ squares ∧ (m = 0 ∨ m = 1 ∨ m = 2 ∨ m = 3).
Proof.
  unfold edges. rewrite list_elem_of_bind. split.
  - intros (sq & He & Hsq).
    cbn in He. rewrite !elem_of_cons, elem_of_nil in He.
    destruct He as [[= -> ->]|[[= -> ->]|[[= -> ->]|[[= -> ->]|[]]]]]; auto.
  - intros [Hp Hm]. exists p. split; [|done].
    cbn. rewrite !elem_of_cons.
    destruct Hm as [->|[->|[->| ->]]]; auto.
Qed.

Lemma walkable_terrain n a a' q :
  same_terrain n a a' → walkable n a' q = walkable n a q.
Proof.
  intros Ht. unfold walkable, is_empty, is_win.
  destruct (in_bounds n q.1 q.2) eqn:Hb; [|done].
  by rewrite !Ht by (done || lia).
Qed.

Lemma open_exit_terrain n a a' q :
  same_terrain n a a' → open_exit n a' q = open_exit n a q.
Proof.
  intros Ht. unfold open_exit, is_empty, is_win.
  destruct (in_bounds n q.1 q.2) eqn:Hb; [|done].
  by rewrite !Ht by (done || lia).
Qed.

Lemma walkable_in_bounds n a q :
  walkable n a q = true → in_bounds n q.1 q.2 = true.
Proof. unfold walkable. intros. by bools. Qed.

Lemma open_exit_in_bounds n a q :
  open_exit n a q = true → in_bounds n q.1 q.2 = true.
Proof. unfold open_exit. intros. by bools. Qed.

Lemma open_exit_not_walkable n a q :
  open_exit n a q = true → walkable n a q = false.
Proof.
  unfold open_exit, walkable. intros. bools.
  repeat (match goal with H : ?b = true |- context [?b] => rewrite H end).
  done.
Qed.

Lemma sum_costs_zero n a x y :
  nonpos n a → in_bounds n x y = true → sum_costs a x y = 0 →
  ∀ m, 0 ≤ m < 4 → get a x y (m + 6) = 0.
Proof.
  intros Hnp Hb Hsum m Hm. unfold sum_costs in Hsum.
  assert (get a x y 6 ≤ 0) by (apply (Hnp x y 0); [done|lia]).
  assert (get a x y 7 ≤ 0) by (apply (Hnp x y 1); [done|lia]).
  assert (get a x y 8 ≤ 0) by (apply (Hnp x y 2); [done|lia]).
  assert (get a x y 9 ≤ 0) by (apply (Hnp x y 3); [done|lia]).
  assert (m = 0 ∨ m = 1 ∨ m = 2 ∨ m = 3) as [->|[->|[->| ->]]] by lia;
    [change (0 + 6) with 6|change (1 + 6) with 7|change (2 + 6) with 8
    |change (3 + 6) with 9]; lia.
Qed.

Lemma sum_costs_ext a a' x y :
  (∀ m, 0 ≤ m < 4 → get a' x y (m + 6) = get a x y (m + 6)) →
  sum_costs a' x y = sum_costs a x y.
Proof.
  intros H. unfold sum_costs.
  assert (get a' x y 6 = get a x y 6) as -> by (apply (H 0); lia).
  assert (get a' x y 7 = get a x y 7) as -> by (apply (H 1); lia).
  assert (get a' x y 8 = get a x y 8) as -> by (apply (H 2); lia).
  assert (get a' x y 9 = get a x y 9) as -> by (apply (H 3); lia).
  done.
Qed.

Lemma exit_ok_ext a a' x y :
  (∀ l, 0 ≤ l → get a' x y l = get a x y l) →
  exit_ok a x y → exit_ok a' x y.
Proof.
  intros H [H10 Hone]. split.
  - rewrite H by lia. rewrite (sum_costs_ext a a') by (intros; apply H; lia).
    done.
  - intros m m' Hm Hm'. rewrite !H by lia. by apply Hone.
Qed.

Section round.
Variables (n k : Z) (a : ndarray).
Hypothesis Hk : 0 < k.

Abbreviation shaped a :=
  (shape (Z.to_nat n) (Z.to_nat n) (Z.to_nat num_layers) a).

(** A first arrival at a blank exit leaves exactly one entry. *)
Lemma exit_first_sum a' new p m :
  shaped a' → nonpos n a' → 0 ≤ m < 4 →
  open_exit n a' (step_to p m) = true →
  sum_costs a' (step_to p m).1 (step_to p m).2 = 0 →
  let a'' := (append_square n a' new p (vec_of m) m k).1 in
  sum_costs a'' (step_to p m).1 (step_to p m).2 = - k ∧
  get a'' (step_to p m).1 (step_to p m).2 10 = - k ∧
  ∀ m', 0 ≤ m' < 4 →
    get a'' (step_to p m).1 (step_to p m).2 (m' + 6)
    = if m' =? m then - k else 0.
Proof.
  intros Hs Hnp Hm He Hsum a''.
  destruct (append_square_exit_first n a' new p m k Hs Hm He Hsum)
    as (Hent & H10 & Hoth). fold a'' in Hent, H10, Hoth.
  pose proof (open_exit_in_bounds _ _ _ He) as Hb.
  pose proof (sum_costs_zero n a' _ _ Hnp Hb Hsum) as Hz.
  assert (Hall : ∀ m', 0 ≤ m' < 4 →
    get a'' (step_to p m).1 (step_to p m).2 (m' + 6)
    = if m' =? m then - k else 0).
  { intros m' Hm'. destruct (Z.eqb_spec m' m) as [->|Hne]; [done|].
    rewrite Hoth by done. by apply Hz. }
  split; [|done].
  unfold sum_costs.
  change 6 with (0 + 6). change 7 with (1 + 6).
  change 8 with (2 + 6). change 9 with (3 + 6).
  rewrite !Hall by lia.
  assert (m = 0 ∨ m = 1 ∨ m = 2 ∨ m = 3) as [->|[->|[->| ->]]] by lia;
    simpl; lia.
Qed.

Variable Ha : shaped a.
Variable Hnp : nonpos n a.

Abbreviation rinv := (round_inv n k a).

Lemma round_inv_start : rinv [] (a, []).
Proof.
  split; simpl; try done.
  - intros x y Hb. split; [auto|]. intros [?|H]; [done|].
    by apply elem_of_nil in H.
  - intros q. split; [by intros H%elem_of_nil|].
    intros (_ & _ & e & He & _). by apply elem_of_nil in He.
  - constructor.
  - auto.
  - intros x y _ (e & He & _). by apply elem_of_nil in He.
Qed.

Lemma round_inv_step es st p m :
  rinv es st → 0 ≤ m < 4 →
  rinv (es ++ [(p, m)]) (edge_step n k st (p, m)).
Proof.
  intros [Hs Ht Hn Hflag Hnew Hnd Hcost Hfro Hmark Hex] Hm.
  destruct st as [a' new]. unfold edge_step. cbn [fst snd] in *.
  pose proof (append_square_shape n a' new p (vec_of m) m k Hs) as Hs'.
  pose proof (λ x y l, append_square_terrain n a' new p m k x y l Hs Hm)
    as Ht'.
  pose proof (append_square_new n a' new p m k) as Hnew'.
  pose proof (λ x y, append_square_flag n a' new p m k x y Hs Hm) as Hflag'.
  pose proof (λ x y l, append_square_frame n a' new p m k x y l Hs Hm)
    as Hframe.
  pose proof (λ x y m', append_square_cost n a' new p m k x y m' Hs Hm)
    as Hcost'.
  pose proof (append_square_exit_later n a' new p m k) as Hlater.
  pose proof (exit_first_sum a' new p m Hs Hn Hm) as Hfirst.
  cbn zeta in Hfirst.
  rewrite (walkable_terrain n a a' _ Ht) in Hnew', Hflag', Hcost'.
  rewrite (open_exit_terrain n a a' _ Ht) in Hlater, Hfirst.
  assert (Hlast : ∀ e, e ∈ es ++ [(p, m)] ↔ e ∈ es ∨ e = (p, m)).
  { intros e. by rewrite elem_of_app, list_elem_of_singleton. }
  generalize dependent (append_square n a' new p (vec_of m) m k).
  intros [a'' new'']. cbn [fst snd]. intros.
  destruct (step_to p m) as [qx qy] eqn:Hq. cbn [fst snd] in *.
  subst new''.
  assert (Hqb : walkable n a (qx, qy) = true → in_bounds n qx qy = true)
    by apply walkable_in_bounds.
  split; cbn [fst snd].
  - (* shape *) done.
  - (* terrain *)
    intros x y l Hb Hl. rewrite Ht' by done. by apply Ht.
  - (* costs at most 0 *)
    intros x y m' Hb Hm'.
    destruct (Hcost' x y m' Hb Hm') as [->|(_ & _ & _ & ->)];
      [by apply Hn|lia].
  - (* flags *)
    intros x y Hb. rewrite Hflag' by done.
    destruct (walkable n a (qx, qy)) eqn:Hw;
      [|rewrite andb_false_r; cbn [andb]; by apply Hflag].
    specialize (Hqb eq_refl).
    destruct (Z.eqb_spec x qx) as [->|Hx], (Z.eqb_spec y qy) as [->|Hy];
      cbn [andb].
    + split; [intros _|done].
      destruct (Z.eqb_spec (get a' qx qy 5) 1) as [Hf|Hf]; cbn [negb].
      * by apply Hflag.
      * right. rewrite elem_of_app, list_elem_of_singleton. auto.
    + rewrite Hflag by done. destruct (negb _); [|done].
      rewrite elem_of_app, list_elem_of_singleton.
      split; [tauto|]. intros [?|[?|?]]; auto; congruence.
    + rewrite Hflag by done. destruct (negb _); [|done].
      rewrite elem_of_app, list_elem_of_singleton.
      split; [tauto|]. intros [?|[?|?]]; auto; congruence.
    + rewrite Hflag by done. destruct (negb _); [|done].
      rewrite elem_of_app, list_elem_of_singleton.
      split; [tauto|]. intros [?|[?|?]]; auto; congruence.
  - (* new squares *)
    intros q'.
    destruct (walkable n a (qx, qy)) eqn:Hw; cbn [andb].
    + specialize (Hqb eq_refl).
      destruct (Z.eqb_spec (get a' qx qy 5) 1) as [Hf|Hf]; cbn [negb].
      * rewrite Hnew. split; intros (Hw' & Hf' & e & He & Hst);
          (repeat split; [done|done|]).
        -- exists e. rewrite Hlast. auto.
        -- apply Hlast in He as [He| ->]; [eauto|].
           cbn [fst snd] in Hst. rewrite Hq in Hst. subst q'. cbn [fst snd] in Hf'.
           apply Hflag in Hf as [?|Hin]; [done| |done].
           apply Hnew in Hin as (_ & _ & e & ? & ?). eauto.
      * rewrite elem_of_app, list_elem_of_singleton, Hnew. split.
        -- intros [(Hw' & Hf' & e & He & Hst)| ->].
           ++ repeat split; [done|done|]. exists e. rewrite Hlast. auto.
           ++ repeat split; [done| |].
              ** cbn [fst snd]. intros Hfa. apply Hf. apply Hflag; auto.
              ** exists (p, m). rewrite Hlast. split; [auto|exact Hq].
        -- intros (Hw' & Hf' & e & He & Hst).
           apply Hlast in He as [He| ->]; [left; eauto|right].
           by rewrite <- Hst.
    + rewrite Hnew. split; intros (Hw' & Hf' & e & He & Hst);
        (repeat split; [done|done|]).
      * exists e. rewrite Hlast. auto.
      * apply Hlast in He as [He| ->]; [eauto|].
        cbn [fst snd] in Hst. rewrite Hq in Hst. subst q'. congruence.
  - (* no duplicates *)
    destruct (walkable n a (qx, qy)) eqn:Hw; cbn [andb]; [|done].
    specialize (Hqb eq_refl).
    destruct (Z.eqb_spec (get a' qx qy 5) 1) as [Hf|Hf]; cbn [negb];
      [done|].
    apply list.NoDup_app. repeat split; [done| |apply NoDup_singleton].
    intros q' Hin ->%list_elem_of_singleton.
    apply Hf. apply Hflag; auto.
  - (* provenance of costs *)
    intros x y m' Hb Hm'.
    destruct (Hcost' x y m' Hb Hm') as [->|(Hxy & -> & Hw & ->)].
    + destruct (Hcost x y m' Hb Hm') as [?|(? & ? & p' & Hp' & ?)];
        [by left|right].
      repeat split; try done. exists p'. rewrite Hlast. auto.
    + right. repeat split; [by rewrite Hxy|].
      exists p. rewrite Hlast. split; [auto|congruence].
  - (* exits that already had an entry *)
    intros x y l He Hsum Hl.
    rewrite <- (Hfro x y l He Hsum Hl).
    destruct (decide ((x, y) = (qx, qy))) as [[= -> ->]|Hne].
    + rewrite Hlater; [done|done|].
      rewrite (sum_costs_ext a a'); [done|].
      intros; apply Hfro; (done || lia).
    + apply Hframe; try done.
      by apply (open_exit_in_bounds _ _ _ He).
  - (* an arrival leaves an entry *)
    intros x y He (e & Hin & Hst).
    pose proof (open_exit_in_bounds _ _ _ He) as Hb. cbn [fst snd] in Hb.
    destruct (decide ((x, y) = (qx, qy))) as [[= -> ->]|Hne].
    + destruct (decide (sum_costs a' qx qy = 0)) as [Hz|Hnz].
      * destruct (Hfirst He Hz) as [-> _]. lia.
      * by rewrite Hlater.
    + rewrite (sum_costs_ext a');
        [|intros; apply Hframe; (done || lia)].
      apply Hmark; [done|].
      apply Hlast in Hin as [Hin| ->]; [eauto|].
      cbn [fst snd] in Hst. rewrite Hq in Hst. congruence.
  - (* layer 10 at exits *)
    intros x y He Hok. specialize (Hex x y He Hok).
    pose proof (open_exit_in_bounds _ _ _ He) as Hb. cbn [fst snd] in Hb.
    destruct (decide ((x, y) = (qx, qy))) as [[= -> ->]|Hne].
    + destruct (decide (sum_costs a' qx qy = 0)) as [Hz|Hnz].
      * destruct (Hfirst He Hz) as (Hsum' & H10 & Hall).
        split; [by rewrite Hsum', H10|].
        intros m1 m2 Hm1 Hm2. rewrite !Hall by done.
        destruct (Z.eqb_spec m1 m), (Z.eqb_spec m2 m); intros; subst;
          done.
      * by rewrite Hlater.
    + eapply exit_ok_ext; [|exact Hex].
      intros l Hl. apply Hframe; done.
Qed.
End round.

(** ** The whole pass *)

Lemma explore_inv n k a squares :
  0 < k →
  shape (Z.to_nat n) (Z.to_nat n) (Z.to_nat num_layers) a →
  nonpos n a →
  round_inv n k a (edges squares) (explore n k a squares).
Proof.
  intros Hk Hs Hn. rewrite explore_edges.
  assert (Hdir : ∀ e, e ∈ edges squares → 0 ≤ e.2 < 4) by apply edges_dir.
  induction (edges squares) as [|e es IH] using rev_ind.
  - by apply round_inv_start.
  - rewrite foldl_snoc. destruct e as [p m].
    apply round_inv_step; [done| |].
    + apply IH. intros e He. apply Hdir. rewrite elem_of_app. auto.
    + apply (Hdir (p, m)). rewrite elem_of_app, list_elem_of_singleton. auto.
Qed.

(** The cells of the board, and a bound on lists of distinct cells. *)
Lemma length_bind_const {A B} (f : A → list B) (l : list A) (c : nat) :
  (∀ x, length (f x) = c) → length (l ≫= f) = (length l * c)%nat.
Proof.
  intros Hf. induction l as [|x l IH]; [done|].
  cbn. rewrite length_app, Hf. cbn in IH. rewrite IH. lia.
Qed.

Lemma length_coords n : length (coords n) = (Z.to_nat n * Z.to_nat n)%nat.
Proof.
  unfold coords. rewrite (length_bind_const _ _ (Z.to_nat n)).
  - by rewrite length_seqZ.
  - intros x. rewrite (length_bind_const _ _ 1%nat); [|done].
    rewrite length_seqZ. lia.
Qed.

Lemma elem_of_coords n x y :
  (x, y) ∈ coords n ↔ in_bounds n x y = true.
Proof.
  unfold coords, in_bounds. rewrite list_elem_of_bind. split.
  - intros (x' & Hy & Hx). apply list_elem_of_bind in Hy as (y' & Hxy & Hy).
    apply list_elem_of_singleton in Hxy as [= -> ->].
    apply elem_of_seqZ in Hx, Hy.
    rewrite !andb_true_iff, !Z.leb_le, !Z.ltb_lt. lia.
  - rewrite !andb_true_iff, !Z.leb_le, !Z.ltb_lt. intros Hb.
    exists x. split; [|apply elem_of_seqZ; lia].
    apply list_elem_of_bind. exists y. split; [|apply elem_of_seqZ; lia].
    by apply list_elem_of_singleton.
Qed.

Lemma cells_bound n (l : list (Z * Z)) :
  NoDup l → (∀ q, q ∈ l → in_bounds n q.1 q.2 = true) →
  (length l ≤ Z.to_nat n * Z.to_nat n)%nat.
Proof.
  intros Hnd Hb. rewrite <- length_coords.
  apply submseteq_length, NoDup_submseteq; [done|].
  intros [x y] Hq. apply elem_of_coords. by apply (Hb (x, y)).
Qed.

(** Distinct frontiers have distinct cells. *)
Lemma join_nodup_index {A} (D : list (list A)) i i' F F' (q : A) :
  NoDup (mjoin D) → D !! i = Some F → D !! i' = Some F' →
  q ∈ F → q ∈ F' → i = i'.
Proof.
  revert i i'. induction D as [|G D IH]; intros i i' Hnd Hi Hi' Hq Hq';
    [done|].
  cbn in Hnd. apply list.NoDup_app in Hnd as (_ & Hdisj & Hnd).
  destruct i as [|i], i' as [|i']; simpl in *.
  - done.
  - injection Hi as ->. exfalso. apply (Hdisj q Hq).
    apply list_elem_of_join. exists F'. split; [done|].
    by eapply list_elem_of_lookup_2.
  - injection Hi' as ->. exfalso. apply (Hdisj q Hq').
    apply list_elem_of_join. exists F. split; [done|].
    by eapply list_elem_of_lookup_2.
  - f_equal. by eapply IH.
Qed.

Section pass.
Variables (n : Z) (a0 : ndarray) (c : Z * Z).

Abbreviation shaped a :=
  (shape (Z.to_nat n) (Z.to_nat n) (Z.to_nat num_layers) a).

Abbreviation pinv := (pass_inv n a0 c).

Lemma pass_inv_step D S a :
  pinv D S a →
  let st := explore n (Z.of_nat (length D) + 1) a S in
  pinv (D ++ [S]) st.2 st.1.
Proof.
  intros [Hs Ht Hn Hroot Hsound Hclosed Hflag Hnd Hcost Hmark Hmin Hex] st.
  assert (Hk : 0 < Z.of_nat (length D) + 1) by lia.
  destruct (explore_inv n _ a S Hk Hs Hn)
    as [Rs Rt Rn Rflag Rnew Rnd Rcost Rfro Rmark Rex].
  fold st in Rs, Rt, Rn, Rflag, Rnew, Rnd, Rcost, Rfro, Rmark, Rex.
  destruct st as [a' new]. cbn [fst snd] in *.
  assert (Hw : ∀ q, walkable n a q = walkable n a0 q)
    by (intros; by apply walkable_terrain).
  assert (He : ∀ q, open_exit n a q = open_exit n a0 q)
    by (intros; by apply open_exit_terrain).
  assert (HS : (D ++ [S]) !! length D = Some S)
    by (by apply list_lookup_middle).
  assert (Hk' : Z.of_nat (length D) + 1 = Z.of_nat (Datatypes.S (length D)))
    by lia.
  split.
  - done.
  - intros x y l Hb Hl. rewrite Rt by done. by apply Ht.
  - done.
  - destruct Hroot as (F & HF & Hc). exists F. split; [|done].
    by apply lookup_app_l_Some.
  - (* soundness *)
    intros i F q Hi Hq.
    apply lookup_snoc_Some in Hi as [[_ Hi]|[-> ->]]; [by eapply Hsound|].
    apply Rnew in Hq as (Hwq & _ & [p m] & Hin & <-).
    cbn [fst snd] in *. rewrite Hw in Hwq.
    split; [|by eapply walkable_in_bounds].
    rewrite length_app. simpl. rewrite Nat.add_1_r.
    apply elem_of_edges in Hin as [Hp Hm].
    apply walk_step; [|lia|done].
    by apply (Hsound (length D) S p HS Hp).
  - (* closure *)
    intros i F p m Hi Hp Hm Hwq.
    apply lookup_snoc_Some in Hi as [[_ Hi]|[-> ->]].
    + destruct (Hclosed i F p m Hi Hp Hm Hwq) as (i' & F' & Hi' & ? & ?).
      exists i', F'. split; [|done]. by apply lookup_app_l_Some.
    + pose proof (walkable_in_bounds _ _ _ Hwq) as Hb.
      destruct (decide (get a (step_to p m).1 (step_to p m).2 5 = 1))
        as [Hf|Hf].
      * apply Hflag in Hf; [|done].
        replace ((step_to p m).1, (step_to p m).2) with (step_to p m) in Hf
          by (by destruct (step_to p m)).
        apply list_elem_of_join in Hf as (F' & Hq & HF').
        apply list_elem_of_lookup in HF' as (i' & Hi').
        exists i', F'. split; [by apply lookup_app_l_Some|].
        split; [done|].
        apply lookup_lt_Some in Hi'. rewrite length_app in Hi'.
        simpl in Hi'. lia.
      * exists (Datatypes.S (length D)), new. split; [|split; [|lia]].
        -- apply list_lookup_middle. rewrite length_app. simpl. lia.
        -- apply Rnew. rewrite Hw. repeat split; [done|done|].
           exists (p, m). split; [|done].
           apply elem_of_edges. split; [done|lia].
  - (* flags *)
    intros x y Hb. rewrite Rflag, Hflag by done.
    rewrite (join_app (D ++ [S])), (elem_of_app _ _ (x, y)). simpl.
    by rewrite app_nil_r.
  - (* no cell twice *)
    rewrite join_app. simpl. rewrite app_nil_r.
    apply list.NoDup_app. repeat split; [done| |done].
    intros [x y] Hin Hin'.
    apply Rnew in Hin' as (Hwq & Hf & _). cbn [fst snd] in Hf.
    apply Hf, Hflag; [|done].
    by apply (walkable_in_bounds _ _ _ Hwq).
  - (* provenance of the costs *)
    intros x y m Hb Hm Hne.
    destruct (Rcost x y m Hb Hm) as [Heq|(Heq & Hnw & p & Hin & Hst)].
    + rewrite Heq in Hne |- *.
      destruct (Hcost x y m Hb Hm Hne) as (? & i & F & p & Hi & ? & ? & ?).
      split; [done|]. exists i, F, p.
      split; [by apply lookup_app_l_Some|done].
    + rewrite Hw in Hnw. split; [done|].
      apply elem_of_edges in Hin as [Hp _].
      exists (length D), S, p. rewrite Heq. repeat split; try done. lia.
  - (* arrivals leave an entry *)
    intros x y i F p m Hex0 Hi Hp Hm Hst.
    apply lookup_snoc_Some in Hi as [[_ Hi]|[-> ->]].
    + pose proof (Hmark x y i F p m Hex0 Hi Hp Hm Hst) as Hsum.
      rewrite (sum_costs_ext a a'); [done|].
      intros; apply Rfro; [by rewrite He|done|lia].
    + apply Rmark; [by rewrite He|].
      exists (p, m). split; [|done]. apply elem_of_edges. split; [done|lia].
  - (* the entry of an exit is minimal *)
    intros x y m Hex0 Hm Hne i F p m' Hi Hp Hm' Hst.
    pose proof (open_exit_in_bounds _ _ _ Hex0) as Hb.
    cbn [fst snd] in Hb.
    destruct (decide (sum_costs a x y = 0)) as [Hz|Hnz].
    + apply lookup_snoc_Some in Hi as [[_ Hi]|[-> ->]].
      * exfalso. by apply (Hmark x y i F p m' Hex0 Hi Hp Hm' Hst).
      * destruct (Rcost x y m Hb Hm) as [Heq|(Heq & _)].
        -- rewrite Heq in Hne.
           by rewrite (sum_costs_zero n a x y Hn Hb Hz m Hm) in Hne.
        -- rewrite Heq. lia.
    + assert (Heq : get a' x y (m + 6) = get a x y (m + 6))
        by (apply Rfro; [by rewrite He|done|lia]).
      rewrite Heq in Hne |- *.
      apply lookup_snoc_Some in Hi as [[_ Hi]|[-> ->]].
      * by eapply Hmin.
      * destruct (Hcost x y m Hb Hm Hne)
          as (_ & i0 & F0 & p0 & Hi0 & _ & _ & ->).
        apply lookup_lt_Some in Hi0. lia.
  - (* layer 10 *)
    intros x y Hex0. apply Rex; [by rewrite He|by apply Hex].
Qed.
End pass.

Lemma pass_inv_cells n a0 c D S a :
  pass_inv n a0 c D S a →
  (length (mjoin (D ++ [S])) ≤ Z.to_nat n * Z.to_nat n)%nat.
Proof.
  intros Hinv. apply cells_bound; [by eapply pi_nodup|].
  intros q Hq. apply list_elem_of_join in Hq as (F & Hq & HF).
  apply list_elem_of_lookup in HF as (i & Hi).
  by eapply (pi_sound _ _ _ _ _ _ Hinv).
Qed.

(** With enough fuel the loop ends, and the invariant holds of all the
    frontiers it went through. *)
Lemma while_squares_inv n a0 c fuel :
  ∀ D S a,
    pass_inv n a0 c D S a →
    (Z.to_nat n * Z.to_nat n < length (mjoin D) + fuel)%nat →
    ∃ a', while_squares fuel n a S (Z.of_nat (length D)) = Some a' ∧
          pass_inv n a0 c
            (D ++ frontiers fuel n a S (Z.of_nat (length D))) [] a'.
Proof.
  induction fuel as [|fuel IH]; intros D S a Hinv Hfuel.
  - destruct S as [|s S].
    + exists a. simpl. by rewrite app_nil_r.
    + exfalso. pose proof (pass_inv_cells _ _ _ _ _ _ Hinv) as Hb.
      rewrite join_app, length_app in Hb. simpl in Hb. lia.
  - destruct S as [|s S].
    + exists a. simpl. by rewrite app_nil_r.
    + pose proof (pass_inv_cells _ _ _ _ _ _ Hinv) as Hb.
      rewrite join_app, length_app in Hb. simpl in Hb.
      pose proof (pass_inv_step _ _ _ _ _ _ Hinv) as Hstep.
      cbn zeta in Hstep.
      destruct (IH _ _ _ Hstep) as (a' & Hrun & Hfin).
      { rewrite join_app, length_app. simpl. lia. }
      rewrite length_app in Hrun, Hfin. simpl in Hrun, Hfin.
      replace (Z.of_nat (length D + 1)) with (Z.of_nat (length D) + 1)
        in Hrun, Hfin by lia.
      exists a'. simpl. split; [done|].
      by rewrite <- app_assoc in Hfin.
Qed.

(** The invariant holds when the loop is entered. *)
Lemma pass_inv_start (self : PushPosition) :
  wf self →
  pass_inv (self_size self) (arr self) (char_loc self)
    [] [char_loc self] (start_arr self).
Proof.
  intros [Hs Hc]. unfold start_arr.
  set (n := self_size self) in *. set (c := char_loc self) in *.
  set (a0 := arr self) in *.
  pose proof (shape_clear_layers _ _ _ Hs) as Hs0.
  assert (Hget : ∀ x y l, in_bounds n x y = true → 0 ≤ l < 12 →
    get (set (clear_layers a0) c.1 c.2 5 1) x y l =
    if (x =? c.1) && (y =? c.2) && (l =? 5) then 1
    else if l <? 5 then get a0 x y l else 0).
  { intros x y l Hb Hl. rewrite (get_set_in n) by (done || lia).
    destruct (_ && _); [done|].
    apply (get_clear_layers _ _ _ _ _ _ Hs). by apply in_bounds_inside. }
  assert (Hzero : ∀ x y l, in_bounds n x y = true → 6 ≤ l < 12 →
    get (set (clear_layers a0) c.1 c.2 5 1) x y l = 0).
  { intros x y l Hb Hl. rewrite (Hget x y l) by (done || lia).
    destruct (Z.eqb_spec l 5); [lia|]. rewrite andb_false_r.
    destruct (Z.ltb_spec l 5); [lia|done]. }
  split.
  - by apply shape_set.
  - intros x y l Hb Hl. rewrite (Hget x y l) by (done || lia).
    destruct (Z.eqb_spec l 5); [lia|]. rewrite andb_false_r.
    destruct (Z.ltb_spec l 5); [done|lia].
  - intros x y m Hb Hm. rewrite Hzero by (done || lia). done.
  - exists [c]. split; [done|]. by apply list_elem_of_singleton.
  - intros i F q Hi Hq. simpl in Hi.
    apply list_lookup_singleton_Some in Hi as [-> <-].
    apply list_elem_of_singleton in Hq as ->.
    split; [constructor|done].
  - intros i F p m Hi. done.
  - intros x y Hb. rewrite (Hget x y 5) by (done || lia). simpl.
    rewrite list_elem_of_singleton.
    destruct (Z.eqb_spec x c.1) as [->|Hx], (Z.eqb_spec y c.2) as [->|Hy];
      simpl.
    + split; [intros _; by destruct c|done].
    + split; [done|]. intros Heq. by rewrite <- Heq in Hy.
    + split; [done|]. intros Heq. by rewrite <- Heq in Hx.
    + split; [done|]. intros Heq. by rewrite <- Heq in Hx.
  - simpl. apply NoDup_singleton.
  - intros x y m Hb Hm Hne. by rewrite Hzero in Hne by (done || lia).
  - intros x y i F p m _ Hi. done.
  - intros x y m He Hm Hne.
    rewrite Hzero in Hne; [done| |lia].
    by apply (open_exit_in_bounds _ _ _ He).
  - intros x y He.
    pose proof (open_exit_in_bounds _ _ _ He) as Hb. cbn [fst snd] in Hb.
    split.
    + unfold sum_costs. rewrite !Hzero by (done || lia). done.
    + intros m m' Hm Hm' Hne. by rewrite Hzero in Hne by (done || lia).
Qed.

(** What the invariant says once [squares] is empty. *)
Section finished.
Variables (n : Z) (a0 : ndarray) (c : Z * Z).
Variables (D : list (list (Z * Z))) (a : ndarray).
Hypothesis Hinv : pass_inv n a0 c D [] a.

Lemma finished_lookup i F (q : Z * Z) :
  (D ++ [[]]) !! i = Some F → q ∈ F → D !! i = Some F.
Proof.
  intros Hi Hq. apply lookup_snoc_Some in Hi as [[_ Hi]|[_ <-]]; [done|].
  by apply elem_of_nil in Hq.
Qed.

Lemma finished_complete q j :
  walk n a0 c q j → ∃ i F, D !! i = Some F ∧ q ∈ F ∧ (i ≤ j)%nat.
Proof.
  induction 1 as [|p m j Hwalk IH Hm Hw].
  - destruct (pi_root _ _ _ _ _ _ Hinv) as (F & HF & Hc).
    exists 0%nat, F. split; [by eapply finished_lookup|]. split; [done|lia].
  - destruct IH as (i & F & Hi & Hp & Hij).
    destruct (pi_closed _ _ _ _ _ _ Hinv i F p m Hi Hp Hm Hw)
      as (i' & F' & Hi' & Hq & Hle).
    exists i', F'. split; [by eapply finished_lookup|]. split; [done|lia].
Qed.

Lemma finished_shortest i F q :
  D !! i = Some F → q ∈ F → shortest n a0 c q i.
Proof.
  intros Hi Hq. split.
  - eapply (pi_sound _ _ _ _ _ _ Hinv); [|exact Hq].
    by apply lookup_app_l_Some.
  - intros j Hwalk.
    destruct (finished_complete q j Hwalk) as (i' & F' & Hi' & Hq' & Hle).
    pose proof (pi_nodup _ _ _ _ _ _ Hinv) as Hnd.
    rewrite join_app in Hnd. simpl in Hnd. rewrite app_nil_r in Hnd.
    by rewrite (join_nodup_index D i i' F F' q).
Qed.
End finished.

Lemma wf_board3 : wf board3.
Proof. split; [|done]. split; [done|]. repeat constructor. Qed.

Lemma join_snoc_nil {A} (D : list (list A)) : mjoin (D ++ [[]]) = mjoin D.
Proof. rewrite join_app. simpl. by rewrite app_nil_r. Qed.

Lemma length_le_join {A} (Fs : list (list A)) :
  Forall (λ F, F ≠ []) Fs → (length Fs ≤ length (mjoin Fs))%nat.
Proof.
  induction 1 as [|F Fs HF _ IH]; [done|].
  simpl. rewrite length_app. destruct F; [done|]. simpl. lia.
Qed.

Lemma frontiers_nonempty fuel n a S k :
  Forall (λ F, F ≠ []) (frontiers fuel n a S k).
Proof.
  revert n a S k. induction fuel as [|fuel IH]; intros n a S k; destruct S;
    simpl; repeat constructor; done.
Qed.

Lemma assign_pushes_run self :
  wf self →
  ∃ a', while_squares (pass_fuel self) (self_size self) (start_arr self)
          [char_loc self] 0 = Some a' ∧
        pass_inv (self_size self) (arr self) (char_loc self)
          (pass_frontiers self) [] a' ∧
        assign_pushes self = Some (with_arr self (add_visits a')).
Proof.
  intros Hwf.
  destruct (while_squares_inv _ _ _ (pass_fuel self) [] _ _
              (pass_inv_start self Hwf)) as (a' & Hrun & Hinv).
  { unfold pass_fuel. simpl.
    destruct Hwf as [_ Hc]. apply in_bounds_nonneg in Hc as Hc'.
    unfold in_bounds in Hc. bools.
    rewrite Z2Nat.inj_mul by lia. lia. }
  change (Z.of_nat (length (@nil (list (Z * Z))))) with 0 in Hrun, Hinv.
  exists a'. split; [exact Hrun|]. split; [exact Hinv|].
  unfold assign_pushes. by rewrite Hrun.
Qed.

(** C9: a reachability pass always ends with a result; no cell is put on a
    frontier twice, so the squares expanded over the whole pass are at most
    the cells of the board (each is expanded by four calls). *)
Theorem assign_pushes_terminates self :
  wf self →
  (∃ self', assign_pushes self = Some self') ∧
  NoDup (mjoin (pass_frontiers self)) ∧
  (length (mjoin (pass_frontiers self))
   ≤ Z.to_nat (self_size self * self_size self))%nat ∧
  (length (pass_frontiers self)
   ≤ Z.to_nat (self_size self * self_size self))%nat.
Proof.
  intros Hwf. destruct (assign_pushes_run self Hwf) as (a' & _ & Hinv & Hres).
  pose proof (pi_nodup _ _ _ _ _ _ Hinv) as Hnd.
  pose proof (pass_inv_cells _ _ _ _ _ _ Hinv) as Hlen.
  rewrite join_snoc_nil in Hnd, Hlen.
  assert (Hn : 0 ≤ self_size self).
  { destruct Hwf as [_ Hc]. unfold in_bounds in Hc. bools. lia. }
  rewrite <- Z2Nat.inj_mul in Hlen by lia.
  split; [eauto|]. split; [done|]. split; [done|].
  etrans; [|exact Hlen].
  apply length_le_join, frontiers_nonempty.
Qed.

Lemma assign_pushes_terminates_witness :
  wf board3 ∧ ∃ self', assign_pushes board3 = Some self'.
Proof.
  split; [exact wf_board3|].
  exact (proj1 (assign_pushes_terminates board3 wf_board3)).
Defined.

(** C1: after a reachability pass, every recorded distance is the length of
    a shortest path from the character through empty space without exits:
    - the cells flagged reachable are exactly the cells of the frontiers, and
      the number of the frontier of a cell is the length of a shortest walk
      to it;
    - a directional cost at a cell (a pushable box, or an exit) in direction
      [m] is minus one more than the length of a shortest walk to the cell
      the push is made from;
    - at an exit with nothing on it, layer 10 repeats the recorded cost, and
      its magnitude is the length of a shortest walk into the exit. *)
Theorem assign_pushes_shortest self self' :
  wf self → assign_pushes self = Some self' →
  let n := self_size self in
  let a := arr self in
  let c := char_loc self in
  let a' := arr self' in
  (∀ x y, in_bounds n x y = true →
     (get a' x y 5 = 1 ↔ ∃ i F, pass_frontiers self !! i = Some F ∧ (x, y) ∈ F))
  ∧ (∀ i F q, pass_frontiers self !! i = Some F → q ∈ F → shortest n a c q i)
  ∧ (∀ x y m, in_bounds n x y = true → 0 ≤ m < 4 →
       get a' x y (m + 6) ≠ 0 →
       ∃ p i, step_to p m = (x, y) ∧ shortest n a c p i ∧
              get a' x y (m + 6) = - Z.of_nat (S i))
  ∧ (∀ x y m, open_exit n a (x, y) = true → 0 ≤ m < 4 →
       get a' x y (m + 6) ≠ 0 →
       get a' x y 10 = get a' x y (m + 6) ∧
       ∃ j, get a' x y (m + 6) = - Z.of_nat j ∧
            reaches n a c (x, y) j ∧
            ∀ j', reaches n a c (x, y) j' → (j ≤ j')%nat).
Proof.
  intros Hwf Hrun n a c a'.
  destruct (assign_pushes_run self Hwf) as (af & _ & Hinv & Hres).
  rewrite Hres in Hrun. injection Hrun as <-.
  pose proof (pi_shape _ _ _ _ _ _ Hinv) as Hs. fold n in Hs.
  assert (Hget : ∀ x y l, in_bounds n x y = true → 0 ≤ l < 11 →
            get a' x y l = get af x y l).
  { intros x y l Hb Hl. subst a'. simpl.
    rewrite (get_add_visits _ _ _ _ _ _ Hs)
      by (apply in_bounds_inside; (done || lia)).
    destruct (Z.eqb_spec l 11); [lia|done]. }
  assert (Hcost : ∀ x y m, in_bounds n x y = true → 0 ≤ m < 4 →
            get a' x y (m + 6) ≠ 0 →
            ∃ p i, step_to p m = (x, y) ∧ shortest n a c p i ∧
                   get a' x y (m + 6) = - Z.of_nat (S i)).
  { intros x y m Hb Hm. rewrite Hget by (done || lia). intros Hne.
    destruct (pi_cost _ _ _ _ _ _ Hinv x y m Hb Hm Hne)
      as (_ & i & F & p & Hi & Hp & Hst & Heq).
    exists p, i. split; [done|]. split; [|done].
    by eapply finished_shortest. }
  split; [|split; [|split]].
  - intros x y Hb. rewrite Hget by (done || lia).
    rewrite (pi_flag _ _ _ _ _ _ Hinv) by done.
    rewrite join_snoc_nil, list_elem_of_join. split.
    + intros (F & Hq & HF). apply list_elem_of_lookup in HF as (i & Hi). eauto.
    + intros (i & F & Hi & Hq). exists F. split; [done|].
      by eapply list_elem_of_lookup_2.
  - intros i F q Hi Hq. by eapply finished_shortest.
  - done.
  - intros x y m He Hm Hne.
    pose proof (open_exit_in_bounds _ _ _ He) as Hb. cbn [fst snd] in Hb.
    destruct (Hcost x y m Hb Hm Hne) as (p & i & Hst & [Hwalk _] & Heq).
    rewrite !Hget in * by (done || lia).
    split.
    + destruct (pi_exit _ _ _ _ _ _ Hinv x y He) as [H10 Hone].
      rewrite H10. unfold sum_costs.
      assert (Hz : ∀ m', 0 ≤ m' < 4 → m' ≠ m → get af x y (m' + 6) = 0).
      { intros m' Hm' Hmm.
        destruct (decide (get af x y (m' + 6) = 0)) as [|Hnz]; [done|].
        exfalso. apply Hmm. by apply Hone. }
      assert (H6 : m ≠ 0 → get af x y 6 = 0) by (intros; apply (Hz 0); lia).
      assert (H7 : m ≠ 1 → get af x y 7 = 0) by (intros; apply (Hz 1); lia).
      assert (H8 : m ≠ 2 → get af x y 8 = 0) by (intros; apply (Hz 2); lia).
      assert (H9 : m ≠ 3 → get af x y 9 = 0) by (intros; apply (Hz 3); lia).
      assert (m = 0 ∨ m = 1 ∨ m = 2 ∨ m = 3) as [->|[->|[->| ->]]] by lia;
        [change (0 + 6) with 6|change (1 + 6) with 7|change (2 + 6) with 8
        |change (3 + 6) with 9];
        rewrite ?H6, ?H7, ?H8, ?H9 by lia; lia.
    + exists (S i). split; [done|]. split.
      * exists p, m, i. done.
      * intros j' (p' & m' & i' & Hwalk' & Hm' & Hst' & ->).
        destruct (finished_complete _ _ _ _ _ Hinv p' i' Hwalk')
          as (i'' & F'' & Hi'' & Hp'' & Hle).
        pose proof (pi_min _ _ _ _ _ _ Hinv x y m He Hm Hne
                      i'' F'' p' m' Hi'' Hp'' Hm' Hst') as Hmin.
        lia.
Qed.

Lemma assign_pushes_shortest_witness :
  wf board3 ∧ assign_pushes board3 = Some board3_ready ∧
  get (arr board3_ready) 1 2 10 = get (arr board3_ready) 1 2 (1 + 6).
Proof.
  assert (E : assign_pushes board3 = Some board3_ready)
    by (vm_compute; reflexivity).
  split; [exact wf_board3|]. split; [exact E|].
  destruct (assign_pushes_shortest board3 board3_ready wf_board3 E)
    as (_ & _ & _ & Hexit).
  destruct (Hexit 1 2 1) as [H10 _].
  - vm_compute; reflexivity.
  - lia.
  - vm_compute; discriminate.
  - exact H10.
Defined.

(** ** Move application *)

Lemma wf_board3_ready : wf board3_ready.
Proof. split; [|done]. split; [done|]. repeat constructor. Qed.

Lemma wf_board5_ready : wf board5_ready.
Proof. split; [|done]. split; [done|]. repeat constructor. Qed.

Lemma in_bounds_true n x y :
  in_bounds n x y = true ↔ 0 ≤ x < n ∧ 0 ≤ y < n.
Proof.
  unfold in_bounds. rewrite !andb_true_iff, !Z.leb_le, !Z.ltb_lt. lia.
Qed.

Lemma in_bounds_false n x y :
  in_bounds n x y = false ↔ ¬ (0 ≤ x < n ∧ 0 ≤ y < n).
Proof. rewrite <- in_bounds_true. by destruct (in_bounds n x y). Qed.

Lemma np_index_in n i : 0 ≤ i < n → np_index n i = Some i.
Proof.
  intros Hi. unfold np_index.
  destruct (Z.leb_spec 0 i), (Z.ltb_spec i n); simpl; (done || lia).
Qed.

Lemma wf_dims self :
  wf self →
  dim0 (arr self) = self_size self ∧ dim1 (arr self) = self_size self ∧
  dim2 (arr self) = num_layers ∧ 0 < self_size self.
Proof.
  intros [Hs Hc].
  assert (Hn : 0 < self_size self) by (unfold in_bounds in Hc; bools; lia).
  pose proof (shape_row _ _ _ _ 0%nat Hs ltac:(lia)) as [Hm _].
  pose proof (shape_cell _ _ _ _ 0%nat 0%nat Hs ltac:(lia) ltac:(lia)) as Hk.
  destruct Hs as [Hlen _].
  unfold dim0, dim1, dim2. rewrite Hlen, Hm, Hk. unfold num_layers. lia.
Qed.

(** Inside the array the checked read is the plain read. *)
Lemma get_checked_in self x y l :
  wf self → in_bounds (self_size self) x y = true → 0 ≤ l < num_layers →
  get_checked (arr self) x y l = Ok (get (arr self) x y l).
Proof.
  intros Hwf Hb Hl. destruct (wf_dims self Hwf) as (H0 & H1 & H2 & _).
  unfold get_checked. rewrite H0, H1, H2.
  apply in_bounds_true in Hb.
  rewrite !np_index_in by lia. done.
Qed.

Lemma vecs_index_in d : 0 ≤ d < 4 → vecs_index d = Ok (vec_of d).
Proof. intros Hd. unfold vecs_index. by rewrite np_index_in. Qed.

(** C8: a push request that is out of bounds (whatever the direction), or
    that has no cost entry for its direction, returns ILLEGAL and leaves the
    whole position as it was: every layer, the character location, the
    penalty and the move record. *)
Theorem make_move_illegal self x y direction :
  in_bounds (self_size self) x y = false ∨
  (wf self ∧ 0 ≤ direction < 4 ∧ get (arr self) x y (direction + 6) = 0) →
  make_move self x y direction = Ok (ILLEGAL, self).
Proof.
  intros Hcase. unfold make_move.
  destruct (in_bounds (self_size self) x y) eqn:Hb; simpl; [|done].
  destruct Hcase as [|(Hwf & Hd & Hz)]; [done|].
  rewrite get_checked_in by (done || (unfold num_layers; lia)).
  simpl. by rewrite Hz.
Qed.

Lemma make_move_illegal_witness :
  make_move board3_ready 5 1 7 = Ok (ILLEGAL, board3_ready) ∧
  make_move board3_ready 1 2 0 = Ok (ILLEGAL, board3_ready).
Proof.
  split.
  - apply (make_move_illegal board3_ready 5 1 7). left. reflexivity.
  - apply (make_move_illegal board3_ready 1 2 0). right.
    split; [exact wf_board3_ready|]. split; [lia|reflexivity].
Defined.

(** What a legal request on a winning cell does: the move is recorded, a
    stored cost is added to the penalty, WIN is returned and nothing else
    changes. *)
Lemma make_move_win self x y direction :
  wf self → 0 ≤ direction < 4 →
  in_bounds (self_size self) x y = true →
  get (arr self) x y (direction + 6) ≠ 0 →
  is_win (arr self) x y = true →
  make_move self x y direction =
  Ok (WIN,
      mkPos (self_size self) (arr self) (moves self ++ [(x, y, direction)])
        (char_loc self) (exit_loc self)
        (moves_penalty self +
         if is_movable (arr self) x y
         then get (arr self) x y (direction + 6)
         else get (arr self) x y 10)).
Proof.
  intros Hwf Hd Hb Hne Hw. unfold make_move. rewrite Hb. simpl.
  rewrite get_checked_in by (done || (unfold num_layers; lia)). simpl.
  apply Z.eqb_neq in Hne. rewrite Hne.
  unfold with_moves, with_moves_penalty. simpl. rewrite Hw. simpl.
  destruct (is_movable (arr self) x y); simpl; done.
Qed.

(** C3: on the 3x3 open board with the character at (1,1) and the exit at
    (1,2), the winning push returns WIN and changes neither the array nor the
    character location, but the penalty it leaves is -1, not 1: [make_move]
    adds the stored cost itself, which is minus the number of moves. *)
Theorem make_move_exit_penalty_board3 :
  init (arr board3) = inr board3_ready ∧
  ∃ self',
    make_move board3_ready 1 2 1 = Ok (WIN, self') ∧
    arr self' = arr board3_ready ∧
    char_loc self' = char_loc board3_ready ∧
    moves self' = [(1, 2, 1)] ∧
    get (arr board3_ready) 1 2 10 = -1 ∧
    moves_penalty self' = -1.
Proof.
  split; [vm_compute; reflexivity|].
  eexists. split; [vm_compute; reflexivity|].
  repeat split.
Qed.

(** C4, as the code has it: a legal push request on a box that rests on an
    exit records the move and returns WIN; the character location and every
    layer stay as they were (neither the character nor the box is moved and
    the pass is not rerun). *)
Theorem make_move_box_on_exit self x y direction :
  wf self → 0 ≤ direction < 4 →
  in_bounds (self_size self) x y = true →
  get (arr self) x y (direction + 6) ≠ 0 →
  is_win (arr self) x y = true →
  is_movable (arr self) x y = true →
  ∃ self',
    make_move self x y direction = Ok (WIN, self') ∧
    arr self' = arr self ∧
    char_loc self' = char_loc self ∧
    moves self' = moves self ++ [(x, y, direction)].
Proof.
  intros Hwf Hd Hb Hne Hw Hm.
  eexists. split; [by apply make_move_win|]. done.
Qed.

Lemma make_move_box_on_exit_witness :
  ∃ self',
    make_move board5_ready 2 2 1 = Ok (WIN, self') ∧
    arr self' = arr board5_ready ∧
    char_loc self' = char_loc board5_ready ∧
    moves self' = moves board5_ready ++ [(2, 2, 1)].
Proof.
  apply (make_move_box_on_exit board5_ready 2 2 1 wf_board5_ready).
  - lia.
  - reflexivity.
  - vm_compute; discriminate.
  - reflexivity.
  - reflexivity.
Defined.

(** C4 as stated fails: on [board5_ready] the box at (2,2) rests on the exit
    and can be pushed east, yet after [make_move 2 2 1] the character is
    still at (2,0), the box is still at (2,2) and (2,3) is still empty. *)
Lemma make_move_box_on_exit_counterexample :
  is_movable (arr board5_ready) 2 2 = true ∧
  is_win (arr board5_ready) 2 2 = true ∧
  get (arr board5_ready) 2 2 (1 + 6) = -2 ∧
  ∃ self',
    make_move board5_ready 2 2 1 = Ok (WIN, self') ∧
    char_loc self' ≠ (2, 2) ∧
    is_movable (arr self') 2 2 = true ∧
    is_movable (arr self') 2 3 = false ∧
    arr self' = arr board5_ready.
Proof.
  repeat split; try reflexivity.
  eexists. split; [vm_compute; reflexivity|].
  repeat split; try reflexivity. simpl. discriminate.
Qed.

(** What a pass keeps: the class invariant, every field but the array, and
    the terrain layers 0 to 4. *)
Lemma assign_pushes_keeps self self' :
  wf self → assign_pushes self = Some self' →
  wf self' ∧
  self_size self' = self_size self ∧ char_loc self' = char_loc self ∧
  moves self' = moves self ∧ exit_loc self' = exit_loc self ∧
  moves_penalty self' = moves_penalty self ∧
  same_terrain (self_size self) (arr self) (arr self').
Proof.
  intros Hwf Hrun.
  destruct (assign_pushes_run self Hwf) as (af & _ & Hinv & Hres).
  rewrite Hres in Hrun. injection Hrun as <-.
  pose proof (pi_shape _ _ _ _ _ _ Hinv) as Hs.
  split; [split; [by apply shape_add_visits|by destruct Hwf]|].
  do 5 (split; [done|]).
  intros x y l Hb Hl. simpl.
  rewrite (get_add_visits _ _ _ _ _ _ Hs)
    by (apply in_bounds_inside; (done || lia)).
  destruct (Z.eqb_spec l 11); [lia|].
  by apply (pi_terrain _ _ _ _ _ _ Hinv).
Qed.

Lemma run_pass_ok self :
  wf self → ∃ self', run_pass self = Ok self' ∧ assign_pushes self = Some self'.
Proof.
  intros Hwf. destruct (assign_pushes_run self Hwf) as (af & _ & _ & Hres).
  eexists. unfold run_pass. rewrite Hres. done.
Qed.

(** C10: a single step onto an adjacent winning cell (an exit that can be
    entered, or a box on an exit that can be pushed) returns True and leaves
    every layer and the character location as they were; an ordinary step
    onto a free cell returns True as well, and there the character does
    move. *)
Theorem move_in_direction_win self direction :
  wf self → 0 ≤ direction < 4 →
  let new := step_to (char_loc self) direction in
  in_bounds (self_size self) new.1 new.2 = true →
  (get (arr self) new.1 new.2 (direction + 6) ≠ 0 →
   is_win (arr self) new.1 new.2 = true →
   ∃ self',
     move_in_direction self direction = Ok (true, self') ∧
     arr self' = arr self ∧ char_loc self' = char_loc self) ∧
  (get (arr self) new.1 new.2 (direction + 6) = 0 →
   is_unmovable (arr self) new.1 new.2 = false →
   is_movable (arr self) new.1 new.2 = false →
   ∃ self',
     move_in_direction self direction = Ok (true, self') ∧
     char_loc self' = new).
Proof.
  intros Hwf Hd new. subst new. unfold step_to. cbn [fst snd]. intros Hb.
  unfold move_in_direction. rewrite vecs_index_in by done.
  cbn [mbind result_bind]. rewrite Hb. cbn [negb].
  rewrite get_checked_in by (done || (unfold num_layers; lia)).
  cbn [mbind result_bind].
  generalize dependent ((char_loc self).1 + (vec_of direction).1).
  generalize dependent ((char_loc self).2 + (vec_of direction).2).
  intros ny nx Hb. split.
  - intros Hne Hw. apply Z.eqb_neq in Hne as Hne'. rewrite Hne'.
    set (self1 := with_moves_penalty self (moves_penalty self + 1)).
    assert (Hwf1 : wf self1) by done.
    rewrite (make_move_win self1) by done. cbn [mbind result_bind].
    eexists. split; [reflexivity|]. done.
  - intros Hz Hu Hm. rewrite Hz, Hu, Hm. cbn [orb Z.eqb].
    set (self1 := with_char_loc _ _).
    assert (Hwf1 : wf self1).
    { destruct Hwf as [Hs Hc]. split; [|done].
      by do 2 apply shape_set. }
    destruct (run_pass_ok self1 Hwf1) as (self2 & -> & Hrun).
    cbn [mbind result_bind].
    destruct (assign_pushes_keeps self1 self2 Hwf1 Hrun)
      as (_ & _ & Hc & _).
    eexists. split; [reflexivity|]. simpl. by rewrite Hc.
Qed.

Lemma move_in_direction_win_witness :
  ∃ self',
    move_in_direction board3_ready 1 = Ok (true, self') ∧
    arr self' = arr board3_ready ∧ char_loc self' = char_loc board3_ready.
Proof.
  apply (move_in_direction_win board3_ready 1 wf_board3_ready).
  - lia.
  - reflexivity.
  - vm_compute; discriminate.
  - reflexivity.
Defined.

(** ** The move codec *)

(** C5: on the 5x5 board whose exit at (2,2) carries a box that can be
    pushed east after 2 moves and west after 6, the pass records the two
    directional costs but leaves layer 10 at 0, not at -2: the maximum is
    taken with the 0 the layer was cleared to. *)
Theorem best_exit_cost_box_board5 :
  init board5_input = inr board5_ready ∧
  is_win (arr board5_ready) 2 2 = true ∧
  is_movable (arr board5_ready) 2 2 = true ∧
  get (arr board5_ready) 2 2 (1 + 6) = -2 ∧
  get (arr board5_ready) 2 2 (3 + 6) = -6 ∧
  get (arr board5_ready) 2 2 10 = 0.
Proof. split; [vm_compute; reflexivity|]. repeat split. Qed.

(** C6: a push at an in-bounds target, numbered relative to the character
    as [y_rotations] numbers it, is read back by [make_move_number] as the
    same target and direction. *)
Theorem move_number_roundtrip self row col direction :
  self_size self = size →
  in_bounds size (char_loc self).1 (char_loc self).2 = true →
  in_bounds size row col = true →
  0 ≤ direction < 4 →
  decode_move_number self
    (move_number (char_loc self).1 (char_loc self).2 row col direction)
  = (row, col, direction).
Proof.
  intros Hsize Hc Hb Hd.
  apply in_bounds_true in Hc, Hb.
  unfold decode_move_number, move_number. rewrite Hsize.
  unfold size in *.
  destruct (char_loc self) as [cx cy]. cbn [fst snd] in *.
  change ((20 * 2 - 1) * 4) with 156. change (4 * (2 * 20 - 1)) with 156.
  change (20 - 1) with 19.
  set (x := row + 20 - 1 - cx). set (y := col + 20 - 1 - cy).
  assert (Hx : 0 ≤ x < 39) by (unfold x; lia).
  assert (Hy : 0 ≤ y < 39) by (unfold y; lia).
  assert (H1 : (156 * x + 4 * y + direction) `div` 156 = x)
    by (symmetry; apply (Z.div_unique _ _ _ (4 * y + direction)); lia).
  assert (H2 : (156 * x + 4 * y + direction) `mod` 156 = 4 * y + direction)
    by (symmetry; apply (Z.mod_unique _ _ x); lia).
  assert (H3 : (4 * y + direction) `div` 4 = y)
    by (symmetry; apply (Z.div_unique _ _ _ direction); lia).
  assert (H4 : (156 * x + 4 * y + direction) `mod` 4 = direction)
    by (symmetry; apply (Z.mod_unique _ _ (39 * x + y)); lia).
  rewrite H1, H2, H3, H4.
  replace (x + cx - 19) with row by (unfold x; lia).
  replace (y + cy - 19) with col by (unfold y; lia).
  done.
Qed.

Lemma move_number_roundtrip_witness :
  decode_move_number (mkPos 20 [] [] (3, 4) None 0)
    (move_number 3 4 0 19 2) = (0, 19, 2).
Proof.
  apply (move_number_roundtrip (mkPos 20 [] [] (3, 4) None 0) 0 19 2).
  - reflexivity.
  - reflexivity.
  - reflexivity.
  - lia.
Defined.

(** ** Symmetry augmentation *)

Lemma get_cell a x y l : get a x y l = cell a (Z.to_nat x) (Z.to_nat y) !!! Z.to_nat l.
Proof. done. Qed.

(** Arrays of one shape with the same cells are equal. *)
Lemma shape_ext n m k a b :
  shape n m k a → shape n m k b →
  (∀ i j, (i < n)%nat → (j < m)%nat → cell a i j = cell b i j) →
  a = b.
Proof.
  intros Ha Hb Hcell.
  apply (list_eq_same_length _ _ n); [by destruct Hb|by destruct Ha|].
  intros i ra rb Hi Hra Hrb.
  destruct (shape_row n m k a i Ha Hi) as [Hla _].
  destruct (shape_row n m k b i Hb Hi) as [Hlb _].
  pose proof (list_lookup_total_correct _ _ _ Hra) as Era.
  pose proof (list_lookup_total_correct _ _ _ Hrb) as Erb.
  rewrite Era in Hla. rewrite Erb in Hlb.
  apply (list_eq_same_length _ _ m); [done|done|].
  intros j ca cb Hj Hca Hcb.
  specialize (Hcell i j Hi Hj). unfold cell in Hcell.
  rewrite Era, Erb in Hcell.
  rewrite (list_lookup_total_correct _ _ _ Hca) in Hcell.
  rewrite (list_lookup_total_correct _ _ _ Hcb) in Hcell. done.
Qed.

Lemma shape_cell' n m k a i j :
  shape n m k a → (i < n)%nat → (j < m)%nat → length (cell a i j) = k.
Proof. apply shape_cell. Qed.

(** Building a shape from its rows and cells. *)
Lemma shape_intro n m k (a : ndarray) :
  length a = n →
  (∀ i, (i < n)%nat → length (a !!! i) = m) →
  (∀ i j, (i < n)%nat → (j < m)%nat → length (cell a i j) = k) →
  shape n m k a.
Proof.
  intros Hn Hm Hk. split; [done|].
  apply Forall_lookup. intros i row Hi.
  pose proof (lookup_lt_Some _ _ _ Hi) as Hlt. rewrite Hn in Hlt.
  pose proof (list_lookup_total_correct _ _ _ Hi) as Erow.
  split; [rewrite <- Erow; by apply Hm|].
  apply Forall_lookup. intros j c Hj.
  pose proof (lookup_lt_Some _ _ _ Hj) as Hlt'.
  rewrite <- Erow, Hm in Hlt' by done.
  specialize (Hk i j Hlt Hlt'). unfold cell in Hk.
  rewrite Erow in Hk. by rewrite (list_lookup_total_correct _ _ _ Hj) in Hk.
Qed.

(** [swapaxes] on a square array. *)
Lemma swapaxes_row n k a i :
  shape n n k a → (i < n)%nat →
  swapaxes a !!! i = (λ row : list (list Z), row !!! i) <$> a.
Proof.
  intros Hs Hi. unfold swapaxes.
  destruct (shape_row n n k a 0%nat Hs ltac:(lia)) as [Hm _].
  rewrite (list_lookup_total_fmap _ (seq 0 (length (a !!! 0%nat))) i)
    by (rewrite length_seq; lia).
  by rewrite lookup_total_seq_lt by lia.
Qed.

Lemma cell_swapaxes n k a i j :
  shape n n k a → (i < n)%nat → (j < n)%nat →
  cell (swapaxes a) i j = cell a j i.
Proof.
  intros Hs Hi Hj. unfold cell. rewrite (swapaxes_row n k) by done.
  destruct Hs as [Hn _].
  by rewrite (list_lookup_total_fmap _ a j) by lia.
Qed.

Lemma shape_swapaxes n k a :
  shape n n k a → shape n n k (swapaxes a).
Proof.
  intros Hs.
  assert (Hlen : length (swapaxes a) = n).
  { unfold swapaxes. rewrite length_fmap, length_seq.
    destruct n as [|n]; [by destruct Hs as [->%nil_length_inv _]|].
    by destruct (shape_row _ _ _ a 0%nat Hs ltac:(lia)). }
  apply shape_intro; [done| |].
  - intros i Hi. rewrite (swapaxes_row n k) by done.
    rewrite length_fmap. by destruct Hs.
  - intros i j Hi Hj. rewrite (cell_swapaxes n k) by done.
    by apply (shape_cell n n k).
Qed.

(** [np.flip(_, 1)] on a square array. *)
Lemma cell_flip_axis1 n k a i j :
  shape n n k a → (i < n)%nat → (j < n)%nat →
  cell (flip_axis1 a) i j = cell a i (n - 1 - j).
Proof.
  intros Hs Hi Hj. unfold cell, flip_axis1.
  destruct (shape_row n n k a i Hs Hi) as [Hm _].
  destruct Hs as [Hn _].
  rewrite (list_lookup_total_fmap _ a i) by lia.
  generalize dependent (a !!! i). intros row Hm.
  rewrite !list_lookup_total_alt.
  rewrite reverse_lookup by lia. rewrite Hm.
  by replace (n - S j)%nat with (n - 1 - j)%nat by lia.
Qed.

Lemma shape_flip_axis1 n k a :
  shape n n k a → shape n n k (flip_axis1 a).
Proof.
  intros Hs. apply shape_intro.
  - unfold flip_axis1. rewrite length_fmap. by destruct Hs.
  - intros i Hi. unfold flip_axis1.
    destruct (shape_row n n k a i Hs Hi) as [Hm _]. destruct Hs as [Hn _].
    rewrite (list_lookup_total_fmap _ a i) by lia.
    by rewrite length_reverse.
  - intros i j Hi Hj. rewrite (cell_flip_axis1 n k) by done.
    apply (shape_cell n n k); (done || lia).
Qed.

Lemma shape_rot90 n k a : shape n n k a → shape n n k (rot90 a).
Proof. intros Hs. by apply shape_swapaxes, shape_flip_axis1. Qed.

(** [np.rot90]: the cell at (i, j) comes from (j, n-1-i). *)
Lemma cell_rot90 n k a i j :
  shape n n k a → (i < n)%nat → (j < n)%nat →
  cell (rot90 a) i j = cell a j (n - 1 - i).
Proof.
  intros Hs Hi Hj. unfold rot90.
  rewrite (cell_swapaxes n k) by (done || by apply shape_flip_axis1).
  by rewrite (cell_flip_axis1 n k) by done.
Qed.

Lemma cell_on_costs n k f a i j :
  shape n n k a → (i < n)%nat → (j < n)%nat →
  cell (on_costs f a) i j = cost_slice f (cell a i j).
Proof. intros. unfold cell, on_costs. by rewrite (cell_map_cells n n k). Qed.

Lemma shape_on_costs n f a :
  (∀ l : list Z, length (f l) = length l) →
  shape n n 12 a → shape n n 12 (on_costs f a).
Proof.
  intros Hf. apply shape_map_cells. intros c Hc.
  rewrite !length_app, Hf, !length_take, !length_drop. lia.
Qed.

Lemma length_roll_back l : length (roll_back l) = length l.
Proof.
  unfold roll_back. rewrite length_app, length_take, length_drop.
  destruct l; simpl; lia.
Qed.

Lemma shape_rotate_state n a :
  shape n n 12 a → shape n n 12 (rotate_state a).
Proof.
  intros Hs. apply shape_on_costs; [apply length_roll_back|].
  by apply shape_rot90.
Qed.

Lemma shape_reflect_state n a :
  shape n n 12 a → shape n n 12 (reflect_state a).
Proof.
  intros Hs. apply shape_on_costs; [apply length_reverse|].
  by apply shape_swapaxes.
Qed.

Lemma cell_rotate_state n a i j :
  shape n n 12 a → (i < n)%nat → (j < n)%nat →
  cell (rotate_state a) i j = cost_slice roll_back (cell a j (n - 1 - i)).
Proof.
  intros Hs Hi Hj. unfold rotate_state.
  rewrite (cell_on_costs n 12) by (done || by apply shape_rot90).
  by rewrite (cell_rot90 n 12) by done.
Qed.

Lemma cell_reflect_state n a i j :
  shape n n 12 a → (i < n)%nat → (j < n)%nat →
  cell (reflect_state a) i j = cost_slice reverse (cell a j i).
Proof.
  intros Hs Hi Hj. unfold reflect_state.
  rewrite (cell_on_costs n 12) by (done || by apply shape_swapaxes).
  by rewrite (cell_swapaxes n 12) by done.
Qed.

(** A cell of twelve layers, spelled out. *)
Lemma cell12 (c : list Z) :
  length c = 12%nat →
  ∃ c0 c1 c2 c3 c4 c5 c6 c7 c8 c9 c10 c11,
    c = [c0; c1; c2; c3; c4; c5; c6; c7; c8; c9; c10; c11].
Proof.
  intros H. do 12 (destruct c as [|? c]; [discriminate|]).
  destruct c; [|discriminate]. by repeat eexists.
Qed.

Lemma roll_back_four c :
  length c = 12%nat →
  cost_slice roll_back (cost_slice roll_back
    (cost_slice roll_back (cost_slice roll_back c))) = c.
Proof. intros (?&?&?&?&?&?&?&?&?&?&?&?&->)%cell12. reflexivity. Qed.

Lemma reverse_two c :
  length c = 12%nat → cost_slice reverse (cost_slice reverse c) = c.
Proof. intros (?&?&?&?&?&?&?&?&?&?&?&?&->)%cell12. reflexivity. Qed.

Lemma length_cost_slice f c :
  (∀ l : list Z, length (f l) = length l) →
  length c = 12%nat → length (cost_slice f c) = 12%nat.
Proof.
  intros Hf Hc. unfold cost_slice.
  rewrite !length_app, Hf, !length_take, !length_drop. lia.
Qed.

Lemma rotate_state_four n a :
  shape n n 12 a →
  rotate_state (rotate_state (rotate_state (rotate_state a))) = a.
Proof.
  intros Hs.
  pose proof (shape_rotate_state n a Hs) as H1.
  pose proof (shape_rotate_state n _ H1) as H2.
  pose proof (shape_rotate_state n _ H2) as H3.
  pose proof (shape_rotate_state n _ H3) as H4.
  apply (shape_ext n n 12); [done|done|].
  intros i j Hi Hj.
  rewrite (cell_rotate_state n) by done.
  rewrite (cell_rotate_state n) by (done || lia).
  rewrite (cell_rotate_state n) by (done || lia).
  rewrite (cell_rotate_state n) by (done || lia).
  replace (n - 1 - (n - 1 - i))%nat with i by lia.
  replace (n - 1 - (n - 1 - j))%nat with j by lia.
  apply roll_back_four. by apply (shape_cell n n 12).
Qed.

Lemma reflect_state_two n a :
  shape n n 12 a → reflect_state (reflect_state a) = a.
Proof.
  intros Hs.
  pose proof (shape_reflect_state n a Hs) as H1.
  pose proof (shape_reflect_state n _ H1) as H2.
  apply (shape_ext n n 12); [done|done|].
  intros i j Hi Hj.
  rewrite (cell_reflect_state n) by done.
  rewrite (cell_reflect_state n) by done.
  apply reverse_two. by apply (shape_cell n n 12).
Qed.

(** C7: on a square tensor of twelve layers the rotation step of
    [x_rotations] applied four times, and its reflection step applied twice,
    give the tensor back; [rotate_once] applied four times gives the label
    triple back. *)
Theorem symmetry_closure n a x y direction :
  shape n n (Z.to_nat num_layers) a → 0 ≤ direction < 4 →
  rotate_state (rotate_state (rotate_state (rotate_state a))) = a ∧
  reflect_state (reflect_state a) = a ∧
  rotate_four x y direction = (x, y, direction).
Proof.
  intros Hs Hd. split; [by eapply rotate_state_four|].
  split; [by eapply reflect_state_two|].
  unfold rotate_four, rotate_once, size.
  f_equal; [f_equal; lia|].
  assert (direction = 0 ∨ direction = 1 ∨ direction = 2 ∨ direction = 3)
    as [->|[->|[->| ->]]] by lia; reflexivity.
Qed.

Lemma symmetry_closure_witness :
  rotate_state (rotate_state (rotate_state (rotate_state
    [[cE; cC]; [cMW; cU]]))) = [[cE; cC]; [cMW; cU]] ∧
  reflect_state (reflect_state [[cE; cC]; [cMW; cU]])
  = [[cE; cC]; [cMW; cU]] ∧
  rotate_four 5 7 2 = (5, 7, 2).
Proof.
  apply (symmetry_closure 2 [[cE; cC]; [cMW; cU]] 5 7 2).
  - split; [done|]. repeat constructor.
  - lia.
Defined.

(** ** States and labels under the eight transforms *)

Lemma layers_ind (P : Z → Prop) :
  P 0 → P 1 → P 2 → P 3 → P 4 → P 5 → P 6 → P 7 → P 8 → P 9 → P 10 → P 11 →
  ∀ l, 0 ≤ l < 12 → P l.
Proof.
  intros ? ? ? ? ? ? ? ? ? ? ? ? l Hl.
  assert (Hcases : l = 0 ∨ l = 1 ∨ l = 2 ∨ l = 3 ∨ l = 4 ∨ l = 5 ∨ l = 6 ∨
                   l = 7 ∨ l = 8 ∨ l = 9 ∨ l = 10 ∨ l = 11) by lia.
  repeat (destruct Hcases as [->|Hcases]; [done|]). by subst.
Qed.

Lemma four_dirs d : 0 ≤ d < 4 → d = 0 ∨ d = 1 ∨ d = 2 ∨ d = 3.
Proof. lia. Qed.

Section transforms.
Variable n : nat.
Variable a : ndarray.
Hypothesis Hs : shape n n 12 a.

Lemma get_rotate_state_cost x y d :
  0 ≤ x < Z.of_nat n → 0 ≤ y < Z.of_nat n → 0 ≤ d < 4 →
  get (rotate_state a) (Z.of_nat n - y - 1) x ((d - 1) mod 4 + 6)
  = get a x y (d + 6).
Proof.
  intros Hx Hy Hd. rewrite !get_cell.
  rewrite (cell_rotate_state n) by (done || lia).
  replace (n - 1 - Z.to_nat (Z.of_nat n - y - 1))%nat with (Z.to_nat y)
    by lia.
  destruct (cell12 (cell a (Z.to_nat x) (Z.to_nat y)))
    as (?&?&?&?&?&?&?&?&?&?&?&?&->);
    [apply (shape_cell n n 12); (done || lia)|].
  destruct (four_dirs d Hd) as [->|[->|[->| ->]]]; reflexivity.
Qed.

Lemma get_rotate_state_plain x y l :
  0 ≤ x < Z.of_nat n → 0 ≤ y < Z.of_nat n → plain_layer l →
  get (rotate_state a) (Z.of_nat n - y - 1) x l = get a x y l.
Proof.
  intros Hx Hy Hl. rewrite !get_cell.
  rewrite (cell_rotate_state n) by (done || lia).
  replace (n - 1 - Z.to_nat (Z.of_nat n - y - 1))%nat with (Z.to_nat y)
    by lia.
  destruct (cell12 (cell a (Z.to_nat x) (Z.to_nat y)))
    as (?&?&?&?&?&?&?&?&?&?&?&?&->);
    [apply (shape_cell n n 12); (done || lia)|].
  assert (0 ≤ l < 12) as Hl' by (unfold plain_layer in Hl; lia).
  revert Hl. pattern l. revert l Hl'.
  apply layers_ind; unfold plain_layer; intros Hl; (reflexivity || lia).
Qed.

Lemma get_reflect_state_cost x y d :
  0 ≤ x < Z.of_nat n → 0 ≤ y < Z.of_nat n → 0 ≤ d < 4 →
  get (reflect_state a) y x (3 - d + 6) = get a x y (d + 6).
Proof.
  intros Hx Hy Hd. rewrite !get_cell.
  rewrite (cell_reflect_state n) by (done || lia).
  destruct (cell12 (cell a (Z.to_nat x) (Z.to_nat y)))
    as (?&?&?&?&?&?&?&?&?&?&?&?&->);
    [apply (shape_cell n n 12); (done || lia)|].
  destruct (four_dirs d Hd) as [->|[->|[->| ->]]]; reflexivity.
Qed.

Lemma get_reflect_state_plain x y l :
  0 ≤ x < Z.of_nat n → 0 ≤ y < Z.of_nat n → plain_layer l →
  get (reflect_state a) y x l = get a x y l.
Proof.
  intros Hx Hy Hl. rewrite !get_cell.
  rewrite (cell_reflect_state n) by (done || lia).
  destruct (cell12 (cell a (Z.to_nat x) (Z.to_nat y)))
    as (?&?&?&?&?&?&?&?&?&?&?&?&->);
    [apply (shape_cell n n 12); (done || lia)|].
  assert (0 ≤ l < 12) as Hl' by (unfold plain_layer in Hl; lia).
  revert Hl. pattern l. revert l Hl'.
  apply layers_ind; unfold plain_layer; intros Hl; (reflexivity || lia).
Qed.
End transforms.

Lemma image_id t :
  shape (Z.to_nat dsize) (Z.to_nat dsize) 12 t → image_of t t id id.
Proof. intros Hs. split; try done. Qed.

Lemma image_rotate t t' pm dm :
  image_of t t' pm dm →
  image_of t (rotate_state t') (rot_cell ∘ pm) (rot_dir ∘ dm).
Proof.
  intros [Hs Hf Hd Hc Hp Hst Hce Hdi]. split.
  - by apply shape_rotate_state.
  - intros x y Hxy. specialize (Hf x y Hxy). unfold in_frame, dsize in *.
    simpl. lia.
  - intros d Hd'. unfold rot_dir. simpl. apply Z.mod_pos_bound. lia.
  - intros x y d Hxy Hd'. simpl. unfold rot_dir.
    rewrite <- (Hc x y d Hxy Hd'). specialize (Hf x y Hxy).
    unfold in_frame, dsize in Hf.
    replace (2 * size - 1 - (pm (x, y)).2 - 1)
      with (Z.of_nat (Z.to_nat dsize) - (pm (x, y)).2 - 1)
      by (unfold dsize, size; lia).
    apply (get_rotate_state_cost _ _ Hs); [| |by apply Hd];
      unfold dsize, size in *; lia.
  - intros x y l Hxy Hl. simpl.
    rewrite <- (Hp x y l Hxy Hl). specialize (Hf x y Hxy).
    unfold in_frame, dsize in Hf.
    replace (2 * size - 1 - (pm (x, y)).2 - 1)
      with (Z.of_nat (Z.to_nat dsize) - (pm (x, y)).2 - 1)
      by (unfold dsize, size; lia).
    apply (get_rotate_state_plain _ _ Hs); [| |done];
      unfold dsize, size in *; lia.
  - intros p d Hd'. simpl. rewrite Hst by done.
    specialize (Hd d Hd'). unfold rot_cell, rot_dir, step_to.
    destruct (four_dirs _ Hd) as [->|[->|[->| ->]]]; simpl;
      f_equal; lia.
  - simpl. rewrite Hce. unfold rot_cell, size. simpl. f_equal.
  - intros x y. unfold rot_cell, compose. cbn [fst snd].
    rewrite <- (Hdi x y). unfold size. ring.
Qed.

Lemma image_reflect t t' pm dm :
  image_of t t' pm dm →
  image_of t (reflect_state t') (ref_cell ∘ pm) (ref_dir ∘ dm).
Proof.
  intros [Hs Hf Hd Hc Hp Hst Hce Hdi]. split.
  - by apply shape_reflect_state.
  - intros x y Hxy. specialize (Hf x y Hxy). unfold in_frame in *.
    simpl. lia.
  - intros d Hd'. unfold ref_dir. simpl. specialize (Hd d Hd'). lia.
  - intros x y d Hxy Hd'. simpl. unfold ref_dir.
    rewrite <- (Hc x y d Hxy Hd'). specialize (Hf x y Hxy).
    unfold in_frame, dsize in Hf.
    apply (get_reflect_state_cost _ _ Hs); [| |by apply Hd];
      unfold dsize, size in *; lia.
  - intros x y l Hxy Hl. simpl.
    rewrite <- (Hp x y l Hxy Hl). specialize (Hf x y Hxy).
    unfold in_frame, dsize in Hf.
    apply (get_reflect_state_plain _ _ Hs); [| |done];
      unfold dsize, size in *; lia.
  - intros p d Hd'. simpl. rewrite Hst by done.
    specialize (Hd d Hd'). unfold ref_cell, ref_dir, step_to.
    destruct (four_dirs _ Hd) as [->|[->|[->| ->]]]; simpl;
      f_equal; lia.
  - simpl. by rewrite Hce.
  - intros x y. unfold ref_cell, compose. cbn [fst snd].
    rewrite <- (Hdi x y). ring.
Qed.

(** *** Labels *)

Lemma label_index_range tr :
  in_label tr → 0 ≤ label_index tr < dsize * dsize * 4.
Proof.
  destruct tr as [[x y] d]. unfold in_label, in_frame, label_index, dsize, size.
  simpl. lia.
Qed.

Lemma onehot_in i :
  0 ≤ i < dsize * dsize * 4 → onehot (dsize * dsize * 4) i = Ok (hot i).
Proof. intros Hi. unfold onehot. by rewrite np_index_in. Qed.

Lemma argmax_from_zeros bi bv i k :
  0 ≤ bv → argmax_from bi bv i (replicate k 0) = bi.
Proof.
  intros Hbv. revert i. induction k as [|k IH]; intros i; [done|].
  simpl. destruct (Z.ltb_spec bv 0); [lia|]. apply IH.
Qed.

Lemma argmax_from_hot bi i j k :
  argmax_from bi 0 i (replicate j 0 ++ 1 :: replicate k 0) = i + Z.of_nat j.
Proof.
  revert i. induction j as [|j IH]; intros i.
  - simpl. rewrite argmax_from_zeros by lia. lia.
  - simpl. rewrite IH. lia.
Qed.

Lemma argmax_hot i :
  0 ≤ i < dsize * dsize * 4 → argmax (hot i) = Some i.
Proof.
  intros Hi. unfold hot.
  rewrite insert_replicate_lt by lia.
  generalize (Z.to_nat (dsize * dsize * 4) - S (Z.to_nat i))%nat. intros k.
  destruct (Z.to_nat i) as [|j] eqn:Ej.
  - cbn [replicate app argmax]. rewrite argmax_from_zeros by lia.
    f_equal. lia.
  - cbn [replicate app argmax].
    change (0 <? 0) with false. cbn [argmax_from].
    change (argmax_from 0 0 1 (replicate j 0 ++ 1 :: replicate k 0))
      with (argmax_from 0 0 1 (replicate j 0 ++ 1 :: replicate k 0)).
    rewrite argmax_from_hot. f_equal. lia.
Qed.

Lemma decode_index_label tr :
  in_label tr → decode_index (label_index tr) = tr.
Proof.
  destruct tr as [[x y] d]. unfold in_label, in_frame, label_index, dsize.
  simpl. intros [[Hx Hy] Hd]. unfold decode_index, size in *.
  change (2 * 20 - 1) with 39 in *. change (39 * 4) with 156.
  replace (4 * 39 * x + 4 * y + d) with (156 * x + 4 * y + d) by lia.
  assert (H1 : (156 * x + 4 * y + d) `div` 156 = x)
    by (symmetry; apply (Z.div_unique _ _ _ (4 * y + d)); lia).
  assert (H2 : (156 * x + 4 * y + d) `mod` 156 = 4 * y + d)
    by (symmetry; apply (Z.mod_unique _ _ x); lia).
  assert (H3 : (4 * y + d) `div` 4 = y)
    by (symmetry; apply (Z.div_unique _ _ _ d); lia).
  assert (H4 : (156 * x + 4 * y + d) `mod` 4 = d)
    by (symmetry; apply (Z.mod_unique _ _ (39 * x + y)); lia).
  by rewrite H1, H2, H3, H4.
Qed.

Lemma decode_label_hot tr :
  in_label tr → decode_label (hot (label_index tr)) = Some tr.
Proof.
  intros Htr. unfold decode_label.
  rewrite argmax_hot by (by apply label_index_range). simpl.
  by rewrite decode_index_label.
Qed.

Lemma rot_label_in tr : in_label tr → in_label (rot_label tr).
Proof.
  destruct tr as [[x y] d].
  unfold in_label, in_frame, rot_label, rotate_once, dsize, size. simpl.
  intros [[Hx Hy] Hd].
  pose proof (Z.mod_pos_bound (d - 1) 4 ltac:(lia)). lia.
Qed.

Lemma ref_label_in tr : in_label tr → in_label (ref_label tr).
Proof.
  destruct tr as [[x y] d]. unfold in_label, in_frame, ref_label. simpl. lia.
Qed.

Lemma y_loop_step i tr data :
  in_label tr →
  y_loop (S i) tr.1.1 tr.1.2 tr.2 data =
  y_loop i (rot_label tr).1.1 (rot_label tr).1.2 (rot_label tr).2
    (data ++ [hot (label_index tr)]).
Proof.
  intros Htr. destruct tr as [[x y] d]. cbn [fst snd].
  change (y_loop (S i) x y d data) with
    (v ← onehot (dsize * dsize * 4) (label_index (x, y, d));
     let '(x', y', direction') := rotate_once x y d in
     y_loop i x' y' direction' (data ++ [v])).
  rewrite onehot_in by (by apply label_index_range). done.
Qed.

Lemma y_loop_0 x y d data : y_loop 0 x y d data = Ok (x, y, d, data).
Proof. done. Qed.

Lemma y_rotations_orbit x y d :
  in_label (x, y, d) →
  y_rotations x y d [] =
  Ok ((λ tr, hot (label_index tr)) <$> orbit (x, y, d)).
Proof.
  intros H0. unfold y_rotations.
  pose proof (rot_label_in _ H0) as H1.
  pose proof (rot_label_in _ H1) as H2.
  pose proof (rot_label_in _ H2) as H3.
  pose proof (rot_label_in _ H3) as H4.
  pose proof (ref_label_in _ H4) as H5.
  pose proof (rot_label_in _ H5) as H6.
  pose proof (rot_label_in _ H6) as H7.
  pose proof (rot_label_in _ H7) as H8.
  set (t4 := ref_label (rot_label (rot_label (rot_label (rot_label (x, y, d)))))).
  rewrite (y_loop_step 3 (x, y, d)) by done.
  rewrite (y_loop_step 2) by done.
  rewrite (y_loop_step 1) by done.
  rewrite (y_loop_step 0) by done.
  rewrite y_loop_0. cbn [mbind result_bind].
  match goal with
  | |- context [y_loop 4 _ _ _ ?data] =>
    change (y_loop 4 _ _ _ data) with (y_loop 4 t4.1.1 t4.1.2 t4.2 data)
  end.
  rewrite (y_loop_step 3 t4) by done.
  rewrite (y_loop_step 2) by done.
  rewrite (y_loop_step 1) by done.
  rewrite (y_loop_step 0) by done.
  rewrite y_loop_0. cbn [mbind result_bind snd]. reflexivity.
Qed.

(** What being the image gives for one push. *)
Lemma image_push t t' pm dm x y d :
  image_of t t' pm dm → in_frame x y → 0 ≤ d < 4 →
  let x' := (pm (x, y)).1 in
  let y' := (pm (x, y)).2 in
  let d' := dm d in
  in_label (x', y', d') ∧
  get t' x' y' (d' + 6) = get t x y (d + 6) ∧
  (∀ l, plain_layer l → get t' x' y' l = get t x y l) ∧
  (in_frame (step_to (x, y) d).1 (step_to (x, y) d).2 →
   in_frame (step_to (x', y') d').1 (step_to (x', y') d').2 ∧
   ∀ l, plain_layer l →
     get t' (step_to (x', y') d').1 (step_to (x', y') d').2 l
     = get t (step_to (x, y) d).1 (step_to (x, y) d).2 l) ∧
  (∀ l, plain_layer l →
     get t' (size - 1) (size - 1) l = get t (size - 1) (size - 1) l) ∧
  (x' - (size - 1)) ^ 2 + (y' - (size - 1)) ^ 2
  = (x - (size - 1)) ^ 2 + (y - (size - 1)) ^ 2.
Proof.
  intros [Hs Hf Hd Hc Hp Hst Hce Hdi] Hxy Hd' x' y' d'.
  split; [split; [by apply Hf|by apply Hd]|].
  split; [by apply Hc|]. split; [intros; by apply Hp|].
  split; [|split; [|by apply Hdi]].
  - intros Hb. subst x' y' d'.
    replace ((pm (x, y)).1, (pm (x, y)).2) with (pm (x, y))
      by (by destruct (pm (x, y))).
    rewrite <- Hst by done.
    destruct (step_to (x, y) d) as [bx by_] eqn:Eb. cbn [fst snd] in *.
    split; [by apply Hf|]. intros l Hl. by apply Hp.
  - intros l Hl.
    assert (Hcf : in_frame (size - 1) (size - 1))
      by (unfold in_frame, dsize, size; lia).
    pose proof (Hp (size - 1) (size - 1) l Hcf Hl) as Hpc.
    by rewrite Hce in Hpc.
Qed.

Lemma x_rotations_states t :
  x_rotations t [] =
  let r4 := rotate_state (rotate_state (rotate_state (rotate_state t))) in
  let f := reflect_state r4 in
  [t; rotate_state t; rotate_state (rotate_state t);
   rotate_state (rotate_state (rotate_state t));
   f; rotate_state f; rotate_state (rotate_state f);
   rotate_state (rotate_state (rotate_state f))].
Proof. reflexivity. Qed.

(** C2: for each of the eight states that [x_rotations] emits for a centered
    tensor and the label that [y_rotations] emits at the same position for a
    move (x, y, direction), the label decodes to a push (x', y', d') of the
    frame such that, in the transformed state, the cost in layer d'+6 at
    (x', y') is the cost of the original push (so it is legal exactly when
    the original is), every other layer of the target cell and of the cell
    the push goes into equals that of the original cells, the character's
    cell at the centre is kept, and the target is as far from the centre as
    before. *)
Theorem rotations_consistent t x y direction k :
  shape (Z.to_nat (2 * size - 1)) (Z.to_nat (2 * size - 1))
        (Z.to_nat num_layers) t →
  0 ≤ x < 2 * size - 1 → 0 ≤ y < 2 * size - 1 → 0 ≤ direction < 4 →
  (k < 8)%nat →
  ∃ t' labels v x' y' d',
    x_rotations t [] !! k = Some t' ∧
    y_rotations x y direction [] = Ok labels ∧
    labels !! k = Some v ∧
    decode_label v = Some (x', y', d') ∧
    (0 ≤ x' < 2 * size - 1 ∧ 0 ≤ y' < 2 * size - 1 ∧ 0 ≤ d' < 4) ∧
    get t' x' y' (d' + 6) = get t x y (direction + 6) ∧
    (∀ l, 0 ≤ l < 6 ∨ 10 ≤ l < 12 → get t' x' y' l = get t x y l) ∧
    (let b := step_to (x, y) direction in
     let b' := step_to (x', y') d' in
     0 ≤ b.1 < 2 * size - 1 ∧ 0 ≤ b.2 < 2 * size - 1 →
     (0 ≤ b'.1 < 2 * size - 1 ∧ 0 ≤ b'.2 < 2 * size - 1) ∧
     ∀ l, 0 ≤ l < 6 ∨ 10 ≤ l < 12 → get t' b'.1 b'.2 l = get t b.1 b.2 l) ∧
    (∀ l, 0 ≤ l < 6 ∨ 10 ≤ l < 12 →
       get t' (size - 1) (size - 1) l = get t (size - 1) (size - 1) l) ∧
    (x' - (size - 1)) ^ 2 + (y' - (size - 1)) ^ 2
    = (x - (size - 1)) ^ 2 + (y - (size - 1)) ^ 2.
Proof.
  intros Hs Hx Hy Hd Hk.
  assert (Hxy : in_frame x y) by done.
  assert (H0 : in_label (x, y, direction)) by done.
  assert (Hpair : ∃ t' pm dm,
    x_rotations t [] !! k = Some t' ∧
    orbit (x, y, direction) !! k
      = Some ((pm (x, y)).1, (pm (x, y)).2, dm direction) ∧
    image_of t t' pm dm).
  { rewrite x_rotations_states. cbn zeta.
    pose proof (image_id t Hs) as I0.
    pose proof (image_rotate _ _ _ _ I0) as I1.
    pose proof (image_rotate _ _ _ _ I1) as I2.
    pose proof (image_rotate _ _ _ _ I2) as I3.
    pose proof (image_reflect _ _ _ _ (image_rotate _ _ _ _ I3)) as I4.
    pose proof (image_rotate _ _ _ _ I4) as I5.
    pose proof (image_rotate _ _ _ _ I5) as I6.
    pose proof (image_rotate _ _ _ _ I6) as I7.
    destruct k as [|[|[|[|[|[|[|[|k]]]]]]]]; [..|lia];
      eexists _, _, _; (split; [reflexivity|]); (split; [|eassumption]);
      reflexivity. }
  destruct Hpair as (t' & pm & dm & Ht' & Htr & Himg).
  destruct (image_push t t' pm dm x y direction Himg Hxy Hd)
    as (Hin & Hcost & Hplain & Hbeyond & Hcentre & Hdist).
  exists t', ((λ tr, hot (label_index tr)) <$> orbit (x, y, direction)),
    (hot (label_index ((pm (x, y)).1, (pm (x, y)).2, dm direction))),
    (pm (x, y)).1, (pm (x, y)).2, (dm direction).
  split; [done|]. split; [by apply y_rotations_orbit|].
  split; [by rewrite list_lookup_fmap, Htr|].
  split; [by apply decode_label_hot|].
  split; [destruct Hin as [[? ?] ?]; done|].
  split; [done|]. split; [done|]. split; [|split; [done|done]].
  intros b b' Hb. apply Hbeyond. done.
Qed.

(** ** Centering *)

Lemma lookup_total_imap {A B} `{Inhabited A, Inhabited B}
    (f : nat → A → B) (l : list A) i :
  (i < length l)%nat → imap f l !!! i = f i (l !!! i).
Proof.
  intros Hi. rewrite !list_lookup_total_alt, list_lookup_imap.
  by rewrite (list_lookup_lookup_total_lt l i Hi).
Qed.

Lemma cell_centered a cx cy i j :
  (i < Z.to_nat dsize)%nat → (j < Z.to_nat dsize)%nat →
  cell (centered a cx cy) i j =
  if (size - 1 - cx <=? Z.of_nat i) && (Z.of_nat i <? size - 1 - cx + size)
     && (size - 1 - cy <=? Z.of_nat j) && (Z.of_nat j <? size - 1 - cy + size)
  then cell a (Z.to_nat (Z.of_nat i - (size - 1 - cx)))
              (Z.to_nat (Z.of_nat j - (size - 1 - cy)))
  else pad_cell.
Proof.
  intros Hi Hj. unfold cell, centered, assign_block. cbn zeta.
  fold dsize.
  set (zeros := replicate (Z.to_nat dsize)
                  (replicate (Z.to_nat dsize) (replicate (Z.to_nat num_layers) 0))).
  assert (Hz : shape (Z.to_nat dsize) (Z.to_nat dsize) (Z.to_nat num_layers) zeros).
  { unfold zeros. split; [by rewrite length_replicate|].
    apply Forall_replicate. split; [by rewrite length_replicate|].
    apply Forall_replicate. by rewrite length_replicate. }
  pose proof (shape_map_cells _ _ _ (Z.to_nat num_layers)
                (λ cell, <[0%nat := 1]> cell) zeros
                ltac:(intros; by rewrite length_insert) Hz) as Hs.
  destruct (shape_row _ _ _ _ i Hs Hi) as [Hrow _].
  rewrite lookup_total_imap by (destruct Hs as [-> _]; done).
  rewrite lookup_total_imap by (by rewrite Hrow).
  destruct (_ && _); [done|].
  change ((map_cells (λ cell, <[0%nat := 1]> cell) zeros !!! i) !!! j)
    with (cell (map_cells (λ cell, <[0%nat := 1]> cell) zeros) i j).
  unfold cell. rewrite (cell_map_cells _ _ _ _ _ _ _ Hz) by done.
  unfold zeros. rewrite !lookup_total_replicate_2 by done. done.
Qed.

Lemma shape_centered a cx cy :
  shape (Z.to_nat size) (Z.to_nat size) (Z.to_nat num_layers) a →
  0 ≤ cx < size → 0 ≤ cy < size →
  shape (Z.to_nat dsize) (Z.to_nat dsize) (Z.to_nat num_layers)
        (centered a cx cy).
Proof.
  intros Ha Hx Hy.
  assert (Hlen : length (centered a cx cy) = Z.to_nat dsize).
  { unfold centered, assign_block, map_cells. cbn zeta.
    by rewrite length_imap, length_fmap, length_replicate. }
  assert (Hrow : ∀ i, (i < Z.to_nat dsize)%nat →
            length (centered a cx cy !!! i) = Z.to_nat dsize).
  { intros i Hi. unfold centered, assign_block, map_cells. cbn zeta.
    fold dsize.
    rewrite lookup_total_imap
      by (by rewrite length_fmap, length_replicate).
    rewrite length_imap.
    rewrite (list_lookup_total_fmap _ (replicate _ _) i)
      by (by rewrite length_replicate).
    rewrite length_fmap, lookup_total_replicate_2 by done.
    by rewrite length_replicate. }
  apply shape_intro; [done|done|].
  intros i j Hi Hj. rewrite cell_centered by done.
  destruct (_ && _) eqn:E; [|done].
  rewrite !andb_true_iff, !Z.leb_le, !Z.ltb_lt in E.
  apply (shape_cell _ _ _ _ _ _ Ha); lia.
Qed.

Lemma wf_board20_ready : wf board20_ready.
Proof. split; [|done]. split; [done|]. repeat constructor. Qed.

Lemma rotations_consistent_witness :
  ∃ t' labels v x' y' d',
    x_rotations (centered (arr board20_ready) 1 1) [] !! 5%nat = Some t' ∧
    y_rotations 19 20 1 [] = Ok labels ∧
    labels !! 5%nat = Some v ∧
    decode_label v = Some (x', y', d') ∧
    get t' x' y' (d' + 6) = get (centered (arr board20_ready) 1 1) 19 20 (1 + 6).
Proof.
  destruct (rotations_consistent (centered (arr board20_ready) 1 1) 19 20 1 5)
    as (t' & labels & v & x' & y' & d' & H1 & H2 & H3 & H4 & _ & H5 & _).
  - apply shape_centered; [apply wf_board20_ready|unfold size; lia..].
  - unfold size; lia.
  - unfold size; lia.
  - lia.
  - lia.
  - exists t', labels, v, x', y', d'. done.
Defined.

(** * Further properties of the pass *)

Ltac case_ifs :=
  repeat (match goal with
          | |- context [if ?b then _ else _] => destruct b eqn:?
          end).

Ltac case_eqs :=
  repeat (match goal with
          | |- context [?u =? ?v] =>
            destruct (Z.eqb_spec u v); cbn [andb]; try lia; subst
          end).

Section layers.
Variable n : Z.

Ltac unchanged :=
split; [done|]; split; by left.

Ltac set_layers :=
repeat (rewrite (get_set_in n) by (auto using shape_set; lia)).

(** One call: layers 10 and 11, and where a cost can appear. *)
Lemma append_square_layers a new p m k x y m' :
shape (Z.to_nat n) (Z.to_nat n) (Z.to_nat num_layers) a →
0 ≤ m < 4 → 0 < k → in_bounds n x y = true → 0 ≤ m' < 4 →
let a' := (append_square n a new p (vec_of m) m k).1 in
get a' x y 11 = get a x y 11 ∧
(get a' x y 10 = get a x y 10 ∨
 open_exit n a (x, y) = true ∨
 get a' x y 10 = Z.max (get a x y 10) (- k)) ∧
(get a' x y (m' + 6) = get a x y (m' + 6) ∨
 (m' = m ∧
  (open_exit n a (x, y) = true ∨ pushable n a (x, y) m = true))).
Proof.
intros Hs Hm Hk Hb Hm' a'. subst a'.
unfold open_exit, pushable, step_to, append_square. cbn [fst snd].
generalize dependent (p.1 + (vec_of m).1).
generalize dependent (p.2 + (vec_of m).2). intros qy qx.
destruct (in_bounds n qx qy) eqn:Hin; cbn [negb fst snd]; [|unchanged].
destruct (is_empty a qx qy) eqn:He, (is_win a qx qy) eqn:Hw;
  cbn [andb negb].
- (* an exit with nothing on it *)
  destruct (sum_costs a qx qy =? 0); cbn [negb fst snd]; [|unchanged].
  set_layers.
  destruct (Z.eqb_spec x qx) as [->|]; [|cbn [andb]; unchanged].
  destruct (Z.eqb_spec y qy) as [->|]; [|cbn [andb]; unchanged].
  rewrite Hb, He, Hw. cbn [andb].
  split; [by case_eqs|]. split; [by auto|].
  destruct (Z.eqb_spec (m' + 6) 10); [lia|].
  destruct (Z.eqb_spec (m' + 6) (m + 6)); [right; split; [lia|by left]|].
  by left.
- (* empty space *)
  destruct (get a qx qy 5 =? 1); cbn [fst snd]; [unchanged|].
  set_layers.
  split; [by case_eqs|]. split; [left; by case_eqs|].
  left. by case_eqs.
- (* a box on an exit *)
  destruct (in_bounds n (qx + (vec_of m).1) (qy + (vec_of m).2)) eqn:Hbb;
    cbn [negb fst snd]; [|unchanged].
  destruct (is_movable a qx qy) eqn:Hmv; cbn [andb]; [|unchanged].
  destruct (is_empty a (qx + (vec_of m).1) (qy + (vec_of m).2)) eqn:Heb;
    cbn [fst snd]; [|unchanged].
  assert (Hw' : is_win (set a qx qy (m + 6) (- k)) qx qy = true).
  { unfold is_win in *. set_layers. rewrite !Z.eqb_refl.
    destruct (Z.eqb_spec 3 (m + 6)); [lia|]. exact Hw. }
  rewrite Hw'. cbn [fst snd]. set_layers.
  destruct (Z.eqb_spec x qx) as [->|]; [|cbn [andb]; unchanged].
  destruct (Z.eqb_spec y qy) as [->|]; [|cbn [andb]; unchanged].
  cbn [andb].
  split; [by case_eqs|]. split.
  { right. right. rewrite !Z.eqb_refl.
    destruct (Z.eqb_spec 10 (m + 6)); [lia|]. done. }
  destruct (Z.eqb_spec (m' + 6) 10); [lia|].
  destruct (Z.eqb_spec (m' + 6) (m + 6)); [|by left].
  right. split; [lia|]. right. by rewrite Hb, He, Hmv, Hbb, Heb.
- (* a box off the exits, or nothing to do *)
  destruct (in_bounds n (qx + (vec_of m).1) (qy + (vec_of m).2)) eqn:Hbb;
    cbn [negb fst snd]; [|unchanged].
  destruct (is_movable a qx qy) eqn:Hmv; cbn [andb]; [|unchanged].
  destruct (is_empty a (qx + (vec_of m).1) (qy + (vec_of m).2)) eqn:Heb;
    cbn [fst snd]; [|unchanged].
  assert (Hw' : is_win (set a qx qy (m + 6) (- k)) qx qy = false).
  { unfold is_win in *. set_layers. rewrite !Z.eqb_refl.
    destruct (Z.eqb_spec 3 (m + 6)); [lia|]. exact Hw. }
  rewrite Hw'. cbn [fst snd]. set_layers.
  destruct (Z.eqb_spec x qx) as [->|]; [|cbn [andb]; unchanged].
  destruct (Z.eqb_spec y qy) as [->|]; [|cbn [andb]; unchanged].
  cbn [andb].
  split; [by case_eqs|]. split; [left; by case_eqs|].
  destruct (Z.eqb_spec (m' + 6) (m + 6)); [|by left].
  right. split; [lia|]. right. by rewrite Hb, He, Hmv, Hbb, Heb.
Qed.
End layers.

Lemma pushable_terrain n a a' q m :
  same_terrain n a a' → pushable n a' q m = pushable n a q m.
Proof.
  intros Ht. unfold pushable, is_movable, is_empty.
  destruct (in_bounds n q.1 q.2) eqn:Hb; [|done].
  rewrite !(Ht q.1 q.2) by (done || lia).
  destruct (in_bounds n (step_to q m).1 (step_to q m).2) eqn:Hbb;
    [|by rewrite !andb_false_r].
  by rewrite !(Ht (step_to q m).1 (step_to q m).2) by (done || lia).
Qed.

Lemma layers_inv_call n a0 a new p m k :
  layers_inv n a0 a → 0 ≤ m < 4 → 0 < k →
  layers_inv n a0 (append_square n a new p (vec_of m) m k).1.
Proof.
  intros (Hs & Ht & H5 & H11 & H10 & Hc) Hm Hk.
  split; [by apply append_square_shape|].
  split.
  { intros x y l Hb Hl. rewrite append_square_terrain by done. by apply Ht. }
  split.
  { intros x y Hb. rewrite append_square_flag by done.
    destruct (_ && _); [by right|by apply H5]. }
  split.
  { intros x y Hb.
    destruct (append_square_layers n a new p m k x y 0 Hs Hm Hk Hb)
      as (Heq & _); [lia|]. rewrite Heq. by apply H11. }
  split.
  { intros x y Hb Hne.
    destruct (append_square_layers n a new p m k x y 0 Hs Hm Hk Hb)
      as (_ & [Heq|[He|Heq]] & _); [lia|rewrite Heq; by apply H10| |].
    - rewrite (open_exit_terrain n a0 a) in He by done. congruence.
    - rewrite Heq, H10 by done. lia. }
  intros x y m' Hb Hm' Hne.
  destruct (append_square_layers n a new p m k x y m' Hs Hm Hk Hb Hm')
    as (_ & _ & [Heq|(-> & [He|Hp])]).
  - rewrite Heq in Hne. by apply Hc.
  - left. rewrite (open_exit_terrain n a0 a) in He by done. done.
  - right. rewrite (pushable_terrain n a0 a) in Hp by done. done.
Qed.

Lemma layers_inv_explore n a0 a k squares :
  layers_inv n a0 a → 0 < k → layers_inv n a0 (explore n k a squares).1.
Proof.
  intros Hinv Hk. rewrite explore_edges.
  assert (Hdir : ∀ e, e ∈ edges squares → 0 ≤ e.2 < 4) by apply edges_dir.
  induction (edges squares) as [|e es IH] using rev_ind; [done|].
  rewrite foldl_snoc. unfold edge_step at 1.
  apply layers_inv_call; [|apply Hdir|done].
  - apply IH. intros e' He'. apply Hdir. rewrite elem_of_app. auto.
  - rewrite elem_of_app, list_elem_of_singleton. auto.
Qed.

Lemma layers_inv_while n a0 fuel :
  ∀ a squares k a', 0 ≤ k → layers_inv n a0 a →
    while_squares fuel n a squares k = Some a' → layers_inv n a0 a'.
Proof.
  induction fuel as [|fuel IH]; intros a squares k a' Hk Hinv Hrun;
    destruct squares as [|s squares]; simpl in Hrun; try congruence.
  eapply (IH _ _ (k + 1)); [lia| |exact Hrun].
  apply layers_inv_explore; [done|lia].
Qed.

(** The array the loop starts from: the terrain, the flag of the
    character's cell, and zeros. *)
Lemma get_start_arr self x y l :
  wf self → in_bounds (self_size self) x y = true → 0 ≤ l < 12 →
  get (start_arr self) x y l =
  if (x =? (char_loc self).1) && (y =? (char_loc self).2) && (l =? 5) then 1
  else if l <? 5 then get (arr self) x y l else 0.
Proof.
  intros [Hs Hc] Hb Hl. unfold start_arr.
  rewrite (get_set_in (self_size self))
    by (done || lia || by apply shape_clear_layers).
  destruct (_ && _); [done|].
  apply (get_clear_layers _ _ _ _ _ _ Hs). by apply in_bounds_inside.
Qed.

Lemma layers_inv_start self :
  wf self → layers_inv (self_size self) (arr self) (start_arr self).
Proof.
  intros Hwf.
  pose proof (pass_inv_start self Hwf) as Hinv.
  pose proof (pi_shape _ _ _ _ _ _ Hinv) as Hs.
  pose proof (pi_terrain _ _ _ _ _ _ Hinv) as Ht.
  assert (Hzero : ∀ x y l, in_bounds (self_size self) x y = true →
            6 ≤ l < 12 → get (start_arr self) x y l = 0).
  { intros x y l Hb Hl. rewrite get_start_arr by (done || lia).
    destruct (Z.eqb_spec l 5); [lia|]. rewrite andb_false_r.
    destruct (Z.ltb_spec l 5); [lia|done]. }
  split; [done|]. split; [done|].
  split.
  { intros x y Hb. rewrite get_start_arr by (done || lia).
    destruct (_ && _); [by right|by left]. }
  split; [intros; apply Hzero; (done || lia)|].
  split; [intros; apply Hzero; (done || lia)|].
  intros x y m Hb Hm Hne. rewrite Hzero in Hne by (done || lia). done.
Qed.

(** *** Every push that can be made is recorded *)

Lemma append_square_push n a new p m k :
  shape (Z.to_nat n) (Z.to_nat n) (Z.to_nat num_layers) a → 0 ≤ m < 4 →
  pushable n a (step_to p m) m = true →
  get (append_square n a new p (vec_of m) m k).1
      (step_to p m).1 (step_to p m).2 (m + 6) = - k.
Proof.
  intros Hs Hm. unfold pushable, step_to, append_square. cbn [fst snd].
  generalize dependent (p.1 + (vec_of m).1).
  generalize dependent (p.2 + (vec_of m).2). intros qy qx Hp.
  rewrite !andb_true_iff, negb_true_iff in Hp.
  destruct Hp as ((((Hb & He) & Hmv) & Hbb) & Heb).
  rewrite Hb, He, Hmv, Hbb, Heb. cbn [negb andb]. rewrite andb_false_r.
  destruct (is_win _ qx qy); cbn [fst snd];
    repeat (rewrite (get_set_in n) by (auto using shape_set; lia));
    rewrite !Z.eqb_refl; cbn [andb];
    destruct (Z.eqb_spec (m + 6) 10); (done || lia).
Qed.

Lemma push_inv_weaken n a0 (P Q : Z * Z → Prop) a :
  push_inv n a0 P a → (∀ p, Q p → P p) → push_inv n a0 Q a.
Proof.
  intros (Hs & Ht & Hp) HQ. split; [done|]. split; [done|].
  intros p m Hq. apply Hp. by apply HQ.
Qed.

Lemma push_inv_explore n a0 P a k squares :
  push_inv n a0 P a → 0 < k →
  push_inv n a0 (λ p, P p ∨ p ∈ squares) (explore n k a squares).1.
Proof.
  intros Hinv Hk. rewrite explore_edges.
  assert (Hgen : ∀ es, (∀ e, e ∈ es → 0 ≤ e.2 < 4) →
    let a' := (foldl (edge_step n k) (a, []) es).1 in
    shape (Z.to_nat n) (Z.to_nat n) (Z.to_nat num_layers) a' ∧
    same_terrain n a0 a' ∧
    ∀ p m, P p ∨ (p, m) ∈ es → 0 ≤ m < 4 →
      pushable n a0 (step_to p m) m = true →
      get a' (step_to p m).1 (step_to p m).2 (m + 6) ≠ 0).
  { induction es as [|[p0 m0] es IH] using rev_ind; intros Hdir.
    - destruct Hinv as (Hs & Ht & Hp). simpl. split; [done|]. split; [done|].
      intros p m [HP|Hin]; [by apply Hp|]. by apply elem_of_nil in Hin.
    - destruct IH as (Hs & Ht & Hp).
      { intros e He. apply Hdir. rewrite elem_of_app. auto. }
      assert (Hm0 : 0 ≤ m0 < 4).
      { apply (Hdir (p0, m0)). rewrite elem_of_app, list_elem_of_singleton.
        auto. }
      cbn zeta. rewrite foldl_snoc.
      generalize dependent (foldl (edge_step n k) (a, []) es).
      intros [a1 new1]. unfold edge_step. cbn [fst snd]. intros Hs Ht Hp.
      split; [by apply append_square_shape|].
      split.
      { intros x y l Hb Hl. rewrite append_square_terrain by done.
        by apply Ht. }
      intros p m Hcase Hm Hpush.
      assert (Hb : in_bounds n (step_to p m).1 (step_to p m).2 = true).
      { unfold pushable in Hpush. rewrite !andb_true_iff in Hpush. tauto. }
      assert (Hold : P p ∨ (p, m) ∈ es ∨ (p, m) = (p0, m0)).
      { destruct Hcase as [?|Hin]; [auto|].
        rewrite elem_of_app, list_elem_of_singleton in Hin. tauto. }
      destruct Hold as [HP|[Hin|Heq]].
      + destruct (append_square_cost n a1 new1 p0 m0 k _ _ m Hs Hm0 Hb Hm)
          as [->|(_ & _ & _ & ->)]; [|lia].
        apply Hp; auto.
      + destruct (append_square_cost n a1 new1 p0 m0 k _ _ m Hs Hm0 Hb Hm)
          as [->|(_ & _ & _ & ->)]; [|lia].
        apply Hp; auto.
      + injection Heq as -> ->.
        rewrite append_square_push; [lia|done|done|].
        by rewrite (pushable_terrain n a0 a1). }
  destruct (Hgen (edges squares) (edges_dir squares)) as (Hs & Ht & Hp).
  split; [done|]. split; [done|].
  intros p m [HP|Hin] Hm Hpush; apply Hp; auto.
  right. apply elem_of_edges. split; [done|lia].
Qed.

Lemma push_inv_while n a0 fuel :
  ∀ P a squares k a', 0 ≤ k → push_inv n a0 P a →
    while_squares fuel n a squares k = Some a' →
    push_inv n a0 (λ p, P p ∨ ∃ F, F ∈ frontiers fuel n a squares k ∧ p ∈ F) a'.
Proof.
  induction fuel as [|fuel IH]; intros P a squares k a' Hk Hinv Hrun;
    destruct squares as [|s squares]; simpl in Hrun; try congruence.
  - injection Hrun as <-. apply (push_inv_weaken _ _ P); [done|].
    intros p [?|(F & HF & _)]; [done|]. by apply elem_of_nil in HF.
  - injection Hrun as <-. apply (push_inv_weaken _ _ P); [done|].
    intros p [?|(F & HF & _)]; [done|]. by apply elem_of_nil in HF.
  - pose proof (push_inv_explore n a0 P a (k + 1) (s :: squares) Hinv
                  ltac:(lia)) as Hstep.
    pose proof (IH _ _ _ (k + 1) a' ltac:(lia) Hstep Hrun) as Hfin.
    eapply push_inv_weaken; [exact Hfin|].
    intros p [?|(F & HF & Hp)]; [auto|].
    cbn [frontiers] in HF. apply elem_of_cons in HF as [->|HF]; [auto|].
    right. eauto.
Qed.

Lemma step_to_inj p p' m : step_to p m = step_to p' m → p = p'.
Proof.
  destruct p, p'. unfold step_to. cbn [fst snd]. intros [= H1 H2].
  f_equal; lia.
Qed.

Lemma frontiers_bound self :
  wf self →
  (length (pass_frontiers self)
   ≤ Z.to_nat (self_size self * self_size self))%nat.
Proof.
  intros Hwf. destruct (assign_pushes_run self Hwf) as (a' & _ & Hinv & _).
  pose proof (pass_inv_cells _ _ _ _ _ _ Hinv) as Hlen.
  rewrite join_snoc_nil in Hlen.
  assert (Hn : 0 ≤ self_size self).
  { destruct Hwf as [_ Hc]. unfold in_bounds in Hc. bools. lia. }
  rewrite <- Z2Nat.inj_mul in Hlen by lia.
  etrans; [|exact Hlen]. apply length_le_join, frontiers_nonempty.
Qed.

(** Everything the proofs below use about the array a pass ends with. *)
Lemma pass_result self self' :
  wf self → assign_pushes self = Some self' →
  ∃ af,
    self' = with_arr self (add_visits af) ∧
    pass_inv (self_size self) (arr self) (char_loc self)
      (pass_frontiers self) [] af ∧
    layers_inv (self_size self) (arr self) af ∧
    push_inv (self_size self) (arr self)
      (λ p, ∃ F, F ∈ pass_frontiers self ∧ p ∈ F) af ∧
    (∀ x y l, in_bounds (self_size self) x y = true → 0 ≤ l < 11 →
       get (arr self') x y l = get af x y l) ∧
    (∀ x y, in_bounds (self_size self) x y = true →
       get (arr self') x y 11 = get af x y 5).
Proof.
  intros Hwf Hrun.
  destruct (assign_pushes_run self Hwf) as (af & Hloop & Hinv & Hres).
  rewrite Hres in Hrun. injection Hrun as <-.
  pose proof (layers_inv_start self Hwf) as Hl0.
  pose proof (layers_inv_while _ _ _ _ _ 0 _ ltac:(lia) Hl0 Hloop) as Hl.
  assert (Hp0 : push_inv (self_size self) (arr self) (λ _, False)
                  (start_arr self)).
  { destruct Hl0 as (Hs & Ht & _). split; [done|]. split; [done|]. tauto. }
  pose proof (push_inv_while _ _ _ _ _ _ 0 _ ltac:(lia) Hp0 Hloop) as Hp.
  exists af. split; [done|]. split; [done|]. split; [done|].
  split.
  { eapply push_inv_weaken; [exact Hp|]. intros p H. right. exact H. }
  destruct Hl as (Hs & _ & _ & H11 & _).
  split.
  - intros x y l Hb Hl. simpl.
    rewrite (get_add_visits _ _ _ _ _ _ Hs)
      by (apply in_bounds_inside; (done || lia)).
    destruct (Z.eqb_spec l 11); [lia|done].
  - intros x y Hb. simpl.
    rewrite (get_add_visits _ _ _ _ _ _ Hs)
      by (apply in_bounds_inside; (done || lia)).
    simpl. rewrite H11 by done. lia.
Qed.

(** Arrays of the shape of a board that agree at every index are equal. *)
Lemma get_ext n a b :
  shape (Z.to_nat n) (Z.to_nat n) (Z.to_nat num_layers) a →
  shape (Z.to_nat n) (Z.to_nat n) (Z.to_nat num_layers) b →
  (∀ x y l, in_bounds n x y = true → 0 ≤ l < 12 →
     get a x y l = get b x y l) →
  a = b.
Proof.
  intros Ha Hb Hget. apply (shape_ext _ _ _ _ _ Ha Hb). intros i j Hi Hj.
  pose proof (shape_cell _ _ _ _ i j Ha Hi Hj) as Hla.
  pose proof (shape_cell _ _ _ _ i j Hb Hi Hj) as Hlb.
  apply (list_eq_same_length _ _ (Z.to_nat num_layers)); [done|done|].
  intros l u v Hl Hu Hv.
  specialize (Hget (Z.of_nat i) (Z.of_nat j) (Z.of_nat l)).
  unfold get in Hget. rewrite !Nat2Z.id in Hget.
  fold (cell a i j) (cell b i j) in Hget.
  rewrite (list_lookup_total_correct _ _ _ Hu) in Hget.
  rewrite (list_lookup_total_correct _ _ _ Hv) in Hget.
  apply Hget; [|unfold num_layers in Hl; lia].
  apply in_bounds_true. lia.
Qed.

Lemma start_arr_terrain s1 s2 :
  wf s1 → wf s2 → self_size s1 = self_size s2 → char_loc s1 = char_loc s2 →
  same_terrain (self_size s1) (arr s1) (arr s2) →
  start_arr s1 = start_arr s2.
Proof.
  intros Hwf1 Hwf2 Hn Hc Ht.
  destruct (layers_inv_start s1 Hwf1) as (Hs1 & _).
  destruct (layers_inv_start s2 Hwf2) as (Hs2 & _).
  rewrite <- Hn in Hs2.
  apply (get_ext (self_size s1)); [done|done|].
  intros x y l Hb Hl.
  rewrite !get_start_arr by (done || by rewrite <- Hn).
  rewrite Hc. destruct (_ && _); [done|].
  destruct (Z.ltb_spec l 5); [|done]. symmetry. apply Ht; (done || lia).
Qed.

(** *** The layers after a pass *)

(** X1: after a pass, layer 11 (described as the number of times a square
    was empty and accessible) equals the reachable flag of layer 5, which is
    0 or 1: the layer is cleared with the others at the start of every pass,
    so nothing is ever accumulated in it. *)
Theorem assign_pushes_visit_layer self self' x y :
  wf self → assign_pushes self = Some self' →
  in_bounds (self_size self) x y = true →
  get (arr self') x y 11 = get (arr self') x y 5 ∧
  (get (arr self') x y 5 = 0 ∨ get (arr self') x y 5 = 1).
Proof.
  intros Hwf Hrun Hb.
  destruct (pass_result self self' Hwf Hrun)
    as (af & _ & _ & (_ & _ & H5 & _) & _ & Hlow & H11).
  rewrite H11, Hlow by (done || lia). split; [done|]. by apply H5.
Qed.

Lemma assign_pushes_visit_layer_witness :
  get (arr board3_ready) 1 1 11 = get (arr board3_ready) 1 1 5 ∧
  (get (arr board3_ready) 1 1 5 = 0 ∨ get (arr board3_ready) 1 1 5 = 1).
Proof.
  apply (assign_pushes_visit_layer board3 board3_ready 1 1 wf_board3).
  - vm_compute; reflexivity.
  - reflexivity.
Defined.

(** X2: after a pass every entry of the cost layers 6 to 10 lies between
    minus the number of cells of the board and 0. *)
Theorem assign_pushes_cost_range self self' x y l :
  wf self → assign_pushes self = Some self' →
  in_bounds (self_size self) x y = true → 6 ≤ l < 11 →
  - (self_size self * self_size self) ≤ get (arr self') x y l ≤ 0.
Proof.
  intros Hwf Hrun Hb Hl.
  destruct (pass_result self self' Hwf Hrun)
    as (af & _ & Hinv & (_ & _ & _ & _ & H10 & _) & _ & Hlow & _).
  rewrite Hlow by (done || lia).
  pose proof (frontiers_bound self Hwf) as Hlen.
  set (n := self_size self) in *.
  assert (Hnn : 0 ≤ n * n) by nia.
  assert (Hentry : ∀ m, 0 ≤ m < 4 → - (n * n) ≤ get af x y (m + 6) ≤ 0).
  { intros m Hm.
    destruct (decide (get af x y (m + 6) = 0)) as [->|Hne]; [lia|].
    destruct (pi_cost _ _ _ _ _ _ Hinv x y m Hb Hm Hne)
      as (_ & i & F & p & Hi & _ & _ & ->).
    apply lookup_lt_Some in Hi. lia. }
  destruct (decide (l = 10)) as [->|Hl10].
  - destruct (open_exit n (arr self) (x, y)) eqn:He;
      [|rewrite H10 by done; lia].
    destruct (pi_exit _ _ _ _ _ _ Hinv x y He) as [-> Hone].
    unfold sum_costs.
    assert (Hpair : ∀ m m', 0 ≤ m < 4 → 0 ≤ m' < 4 → m ≠ m' →
              get af x y (m + 6) = 0 ∨ get af x y (m' + 6) = 0).
    { intros m m' Hm Hm' Hmm.
      destruct (decide (get af x y (m + 6) = 0)); [by left|].
      destruct (decide (get af x y (m' + 6) = 0)); [by right|].
      exfalso. apply Hmm. by apply Hone. }
    pose proof (Hentry 0 ltac:(lia)). pose proof (Hentry 1 ltac:(lia)).
    pose proof (Hentry 2 ltac:(lia)). pose proof (Hentry 3 ltac:(lia)).
    pose proof (Hpair 0 1 ltac:(lia) ltac:(lia) ltac:(lia)).
    pose proof (Hpair 0 2 ltac:(lia) ltac:(lia) ltac:(lia)).
    pose proof (Hpair 0 3 ltac:(lia) ltac:(lia) ltac:(lia)).
    pose proof (Hpair 1 2 ltac:(lia) ltac:(lia) ltac:(lia)).
    pose proof (Hpair 1 3 ltac:(lia) ltac:(lia) ltac:(lia)).
    pose proof (Hpair 2 3 ltac:(lia) ltac:(lia) ltac:(lia)).
    change (0 + 6) with 6 in *. change (1 + 6) with 7 in *.
    change (2 + 6) with 8 in *. change (3 + 6) with 9 in *. lia.
  - replace l with (l - 6 + 6) by lia. apply Hentry. lia.
Qed.

Lemma assign_pushes_cost_range_witness :
  - (5 * 5) ≤ get (arr board5_ready) 1 2 9 ≤ 0.
Proof.
  apply (assign_pushes_cost_range board5_ready board5_ready 1 2 9
           wf_board5_ready).
  - vm_compute; reflexivity.
  - reflexivity.
  - lia.
Defined.

(** X3: the pushes a pass records are exactly the pushes that can be made.
    For a cell [q] of the board that is not an exit with nothing on it, the
    cost entry of direction [m] is set if and only if [q] holds a box that
    is not on empty space, the cell behind it is an empty cell of the board,
    and the cell the push is made from (the one before [q] in direction [m])
    can be walked to from the character. *)
Theorem assign_pushes_push_iff self self' p m :
  wf self → assign_pushes self = Some self' → 0 ≤ m < 4 →
  let n := self_size self in
  let q := step_to p m in
  in_bounds n q.1 q.2 = true → open_exit n (arr self) q = false →
  (get (arr self') q.1 q.2 (m + 6) ≠ 0 ↔
   pushable n (arr self) q m = true ∧
   ∃ i, walk n (arr self) (char_loc self) p i).
Proof.
  intros Hwf Hrun Hm n q Hb He.
  destruct (pass_result self self' Hwf Hrun)
    as (af & _ & Hinv & (_ & _ & _ & _ & _ & Horigin) & (_ & _ & Hpush)
        & Hlow & _).
  fold n in Hlow, Horigin, Hpush, Hinv.
  rewrite Hlow by (done || lia). split.
  - intros Hne. split.
    + destruct (Horigin q.1 q.2 m Hb Hm Hne) as [Hex|Hp].
      * rewrite <- surjective_pairing in Hex. congruence.
      * by rewrite <- surjective_pairing in Hp.
    + destruct (pi_cost _ _ _ _ _ _ Hinv q.1 q.2 m Hb Hm Hne)
        as (_ & i & F & p' & Hi & Hp' & Hst & _).
      rewrite <- surjective_pairing in Hst. apply step_to_inj in Hst as ->.
      exists i. eapply (pi_sound _ _ _ _ _ _ Hinv); [|exact Hp'].
      by apply lookup_app_l_Some.
  - intros [Hp (i & Hwalk)].
    destruct (finished_complete _ _ _ _ _ Hinv p i Hwalk)
      as (i' & F & Hi' & HpF & _).
    apply Hpush; [|done|done].
    exists F. split; [|done]. by eapply list_elem_of_lookup_2.
Qed.

Lemma assign_pushes_push_iff_witness :
  get (arr board5_ready) 2 2 (1 + 6) ≠ 0 ↔
  pushable 5 (arr board5_ready) (2, 2) 1 = true ∧
  ∃ i, walk 5 (arr board5_ready) (2, 0) (2, 1) i.
Proof.
  apply (assign_pushes_push_iff board5_ready board5_ready (2, 1) 1
           wf_board5_ready).
  - vm_compute; reflexivity.
  - lia.
  - reflexivity.
  - reflexivity.
Defined.

(** X4: layer 10 after a pass.  It is set exactly at the exits with nothing
    on them that can be entered, that is, that have a neighbour cell which
    can be walked to from the character; at every other cell of the board,
    a box on an exit included, it is 0. *)
Theorem assign_pushes_exit_layer self self' x y :
  wf self → assign_pushes self = Some self' →
  let n := self_size self in
  in_bounds n x y = true →
  (get (arr self') x y 10 ≠ 0 ↔
   open_exit n (arr self) (x, y) = true ∧
   ∃ j, reaches n (arr self) (char_loc self) (x, y) j).
Proof.
  intros Hwf Hrun n Hb.
  destruct (pass_result self self' Hwf Hrun)
    as (af & _ & Hinv & (_ & _ & _ & _ & H10 & _) & _ & Hlow & _).
  fold n in Hlow, H10, Hinv.
  rewrite Hlow by (done || lia). split.
  - intros Hne.
    destruct (open_exit n (arr self) (x, y)) eqn:He;
      [|by rewrite H10 in Hne].
    split; [done|].
    destruct (pi_exit _ _ _ _ _ _ Hinv x y He) as [Hsum _].
    rewrite Hsum in Hne.
    assert (Hsome : ∃ m, 0 ≤ m < 4 ∧ get af x y (m + 6) ≠ 0).
    { destruct (decide (get af x y 6 = 0)) as [E6|]; [|exists 0; split; [lia|done]].
      destruct (decide (get af x y 7 = 0)) as [E7|]; [|exists 1; split; [lia|done]].
      destruct (decide (get af x y 8 = 0)) as [E8|]; [|exists 2; split; [lia|done]].
      destruct (decide (get af x y 9 = 0)) as [E9|]; [|exists 3; split; [lia|done]].
      unfold sum_costs in Hne. lia. }
    destruct Hsome as (m & Hm & Hnz).
    destruct (pi_cost _ _ _ _ _ _ Hinv x y m Hb Hm Hnz)
      as (_ & i & F & p & Hi & Hp & Hst & _).
    exists (S i), p, m, i. split; [|done].
    eapply (pi_sound _ _ _ _ _ _ Hinv); [|exact Hp].
    by apply lookup_app_l_Some.
  - intros [He (j & p & m & i & Hwalk & Hm & Hst & _)].
    destruct (finished_complete _ _ _ _ _ Hinv p i Hwalk)
      as (i' & F & Hi' & HpF & _).
    destruct (pi_exit _ _ _ _ _ _ Hinv x y He) as [-> _].
    by eapply (pi_mark _ _ _ _ _ _ Hinv x y i' F p m).
Qed.

Lemma assign_pushes_exit_layer_witness :
  get (arr board3_ready) 1 2 10 ≠ 0 ↔
  open_exit 3 (arr board3) (1, 2) = true ∧
  ∃ j, reaches 3 (arr board3) (1, 1) (1, 2) j.
Proof.
  apply (assign_pushes_exit_layer board3 board3_ready 1 2 wf_board3).
  - vm_compute; reflexivity.
  - reflexivity.
Defined.

(** X5: a pass reads nothing but the terrain.  Two positions of the same
    size with the character at the same place whose arrays agree on layers
    0 to 4 get the same array from a pass, whatever their layers 5 to 11
    held. *)
Theorem assign_pushes_terrain_only s1 s2 r1 r2 :
  wf s1 → wf s2 → self_size s1 = self_size s2 → char_loc s1 = char_loc s2 →
  same_terrain (self_size s1) (arr s1) (arr s2) →
  assign_pushes s1 = Some r1 → assign_pushes s2 = Some r2 →
  arr r1 = arr r2.
Proof.
  intros Hwf1 Hwf2 Hn Hc Ht Hr1 Hr2.
  pose proof (start_arr_terrain s1 s2 Hwf1 Hwf2 Hn Hc Ht) as Hstart.
  unfold assign_pushes, pass_fuel in Hr1, Hr2.
  rewrite <- Hn, <- Hc, <- Hstart in Hr2.
  destruct (while_squares _ _ _ _ _) as [af|]; [|done].
  simpl in Hr1, Hr2. injection Hr1 as <-. injection Hr2 as <-. done.
Qed.

Lemma assign_pushes_terrain_only_witness :
  arr board3_ready = arr board3_ready.
Proof.
  apply (assign_pushes_terrain_only board3 board3_ready
           board3_ready board3_ready wf_board3 wf_board3_ready).
  - reflexivity.
  - reflexivity.
  - intros x y l Hb Hl. apply in_bounds_true in Hb.
    assert (Hx : x = 0 ∨ x = 1 ∨ x = 2) by (simpl in Hb; lia).
    assert (Hy : y = 0 ∨ y = 1 ∨ y = 2) by (simpl in Hb; lia).
    assert (Hl' : l = 0 ∨ l = 1 ∨ l = 2 ∨ l = 3 ∨ l = 4) by lia.
    destruct Hx as [->|[->| ->]], Hy as [->|[->| ->]],
      Hl' as [->|[->|[->|[->| ->]]]]; reflexivity.
  - vm_compute; reflexivity.
  - vm_compute; reflexivity.
Defined.

(** X6: a pass is idempotent: running it on its own result changes
    nothing. *)
Theorem assign_pushes_idempotent self self' :
  wf self → assign_pushes self = Some self' →
  assign_pushes self' = Some self'.
Proof.
  intros Hwf Hrun.
  destruct (assign_pushes_keeps self self' Hwf Hrun)
    as (Hwf' & Hn & Hc & _ & _ & _ & Ht).
  pose proof (start_arr_terrain self self' Hwf Hwf' (eq_sym Hn) (eq_sym Hc) Ht)
    as Hstart.
  unfold assign_pushes, pass_fuel in *.
  rewrite Hn, Hc, <- Hstart.
  destruct (while_squares _ _ _ _ _) as [af|]; [|done].
  simpl in *. injection Hrun as <-. done.
Qed.

Lemma assign_pushes_idempotent_witness :
  assign_pushes board3_ready = Some board3_ready.
Proof.
  apply (assign_pushes_idempotent board3 board3_ready wf_board3).
  vm_compute; reflexivity.
Defined.

(** X7: what a pass never touches: the size, the character location, the
    move record, the exit location, the penalty and the terrain layers 0 to
    4 are those of the position it started from, and the class invariant is
    kept. *)
Theorem assign_pushes_frame self self' :
  wf self → assign_pushes self = Some self' →
  wf self' ∧
  self_size self' = self_size self ∧ char_loc self' = char_loc self ∧
  moves self' = moves self ∧ exit_loc self' = exit_loc self ∧
  moves_penalty self' = moves_penalty self ∧
  ∀ x y l, in_bounds (self_size self) x y = true → 0 ≤ l < 5 →
    get (arr self') x y l = get (arr self) x y l.
Proof. apply assign_pushes_keeps. Qed.

Lemma assign_pushes_frame_witness :
  wf board3_ready ∧ char_loc board3_ready = char_loc board3.
Proof.
  destruct (assign_pushes_frame board3 board3_ready wf_board3)
    as (Hwf & _ & Hc & _).
  - vm_compute; reflexivity.
  - split; [exact Hwf|exact Hc].
Defined.

(** * Further properties of the moves *)

Lemma shape_dims n a :
  shape (Z.to_nat n) (Z.to_nat n) (Z.to_nat num_layers) a → 0 < n →
  dim0 a = n ∧ dim1 a = n ∧ dim2 a = num_layers.
Proof.
  intros Hs Hn.
  assert (Hwf : wf (mkPos n a [] (0, 0) None 0)).
  { split; [done|]. apply in_bounds_true. simpl. lia. }
  destruct (wf_dims _ Hwf) as (H0 & H1 & H2 & _). done.
Qed.

Lemma set_checked_in n a x y l v :
  shape (Z.to_nat n) (Z.to_nat n) (Z.to_nat num_layers) a →
  in_bounds n x y = true → 0 ≤ l < num_layers →
  set_checked a x y l v = Ok (set a x y l v).
Proof.
  intros Hs Hb Hl. apply in_bounds_true in Hb.
  destruct (shape_dims n a Hs ltac:(lia)) as (H0 & H1 & H2).
  unfold set_checked. rewrite H0, H1, H2.
  rewrite !np_index_in by lia. done.
Qed.

(** A position is ready whatever its move record, exit location and
    penalty are. *)
Lemma ready_fields self self1 :
  ready self → self_size self1 = self_size self → arr self1 = arr self →
  char_loc self1 = char_loc self → ready self1.
Proof.
  destruct self, self1. unfold ready, wf, assign_pushes, pass_fuel, start_arr,
    with_arr. simpl. intros [Hwf Hrun] -> -> ->. split; [done|].
  destruct (while_squares _ _ _ _ _) as [af|]; [|done].
  cbn in Hrun |- *. injection Hrun as Ha. by rewrite Ha.
Qed.

Lemma assign_pushes_ready self self' :
  wf self → assign_pushes self = Some self' → ready self'.
Proof.
  intros Hwf Hrun.
  destruct (assign_pushes_keeps self self' Hwf Hrun)
    as (Hwf' & Hn & Hc & _ & _ & _ & Ht).
  split; [done|].
  pose proof (start_arr_terrain self self' Hwf Hwf' (eq_sym Hn) (eq_sym Hc) Ht)
    as Hstart.
  unfold assign_pushes, pass_fuel in *.
  rewrite Hn, Hc, <- Hstart.
  destruct (while_squares _ _ _ _ _) as [af|]; [|done].
  simpl in *. injection Hrun as <-. done.
Qed.

(** At an exit with its single entry, layer 10 repeats that entry. *)
Lemma exit_entry a x y m :
  exit_ok a x y → 0 ≤ m < 4 → get a x y (m + 6) ≠ 0 →
  get a x y 10 = get a x y (m + 6).
Proof.
  intros [H10 Hone] Hm Hne. rewrite H10. unfold sum_costs.
  assert (Hz : ∀ m', 0 ≤ m' < 4 → m' ≠ m → get a x y (m' + 6) = 0).
  { intros m' Hm' Hmm.
    destruct (decide (get a x y (m' + 6) = 0)) as [|Hnz]; [done|].
    exfalso. apply Hmm. by apply Hone. }
  pose proof (Hz 0 ltac:(lia)) as H6. pose proof (Hz 1 ltac:(lia)) as H7.
  pose proof (Hz 2 ltac:(lia)) as H8. pose proof (Hz 3 ltac:(lia)) as H9.
  change (0 + 6) with 6 in *. change (1 + 6) with 7 in *.
  change (2 + 6) with 8 in *. change (3 + 6) with 9 in *.
  destruct (four_dirs m Hm) as [->|[->|[->| ->]]];
    [change (0 + 6) with 6|change (1 + 6) with 7|change (2 + 6) with 8
    |change (3 + 6) with 9]; lia.
Qed.

(** On a ready position a cost entry stands at an exit with nothing on it
    (and layer 10 repeats it) or at a pushable box, and its magnitude is one
    more than the length of a shortest walk to the cell before it. *)
Lemma ready_entry self x y d :
  ready self → in_bounds (self_size self) x y = true → 0 ≤ d < 4 →
  get (arr self) x y (d + 6) ≠ 0 →
  (open_exit (self_size self) (arr self) (x, y) = true ∧
   get (arr self) x y 10 = get (arr self) x y (d + 6)
   ∨ pushable (self_size self) (arr self) (x, y) d = true) ∧
  ∃ p i, step_to p d = (x, y) ∧
         shortest (self_size self) (arr self) (char_loc self) p i ∧
         get (arr self) x y (d + 6) = - Z.of_nat (S i).
Proof.
  intros [Hwf Hrun] Hb Hd.
  destruct (pass_result self self Hwf Hrun)
    as (af & _ & Hinv & (_ & _ & _ & _ & _ & Horigin) & _ & Hlow & _).
  rewrite !Hlow by (done || lia). intros Hne. split.
  - destruct (Horigin x y d Hb Hd Hne) as [He|Hp]; [left|by right].
    split; [done|].
    apply exit_entry; [|done|done]. by apply (pi_exit _ _ _ _ _ _ Hinv).
  - destruct (pi_cost _ _ _ _ _ _ Hinv x y d Hb Hd Hne)
      as (_ & i & F & p & Hi & Hp & Hst & Heq).
    exists p, i. split; [done|]. split; [|done].
    by eapply finished_shortest.
Qed.

(** *** Pushes *)

Lemma step_to_ne q d : 0 ≤ d < 4 → step_to q d ≠ q.
Proof.
  intros Hd. destruct q as [x y]. unfold step_to. cbn [fst snd].
  destruct (four_dirs d Hd) as [->|[->|[->| ->]]]; cbn; intros [=]; lia.
Qed.

Lemma wf_pushed self x y d :
  wf self → in_bounds (self_size self) x y = true → wf (pushed self x y d).
Proof.
  intros [Hs Hc] Hb. split; [|done].
  unfold pushed. cbn [arr self_size]. by do 6 apply shape_set.
Qed.

Lemma wf_stepped self x y :
  wf self → in_bounds (self_size self) x y = true → wf (stepped self x y).
Proof.
  intros [Hs Hc] Hb. split; [|done].
  unfold stepped. cbn [arr self_size]. by do 2 apply shape_set.
Qed.

(** The push branch of [make_move]: no index is out of range, and the
    result is the pass run on [pushed]. *)
Lemma push_branch_run self x y d :
  wf self → 0 ≤ d < 4 → in_bounds (self_size self) x y = true →
  get (arr self) x y (d + 6) ≠ 0 → is_win (arr self) x y = false →
  in_bounds (self_size self) (step_to (x, y) d).1 (step_to (x, y) d).2 = true →
  ∃ self', make_move self x y d = Ok (PUSH, self') ∧
           assign_pushes (pushed self x y d) = Some self'.
Proof.
  intros Hwf Hd Hb Hne Hw Hbb.
  destruct (run_pass_ok (pushed self x y d) (wf_pushed self x y d Hwf Hb))
    as (self2 & Hrp & Hrun).
  exists self2. split; [|done].
  unfold make_move. rewrite Hb. cbn [negb].
  rewrite get_checked_in by (done || (unfold num_layers; lia)).
  cbn [mbind result_bind].
  apply Z.eqb_neq in Hne. rewrite Hne.
  unfold with_moves, with_moves_penalty, with_arr, with_char_loc.
  cbn [arr moves char_loc self_size exit_loc moves_penalty].
  rewrite Hw. cbn [andb]. rewrite vecs_index_in by done.
  cbn [mbind result_bind].
  unfold step_to in Hbb. cbn [fst snd] in Hbb.
  destruct Hwf as [Hs Hc].
  rewrite (set_checked_in (self_size self))
    by (done || (unfold num_layers; lia) || by do 4 apply shape_set).
  cbn [mbind result_bind].
  rewrite (set_checked_in (self_size self))
    by (done || (unfold num_layers; lia) || by do 5 apply shape_set).
  cbn [mbind result_bind].
  unfold pushed, step_to in Hrp. cbn [fst snd] in Hrp.
  rewrite Hrp. done.
Qed.

Lemma get_pushed self x y d u v l :
  wf self → in_bounds (self_size self) x y = true →
  in_bounds (self_size self) (step_to (x, y) d).1 (step_to (x, y) d).2 = true →
  in_bounds (self_size self) u v = true → 0 ≤ l < 12 →
  get (arr (pushed self x y d)) u v l =
  if (u =? (step_to (x, y) d).1) && (v =? (step_to (x, y) d).2) && (l =? 1)
  then 1
  else if (u =? (step_to (x, y) d).1) && (v =? (step_to (x, y) d).2) && (l =? 4)
  then 0
  else if (u =? x) && (v =? y) && (l =? 4) then 1
  else if (u =? x) && (v =? y) && (l =? 2) then 1
  else if (u =? x) && (v =? y) && (l =? 1) then 0
  else if (u =? (char_loc self).1) && (v =? (char_loc self).2) && (l =? 2)
  then 0
  else get (arr self) u v l.
Proof.
  intros [Hs Hc] Hb Hbb Huv Hl. unfold pushed. cbn [arr].
  repeat (rewrite (get_set_in (self_size self))
            by (done || lia || auto 10 using shape_set)).
  done.
Qed.

(** X8: a push of a box that is not on an exit, on a ready position.  The
    call returns PUSH and no index is out of range; the move is recorded and
    the stored cost (a negative number) is added to the penalty; the
    character stands on the cell the box left, which is empty space now; the
    box is on the cell behind, which is no longer empty; no other terrain
    entry changes; and the layers of the result are those of a fresh
    pass. *)
Theorem make_move_push self x y direction :
  ready self → 0 ≤ direction < 4 →
  in_bounds (self_size self) x y = true →
  get (arr self) x y (direction + 6) ≠ 0 →
  is_win (arr self) x y = false →
  let n := self_size self in
  let b := step_to (x, y) direction in
  ∃ self',
    make_move self x y direction = Ok (PUSH, self') ∧
    ready self' ∧
    self_size self' = n ∧ exit_loc self' = exit_loc self ∧
    char_loc self' = (x, y) ∧
    moves self' = moves self ++ [(x, y, direction)] ∧
    moves_penalty self'
      = moves_penalty self + get (arr self) x y (direction + 6) ∧
    in_bounds n b.1 b.2 = true ∧
    get (arr self') x y 1 = 0 ∧ get (arr self') x y 2 = 1 ∧
    get (arr self') x y 4 = 1 ∧
    get (arr self') b.1 b.2 1 = 1 ∧ get (arr self') b.1 b.2 4 = 0 ∧
    (char_loc self ≠ (x, y) →
     get (arr self') (char_loc self).1 (char_loc self).2 2 = 0) ∧
    ∀ u v l, in_bounds n u v = true → 0 ≤ l < 5 →
      (u, v) ≠ (x, y) → (u, v) ≠ b → ((u, v) = char_loc self → l ≠ 2) →
      get (arr self') u v l = get (arr self) u v l.
Proof.
  intros Hready Hd Hb Hne Hw n b.
  pose proof Hready as [Hwf _].
  assert (Hbb : in_bounds n b.1 b.2 = true).
  { destruct (ready_entry self x y direction Hready Hb Hd Hne)
      as [[[He _]|Hp] _].
    - unfold open_exit in He. cbn [fst snd] in He.
      rewrite Hw, andb_false_r in He. done.
    - unfold pushable in Hp. rewrite !andb_true_iff in Hp.
      destruct Hp as [[_ Hp] _]. exact Hp. }
  destruct (push_branch_run self x y direction Hwf Hd Hb Hne Hw Hbb)
    as (self' & Hmove & Hrun).
  pose proof (wf_pushed self x y direction Hwf Hb) as Hwfp.
  destruct (assign_pushes_keeps _ _ Hwfp Hrun)
    as (_ & Hn & Hc & Hms & Hex & Hpen & Ht).
  cbn [pushed self_size char_loc moves exit_loc moves_penalty] in Hn, Hc, Hms,
    Hex, Hpen, Ht.
  assert (Hget : ∀ u v l, in_bounds n u v = true → 0 ≤ l < 5 →
            get (arr self') u v l = get (arr (pushed self x y direction)) u v l)
    by (intros; by apply Ht).
  assert (Hxyb : (x, y) ≠ b) by (intros E; by apply (step_to_ne (x, y) direction)).
  assert (Hc0 : in_bounds n (char_loc self).1 (char_loc self).2 = true)
    by (by destruct Hwf).
  exists self'. split; [done|].
  split; [by eapply assign_pushes_ready|].
  do 5 (split; [done|]). split; [done|].
  assert (Hcase : ∀ u v : Z, (u, v) ≠ b → (u =? b.1) && (v =? b.2) = false).
  { intros u v Hne'. destruct (Z.eqb_spec u b.1), (Z.eqb_spec v b.2); try done.
    exfalso. apply Hne'. destruct b. simpl in *. congruence. }
  assert (Hcase' : ∀ u v : Z, (u, v) ≠ (x, y) → (u =? x) && (v =? y) = false).
  { intros u v Hne'. destruct (Z.eqb_spec u x), (Z.eqb_spec v y); try done.
    exfalso. apply Hne'. congruence. }
  repeat split.
  - rewrite Hget, get_pushed by (done || lia). fold b.
    rewrite (Hcase x y Hxyb), !Z.eqb_refl. done.
  - rewrite Hget, get_pushed by (done || lia). fold b.
    rewrite (Hcase x y Hxyb), !Z.eqb_refl. done.
  - rewrite Hget, get_pushed by (done || lia). fold b.
    rewrite (Hcase x y Hxyb), !Z.eqb_refl. done.
  - rewrite Hget, get_pushed by (done || lia). fold b. by rewrite !Z.eqb_refl.
  - rewrite Hget, get_pushed by (done || lia). fold b. by rewrite !Z.eqb_refl.
  - intros Hcxy. rewrite Hget, get_pushed by (done || lia). fold b.
    rewrite (Hcase' (char_loc self).1 (char_loc self).2)
      by (by rewrite <- surjective_pairing).
    change (2 =? 1) with false. change (2 =? 4) with false.
    rewrite !andb_false_r, !Z.eqb_refl. done.
  - intros u v l Huv Hl Hne1 Hne2 Hne3.
    rewrite Hget, get_pushed by (done || lia). fold b.
    rewrite (Hcase u v Hne2), (Hcase' u v Hne1). cbn [andb].
    destruct (Z.eqb_spec u (char_loc self).1), (Z.eqb_spec v (char_loc self).2),
      (Z.eqb_spec l 2); cbn [andb]; try done.
    exfalso. apply Hne3; [|done]. destruct (char_loc self). simpl in *.
    congruence.
Qed.

Lemma ready_board5 : ready board5_ready.
Proof. split; [exact wf_board5_ready|vm_compute; reflexivity]. Qed.

Lemma ready_board3 : ready board3_ready.
Proof. split; [exact wf_board3_ready|vm_compute; reflexivity]. Qed.

Lemma make_move_push_witness :
  ∃ self',
    make_move board5_ready 1 2 1 = Ok (PUSH, self') ∧
    char_loc self' = (1, 2) ∧ moves_penalty self' = -3 ∧
    get (arr self') 1 3 1 = 1.
Proof.
  destruct (make_move_push board5_ready 1 2 1 ready_board5)
    as (self' & Hmove & _ & _ & _ & Hc & _ & Hpen & _ & _ & _ & _ & Hbox & _).
  - lia.
  - reflexivity.
  - vm_compute; discriminate.
  - reflexivity.
  - exists self'. split; [exact Hmove|]. split; [exact Hc|].
    split; [exact Hpen|exact Hbox].
Defined.

(** X9: on a ready position a push request in one of the four directions
    never raises and has one of three outcomes: ILLEGAL with the position
    untouched; WIN on an exit cell, with the move recorded and array and
    character as they were; PUSH on a cell that is not an exit, with the
    move recorded and the character on that cell.  The code NORMAL is never
    returned, and the position afterwards is ready again. *)
Theorem make_move_outcomes self x y direction :
  ready self → 0 ≤ direction < 4 →
  ∃ r self',
    make_move self x y direction = Ok (r, self') ∧ ready self' ∧
    (r = ILLEGAL ∧ self' = self
     ∨ r = WIN ∧ is_win (arr self) x y = true ∧ arr self' = arr self ∧
       char_loc self' = char_loc self ∧
       moves self' = moves self ++ [(x, y, direction)]
     ∨ r = PUSH ∧ is_win (arr self) x y = false ∧ char_loc self' = (x, y) ∧
       moves self' = moves self ++ [(x, y, direction)]).
Proof.
  intros Hready Hd. pose proof Hready as [Hwf _].
  destruct (in_bounds (self_size self) x y) eqn:Hb.
  - destruct (decide (get (arr self) x y (direction + 6) = 0)) as [Hz|Hne].
    + exists ILLEGAL, self. split; [|split; [done|by left]].
      unfold make_move. rewrite Hb. cbn [negb].
      rewrite get_checked_in by (done || (unfold num_layers; lia)).
      cbn [mbind result_bind]. by rewrite Hz.
    + destruct (is_win (arr self) x y) eqn:Hw.
      * eexists WIN, _. split; [by apply make_move_win|].
        split; [by apply (ready_fields self)|]. right. left. done.
      * destruct (push_branch_run self x y direction Hwf Hd Hb Hne Hw)
          as (self' & Hmove & Hrun).
        { destruct (ready_entry self x y direction Hready Hb Hd Hne)
            as [[[He _]|Hp] _].
          - unfold open_exit in He. cbn [fst snd] in He.
            rewrite Hw, andb_false_r in He. done.
          - unfold pushable in Hp. rewrite !andb_true_iff in Hp.
            destruct Hp as [[_ Hp] _]. exact Hp. }
        pose proof (wf_pushed self x y direction Hwf Hb) as Hwfp.
        destruct (assign_pushes_keeps _ _ Hwfp Hrun)
          as (_ & _ & Hc & Hms & _).
        exists PUSH, self'. split; [done|].
        split; [by eapply assign_pushes_ready|]. right. right. done.
  - exists ILLEGAL, self. split; [|split; [done|by left]].
    unfold make_move. by rewrite Hb.
Qed.

Lemma make_move_outcomes_witness :
  ∃ r self', make_move board5_ready 0 0 2 = Ok (r, self') ∧ ready self'.
Proof.
  destruct (make_move_outcomes board5_ready 0 0 2 ready_board5)
    as (r & self' & Hmove & Hr & _).
  - lia.
  - exists r, self'. split; [exact Hmove|exact Hr].
Defined.

(** X10: the direction of a push request is checked by the array bounds
    only: on a cell of the board a direction of 6 or more (layer index 12 or
    more) or of less than -18 raises IndexError. *)
Theorem make_move_bad_direction self x y direction :
  wf self → in_bounds (self_size self) x y = true →
  6 ≤ direction ∨ direction < -18 →
  make_move self x y direction = Raise IndexError.
Proof.
  intros Hwf Hb Hd.
  assert (Hnone : np_index num_layers (direction + 6) = None).
  { unfold np_index, num_layers.
    destruct (Z.leb_spec 0 (direction + 6)), (Z.ltb_spec (direction + 6) 12),
      (Z.leb_spec (Z.opp 12) (direction + 6)), (Z.ltb_spec (direction + 6) 0);
      cbn [andb]; (done || lia). }
  assert (Hget : get_checked (arr self) x y (direction + 6) = Raise IndexError).
  { destruct (wf_dims self Hwf) as (H0 & H1 & H2 & _).
    apply in_bounds_true in Hb.
    unfold get_checked. rewrite H0, H1, H2, Hnone, !np_index_in by lia.
    done. }
  unfold make_move. rewrite Hb. cbn [negb]. by rewrite Hget.
Qed.

Lemma make_move_bad_direction_witness :
  make_move board3_ready 1 2 6 = Raise IndexError.
Proof.
  apply (make_move_bad_direction board3_ready 1 2 6 wf_board3_ready).
  - reflexivity.
  - left. lia.
Defined.

(** X11: on a board of the module's [size], a move number below 0 or from
    (2*size-1)^2*4 on decodes to a row off the board, so [make_move_number]
    returns ILLEGAL and changes nothing. *)
Theorem make_move_number_out_of_range self move :
  self_size self = size →
  in_bounds size (char_loc self).1 (char_loc self).2 = true →
  move < 0 ∨ (2 * size - 1) * (2 * size - 1) * 4 ≤ move →
  make_move_number self move = Ok (ILLEGAL, self).
Proof.
  intros Hn Hc Hmove. apply in_bounds_true in Hc.
  unfold make_move_number, decode_move_number. rewrite Hn. unfold size in *.
  change ((20 * 2 - 1) * 4) with 156.
  change ((2 * 20 - 1) * (2 * 20 - 1) * 4) with 6084 in Hmove.
  set (x := move `div` 156 + (char_loc self).1 - (20 - 1)).
  set (y := (move `mod` 156) `div` 4 + (char_loc self).2 - (20 - 1)).
  assert (Hx : x < 0 ∨ 20 ≤ x).
  { pose proof (Z.div_mod move 156 ltac:(lia)).
    pose proof (Z.mod_pos_bound move 156 ltac:(lia)).
    unfold x. lia. }
  unfold make_move. rewrite Hn.
  assert (Hb : in_bounds 20 x y = false) by (apply in_bounds_false; lia).
  unfold size. by rewrite Hb.
Qed.

Lemma make_move_number_out_of_range_witness :
  make_move_number board20_ready 6084 = Ok (ILLEGAL, board20_ready).
Proof.
  apply (make_move_number_out_of_range board20_ready 6084).
  - reflexivity.
  - reflexivity.
  - right. unfold size. lia.
Defined.

(** *** Single steps *)

(** X12: a step that leaves the board, or that runs into a wall or into a
    box that cannot be pushed that way, returns False and changes
    nothing. *)
Theorem move_in_direction_blocked self direction :
  wf self → 0 ≤ direction < 4 →
  let new := step_to (char_loc self) direction in
  in_bounds (self_size self) new.1 new.2 = false ∨
  (get (arr self) new.1 new.2 (direction + 6) = 0 ∧
   (is_unmovable (arr self) new.1 new.2 = true ∨
    is_movable (arr self) new.1 new.2 = true)) →
  move_in_direction self direction = Ok (false, self).
Proof.
  intros Hwf Hd new. subst new. unfold step_to. cbn [fst snd].
  unfold move_in_direction. rewrite vecs_index_in by done.
  cbn [mbind result_bind].
  generalize ((char_loc self).1 + (vec_of direction).1).
  generalize ((char_loc self).2 + (vec_of direction).2).
  intros ny nx Hcase.
  destruct (in_bounds (self_size self) nx ny) eqn:Hb; cbn [negb]; [|done].
  destruct Hcase as [|[Hz Hhit]]; [done|].
  rewrite get_checked_in by (done || (unfold num_layers; lia)).
  cbn [mbind result_bind]. rewrite Hz. cbn [Z.eqb].
  destruct Hhit as [->| ->]; [done|]. by rewrite orb_true_r.
Qed.

Lemma move_in_direction_blocked_witness :
  move_in_direction board5_ready 3 = Ok (false, board5_ready).
Proof.
  apply (move_in_direction_blocked board5_ready 3 wf_board5_ready).
  - lia.
  - left. reflexivity.
Defined.

Lemma get_stepped self x y u v l :
  wf self → in_bounds (self_size self) x y = true →
  in_bounds (self_size self) u v = true → 0 ≤ l < 12 →
  get (arr (stepped self x y)) u v l =
  if (u =? x) && (v =? y) && (l =? 2) then 1
  else if (u =? (char_loc self).1) && (v =? (char_loc self).2) && (l =? 2)
  then 0
  else get (arr self) u v l.
Proof.
  intros [Hs Hc] Hb Huv Hl. unfold stepped. cbn [arr].
  repeat (rewrite (get_set_in (self_size self))
            by (done || lia || auto using shape_set)).
  done.
Qed.

(** The free-step branch of [move_in_direction]: the pass is run on
    [stepped], then the penalty grows by one. *)
Lemma step_branch_run self d :
  wf self → 0 ≤ d < 4 →
  let new := step_to (char_loc self) d in
  in_bounds (self_size self) new.1 new.2 = true →
  get (arr self) new.1 new.2 (d + 6) = 0 →
  is_unmovable (arr self) new.1 new.2 = false →
  is_movable (arr self) new.1 new.2 = false →
  ∃ self2,
    assign_pushes (stepped self new.1 new.2) = Some self2 ∧
    move_in_direction self d =
    Ok (true, with_moves_penalty self2 (moves_penalty self2 + 1)).
Proof.
  intros Hwf Hd new. subst new. unfold step_to. cbn [fst snd].
  intros Hb Hz Hu Hm.
  destruct (run_pass_ok _ (wf_stepped self _ _ Hwf Hb)) as (self2 & Hrp & Hrun).
  exists self2. split; [done|].
  unfold move_in_direction. rewrite vecs_index_in by done.
  cbn [mbind result_bind]. rewrite Hb. cbn [negb].
  rewrite get_checked_in by (done || (unfold num_layers; lia)).
  cbn [mbind result_bind]. rewrite Hz, Hu, Hm. cbn [orb Z.eqb].
  unfold stepped in Hrp. unfold with_char_loc, with_arr.
  cbn [arr moves char_loc self_size exit_loc moves_penalty].
  by rewrite Hrp.
Qed.

(** X13: a step onto a cell of the board that holds neither a wall nor a
    box and has no cost entry in the direction of the step.  The call
    returns True; the character flag moves from the old cell to the new one
    and no other terrain entry changes; the move record is left as it was
    (steps are not recorded), the penalty grows by 1, and the layers are
    those of a fresh pass. *)
Theorem move_in_direction_step self direction :
  wf self → 0 ≤ direction < 4 →
  let n := self_size self in
  let new := step_to (char_loc self) direction in
  in_bounds n new.1 new.2 = true →
  get (arr self) new.1 new.2 (direction + 6) = 0 →
  is_unmovable (arr self) new.1 new.2 = false →
  is_movable (arr self) new.1 new.2 = false →
  ∃ self',
    move_in_direction self direction = Ok (true, self') ∧
    ready self' ∧
    char_loc self' = new ∧ moves self' = moves self ∧
    moves_penalty self' = moves_penalty self + 1 ∧
    get (arr self') new.1 new.2 2 = 1 ∧
    get (arr self') (char_loc self).1 (char_loc self).2 2 = 0 ∧
    ∀ u v l, in_bounds n u v = true → 0 ≤ l < 5 →
      ((u, v) = new ∨ (u, v) = char_loc self → l ≠ 2) →
      get (arr self') u v l = get (arr self) u v l.
Proof.
  intros Hwf Hd n new Hb Hz Hu Hm.
  destruct (step_branch_run self direction Hwf Hd Hb Hz Hu Hm)
    as (self2 & Hrun & Hmove).
  fold new in Hrun.
  pose proof (wf_stepped self new.1 new.2 Hwf Hb) as Hwfs.
  destruct (assign_pushes_keeps _ _ Hwfs Hrun)
    as (_ & Hn & Hc & Hms & _ & Hpen & Ht).
  cbn [stepped self_size char_loc moves moves_penalty] in Hn, Hc, Hms, Hpen, Ht.
  pose proof (assign_pushes_ready _ _ Hwfs Hrun) as Hready.
  assert (Hc0 : in_bounds n (char_loc self).1 (char_loc self).2 = true)
    by (by destruct Hwf).
  assert (Hne : new ≠ char_loc self) by (by apply step_to_ne).
  eexists. split; [exact Hmove|].
  split; [by apply (ready_fields self2)|].
  cbn [with_moves_penalty char_loc moves moves_penalty arr].
  split; [by rewrite Hc, <- surjective_pairing|].
  split; [done|]. split; [by rewrite Hpen|].
  split; [|split].
  - rewrite Ht, get_stepped by (done || lia). by rewrite !Z.eqb_refl.
  - rewrite Ht, get_stepped by (done || lia). rewrite !Z.eqb_refl.
    destruct (Z.eqb_spec (char_loc self).1 new.1),
      (Z.eqb_spec (char_loc self).2 new.2); cbn [andb]; try done.
    exfalso. apply Hne. destruct new, (char_loc self). simpl in *. congruence.
  - intros u v l Huv Hl Hnot.
    rewrite Ht, get_stepped by (done || lia).
    destruct (Z.eqb_spec u new.1), (Z.eqb_spec v new.2), (Z.eqb_spec l 2),
      (Z.eqb_spec u (char_loc self).1), (Z.eqb_spec v (char_loc self).2);
      cbn [andb]; try done; exfalso; apply Hnot; try done.
    all: first [ left; destruct new; simpl in *; congruence
               | right; destruct (char_loc self); simpl in *; congruence ].
Qed.

Lemma move_in_direction_step_witness :
  ∃ self',
    move_in_direction board3_ready 0 = Ok (true, self') ∧
    char_loc self' = (0, 1) ∧ moves_penalty self' = 1.
Proof.
  destruct (move_in_direction_step board3_ready 0 wf_board3_ready)
    as (self' & Hmove & _ & Hc & _ & Hpen & _).
  - lia.
  - reflexivity.
  - reflexivity.
  - reflexivity.
  - reflexivity.
  - exists self'. split; [exact Hmove|]. split; [exact Hc|exact Hpen].
Defined.

(** On a ready position the cost entry of the cell next to the character,
    in the direction that leads to it, is -1. *)
Lemma ready_adjacent_entry self d :
  ready self → 0 ≤ d < 4 →
  let new := step_to (char_loc self) d in
  in_bounds (self_size self) new.1 new.2 = true →
  get (arr self) new.1 new.2 (d + 6) ≠ 0 →
  get (arr self) new.1 new.2 (d + 6) = -1.
Proof.
  intros Hready Hd new Hb Hne.
  destruct (ready_entry self _ _ d Hready Hb Hd Hne)
    as (_ & p & i & Hst & [_ Hmin] & ->).
  rewrite <- surjective_pairing in Hst. apply step_to_inj in Hst as ->.
  pose proof (Hmin 0%nat (walk_start _ _ _)). lia.
Qed.

(** X14: a single step that pushes or wins, on a ready position: the call
    returns True, the move is recorded, and the penalty is left exactly as
    it was, since the step adds 1 and [make_move] then adds the stored cost
    of the adjacent cell, which is -1. *)
Theorem move_in_direction_push_penalty self direction :
  ready self → 0 ≤ direction < 4 →
  let new := step_to (char_loc self) direction in
  in_bounds (self_size self) new.1 new.2 = true →
  get (arr self) new.1 new.2 (direction + 6) ≠ 0 →
  ∃ self',
    move_in_direction self direction = Ok (true, self') ∧
    moves self' = moves self ++ [(new.1, new.2, direction)] ∧
    moves_penalty self' = moves_penalty self.
Proof.
  intros Hready Hd new Hb Hne.
  pose proof (ready_adjacent_entry self direction Hready Hd Hb Hne) as Hone.
  fold new in Hone.
  set (self1 := with_moves_penalty self (moves_penalty self + 1)).
  assert (Hready1 : ready self1) by (by apply (ready_fields self)).
  pose proof Hready1 as [Hwf1 _]. pose proof Hready as [Hwf _].
  assert (Hmove : ∀ r, make_move self1 new.1 new.2 direction = Ok r →
            move_in_direction self direction = Ok (true, r.2)).
  { intros r Hr. unfold move_in_direction. rewrite vecs_index_in by done.
    cbn [mbind result_bind].
    unfold new, step_to in Hb, Hne, Hr. cbn [fst snd] in Hb, Hne, Hr.
    rewrite Hb. cbn [negb].
    rewrite get_checked_in by (done || (unfold num_layers; lia)).
    cbn [mbind result_bind]. apply Z.eqb_neq in Hne. rewrite Hne.
    fold self1. by rewrite Hr. }
  destruct (is_win (arr self) new.1 new.2) eqn:Hw.
  - eexists. split.
    { apply Hmove. by apply make_move_win. }
    cbn [snd moves moves_penalty self1 with_moves_penalty arr].
    split; [done|].
    destruct (is_movable (arr self) new.1 new.2) eqn:Hm; [lia|].
    destruct (ready_entry self _ _ direction Hready Hb Hd Hne)
      as [[[_ H10]|Hp] _].
    + rewrite H10. lia.
    + unfold pushable in Hp. rewrite !andb_true_iff in Hp.
      destruct Hp as [[[_ Hp] _] _]. cbn [fst snd] in Hp. congruence.
  - assert (Hbb : in_bounds (self_size self) (step_to new direction).1
                    (step_to new direction).2 = true).
    { destruct (ready_entry self _ _ direction Hready Hb Hd Hne)
        as [[[He _]|Hp] _].
      - unfold open_exit in He. cbn [fst snd] in He.
        rewrite Hb, Hw in He. done.
      - unfold pushable in Hp. rewrite !andb_true_iff in Hp.
        destruct Hp as [[_ Hp] _].
        by rewrite <- surjective_pairing in Hp. }
    destruct (push_branch_run self1 new.1 new.2 direction Hwf1 Hd Hb Hne Hw)
      as (self' & Hmm & Hrun).
    { by rewrite <- surjective_pairing. }
    pose proof (wf_pushed self1 new.1 new.2 direction Hwf1 Hb) as Hwfp.
    destruct (assign_pushes_keeps _ _ Hwfp Hrun)
      as (_ & _ & _ & Hms & _ & Hpen & _).
    exists self'. split; [by apply (Hmove (PUSH, self'))|].
    split; [done|]. rewrite Hpen.
    cbn [pushed moves_penalty self1 with_moves_penalty arr]. lia.
Qed.

Lemma move_in_direction_push_penalty_witness :
  ∃ self',
    move_in_direction board3_ready 1 = Ok (true, self') ∧
    moves self' = [(1, 2, 1)] ∧ moves_penalty self' = 0.
Proof.
  destruct (move_in_direction_push_penalty board3_ready 1 ready_board3)
    as (self' & Hmove & Hms & Hpen).
  - lia.
  - reflexivity.
  - vm_compute; discriminate.
  - exists self'. split; [exact Hmove|]. split; [exact Hms|exact Hpen].
Defined.

(** * Construction and replay *)

Lemma locate_Some a n layer c :
  locate a n layer = Some c →
  in_bounds n c.1 c.2 = true ∧ get a c.1 c.2 layer = 1.
Proof.
  unfold locate. intros Hlast. apply last_Some_elem_of in Hlast.
  apply list_elem_of_filter in Hlast as [Hp Hin].
  split; [|done]. apply elem_of_coords. by rewrite <- surjective_pairing.
Qed.

Lemma locate_None a n layer :
  locate a n layer = None →
  ∀ x y, in_bounds n x y = true → get a x y layer ≠ 1.
Proof.
  unfold locate. intros Hlast x y Hb Hp. apply last_None in Hlast.
  apply (filter_nil_not_elem_of _ _ (x, y) Hlast); [done|].
  by apply elem_of_coords.
Qed.

Lemma locate_is_Some a n layer x y :
  in_bounds n x y = true → get a x y layer = 1 →
  is_Some (locate a n layer).
Proof.
  intros Hb Hp. destruct (locate a n layer) eqn:E; [done|].
  by destruct (locate_None a n layer E x y Hb).
Qed.

Lemma init_fields a p :
  init a = inr p →
  self_size p = dim1 a ∧ moves p = [] ∧ moves_penalty p = 0 ∧
  locate a (dim1 a) 2 = Some (char_loc p) ∧
  exit_loc p = locate a (dim1 a) 3 ∧
  assign_pushes
    (mkPos (dim1 a) (clear_layers a) [] (char_loc p) (locate a (dim1 a) 3) 0)
  = Some p.
Proof.
  unfold init. destruct (locate a (dim1 a) 2) as [c|]; [|done].
  destruct (assign_pushes _) as [p'|] eqn:Hrun; [|done].
  intros [= ->]. pose proof Hrun as Hrun'. unfold assign_pushes in Hrun.
  destruct (while_squares _ _ _ _ _) as [af|]; [|done].
  cbn in Hrun. injection Hrun as <-. done.
Qed.

(** X15: what [__init__] builds from an array of shape (n, n, 12) that has
    a character on it.  The construction succeeds; the position is ready
    (its layers are those of a pass), of size n, with an empty move record
    and penalty 0; the character location is a cell of the board that holds
    the character flag; and the terrain layers 0 to 4 are those of the
    input. *)
Theorem init_ready a n :
  shape (Z.to_nat n) (Z.to_nat n) (Z.to_nat num_layers) a →
  (∃ x y, in_bounds n x y = true ∧ get a x y 2 = 1) →
  ∃ p,
    init a = inr p ∧ ready p ∧
    self_size p = n ∧ moves p = [] ∧ moves_penalty p = 0 ∧
    in_bounds n (char_loc p).1 (char_loc p).2 = true ∧
    get a (char_loc p).1 (char_loc p).2 2 = 1 ∧
    ∀ x y l, in_bounds n x y = true → 0 ≤ l < 5 →
      get (arr p) x y l = get a x y l.
Proof.
  intros Hs (x & y & Hb & Hchar).
  assert (Hn : 0 < n) by (apply in_bounds_true in Hb; lia).
  destruct (shape_dims n a Hs Hn) as (_ & H1 & _).
  destruct (locate_is_Some a n 2 x y Hb Hchar) as [c Hc].
  destruct (locate_Some a n 2 c Hc) as [Hcb Hcc].
  set (self := mkPos n (clear_layers a) [] c (locate a n 3) 0).
  assert (Hwf : wf self).
  { split; [|done]. by apply shape_clear_layers. }
  destruct (run_pass_ok self Hwf) as (p & _ & Hrun).
  assert (Hinit : init a = inr p).
  { unfold init. rewrite H1, Hc. fold self. by rewrite Hrun. }
  destruct (assign_pushes_keeps self p Hwf Hrun)
    as (_ & Hsize & Hloc & Hms & _ & Hpen & Ht).
  cbn [self self_size char_loc moves moves_penalty arr] in Hsize, Hloc, Hms,
    Hpen, Ht.
  exists p. split; [done|]. split; [by eapply assign_pushes_ready|].
  do 3 (split; [done|]). rewrite Hloc. split; [done|]. split; [done|].
  intros u v l Huv Hl. rewrite Ht by done.
  rewrite (get_clear_layers _ _ _ _ _ _ Hs)
    by (apply in_bounds_inside; (done || lia)).
  destruct (Z.ltb_spec l 5); [done|lia].
Qed.

Lemma init_ready_witness :
  ∃ p, init (arr board3) = inr p ∧ ready p ∧ char_loc p = (1, 1).
Proof.
  destruct (init_ready (arr board3) 3) as (p & Hinit & Hr & _).
  - apply wf_board3.
  - exists 1, 1. split; reflexivity.
  - exists p. split; [exact Hinit|]. split; [exact Hr|].
    assert (E : init (arr board3) = inr board3_ready)
      by (vm_compute; reflexivity).
    rewrite E in Hinit. injection Hinit as <-. reflexivity.
Defined.

(** X16: an array of shape (n, n, 12) without a character flag cannot be
    made into a position: [__init__] never assigns [char_loc], and the
    first pass fails on the missing attribute. *)
Theorem init_no_character a n :
  0 ≤ n →
  shape (Z.to_nat n) (Z.to_nat n) (Z.to_nat num_layers) a →
  (∀ x y, in_bounds n x y = true → get a x y 2 ≠ 1) →
  init a = inl NoCharacter.
Proof.
  intros Hn Hs Hnone.
  assert (H1 : dim1 a = n).
  { destruct (decide (n = 0)) as [->|Hn0].
    - destruct Hs as [Hlen _]. by destruct a.
    - by destruct (shape_dims n a Hs ltac:(lia)) as (_ & ? & _). }
  unfold init. rewrite H1.
  destruct (locate a n 2) as [c|] eqn:Hc; [|done].
  destruct (locate_Some a n 2 c Hc) as [Hb Hone].
  by destruct (Hnone _ _ Hb).
Qed.

Lemma init_no_character_witness :
  init [[cE; cW]; [cM; cU]] = inl NoCharacter.
Proof.
  apply (init_no_character [[cE; cW]; [cM; cU]] 2).
  - lia.
  - split; [done|]. repeat constructor.
  - intros x y Hb. apply in_bounds_true in Hb.
    assert (Hx : x = 0 ∨ x = 1) by lia. assert (Hy : y = 0 ∨ y = 1) by lia.
    destruct Hx as [->| ->], Hy as [->| ->]; vm_compute; discriminate.
Defined.

(** *** Replaying a move record *)

Lemma run_pass_moves self self' :
  run_pass self = Ok self' → moves self' = moves self.
Proof.
  unfold run_pass, assign_pushes.
  destruct (while_squares _ _ _ _ _) as [af|]; [|done].
  cbn. by intros [= <-].
Qed.

(** A call of [make_move] either is illegal and changes nothing, or
    appends its request to the move record. *)
Lemma make_move_record p x y d r p' :
  make_move p x y d = Ok (r, p') →
  (r = ILLEGAL ∧ p' = p) ∨ (r ≠ ILLEGAL ∧ moves p' = moves p ++ [(x, y, d)]).
Proof.
  unfold make_move.
  destruct (in_bounds (self_size p) x y); cbn [negb];
    [|intros [= <- <-]; by left].
  destruct (get_checked (arr p) x y (d + 6)) as [c|]; cbn [mbind result_bind];
    [|done].
  destruct (c =? 0); [intros [= <- <-]; by left|].
  destruct (is_win _ x y && negb _); [intros [= <- <-]; by right|].
  destruct (is_win _ x y); [intros [= <- <-]; by right|].
  destruct (vecs_index d) as [vec|]; cbn [mbind result_bind]; [|done].
  destruct (set_checked _ _ _ 4 0) as [a1|]; cbn [mbind result_bind]; [|done].
  destruct (set_checked a1 _ _ 1 1) as [a2|]; cbn [mbind result_bind]; [|done].
  destruct (run_pass _) as [self2|] eqn:Hrp; cbn [mbind result_bind]; [|done].
  intros [= <- <-]. right. split; [done|].
  by rewrite (run_pass_moves _ _ Hrp).
Qed.

Lemma play_snoc p ms mv :
  play p (ms ++ [mv]) =
  (p1 ← play p ms; r ← make_move p1 mv.1.1 mv.1.2 mv.2; Ok r.2).
Proof. unfold play. by rewrite foldl_snoc. Qed.

Lemma play_replay p0 ms p :
  play p0 ms = Ok p →
  ∃ ms', ms' `sublist_of` ms ∧ moves p = moves p0 ++ ms' ∧
         play p0 ms' = Ok p.
Proof.
  revert p. induction ms as [|mv ms IH] using rev_ind; intros p Hplay.
  - injection Hplay as <-. exists []. by rewrite app_nil_r.
  - rewrite play_snoc in Hplay.
    destruct (play p0 ms) as [p1|]; cbn [mbind result_bind] in Hplay; [|done].
    destruct (make_move p1 _ _ _) as [[r p2]|] eqn:Hmove;
      cbn [mbind result_bind] in Hplay; [|done].
    injection Hplay as <-. cbn [snd].
    destruct (IH p1 eq_refl) as (ms1 & Hsub & Hms & Hre).
    destruct (make_move_record _ _ _ _ _ _ Hmove) as [[_ ->]|[_ Hrec]].
    + exists ms1. split; [by apply sublist_inserts_r|done].
    + exists (ms1 ++ [mv]). split; [by apply sublist_app|].
      split.
      * rewrite Hrec, Hms, <- app_assoc. by destruct mv as [[? ?] ?].
      * rewrite play_snoc, Hre. cbn [mbind result_bind]. by rewrite Hmove.
Qed.

(** X17: replaying the record.  If [get_position] builds a position from an
    array and a list of requests, the move record of that position consists
    of the requests that were not illegal, in order, and [get_position] on
    the same array and that record gives the same position again, penalty
    included. *)
Theorem get_position_replay a ms p :
  get_position a ms = inr (Ok p) →
  moves p `sublist_of` ms ∧
  get_position a (moves p) = inr (Ok p).
Proof.
  unfold get_position. destruct (init a) as [e|p0] eqn:Hinit; [done|].
  intros [= Hplay].
  destruct (init_fields a p0 Hinit) as (_ & Hnil & _).
  destruct (play_replay p0 ms p Hplay) as (ms' & Hsub & Hms & Hre).
  rewrite Hnil in Hms. simpl in Hms. subst ms'. by rewrite Hre.
Qed.

Lemma get_position_replay_witness :
  let p := mkPos 3 (arr board3_ready) [(1, 2, 1)] (1, 1) (Some (1, 2)) (-1) in
  get_position (arr board3) [(1, 2, 0); (1, 2, 1)] = inr (Ok p) ∧
  get_position (arr board3) [(1, 2, 1)] = inr (Ok p).
Proof.
  intros p.
  assert (E : get_position (arr board3) [(1, 2, 0); (1, 2, 1)] = inr (Ok p))
    by (vm_compute; reflexivity).
  split; [exact E|].
  exact (proj2 (get_position_replay (arr board3) [(1, 2, 0); (1, 2, 1)] p E)).
Defined.

(** * Further properties of the augmentation *)

Lemma reverse_roll_back c :
  length c = 12%nat →
  cost_slice reverse (cost_slice roll_back c) =
  cost_slice roll_back (cost_slice roll_back (cost_slice roll_back
    (cost_slice reverse c))).
Proof. intros (?&?&?&?&?&?&?&?&?&?&?&?&->)%cell12. reflexivity. Qed.

(** X18: the rotation and the reflection of [x_rotations] satisfy the
    relation of the symmetry group of the square: reflecting a rotated
    tensor is rotating the reflected tensor three times. *)
Theorem reflect_rotate_state n a :
  shape n n (Z.to_nat num_layers) a →
  reflect_state (rotate_state a) =
  rotate_state (rotate_state (rotate_state (reflect_state a))).
Proof.
  intros Hs.
  pose proof (shape_rotate_state n a Hs) as Hr.
  pose proof (shape_reflect_state n a Hs) as Hf.
  pose proof (shape_rotate_state n _ Hf) as H1.
  pose proof (shape_rotate_state n _ H1) as H2.
  apply (shape_ext n n 12);
    [by apply shape_reflect_state|by apply shape_rotate_state|].
  intros i j Hi Hj.
  rewrite (cell_reflect_state n) by done.
  rewrite (cell_rotate_state n) by done.
  rewrite (cell_rotate_state n) by done.
  rewrite (cell_rotate_state n) by (done || lia).
  rewrite (cell_rotate_state n) by (done || lia).
  rewrite (cell_reflect_state n) by (done || lia).
  replace (n - 1 - (n - 1 - i))%nat with i by lia.
  apply reverse_roll_back. apply (shape_cell n n 12); (done || lia).
Qed.

Lemma reflect_rotate_state_witness :
  reflect_state (rotate_state [[cE; cC]; [cMW; cU]]) =
  rotate_state (rotate_state (rotate_state
    (reflect_state [[cE; cC]; [cMW; cU]]))).
Proof.
  apply (reflect_rotate_state 2 [[cE; cC]; [cMW; cU]]).
  split; [done|]. repeat constructor.
Defined.

(** X19: [x_rotations] keeps what the list held and appends eight tensors:
    the input and its three successive rotations, then the reflection of
    the input and its three successive rotations. *)
Theorem x_rotations_appends n a data :
  shape n n (Z.to_nat num_layers) a →
  x_rotations a data =
  data ++ [a; rotate_state a; rotate_state (rotate_state a);
           rotate_state (rotate_state (rotate_state a));
           reflect_state a; rotate_state (reflect_state a);
           rotate_state (rotate_state (reflect_state a));
           rotate_state (rotate_state (rotate_state (reflect_state a)))].
Proof.
  intros Hs. unfold x_rotations. cbn [x_loop fst snd].
  rewrite (rotate_state_four n) by done.
  by rewrite <- !app_assoc.
Qed.

Lemma x_rotations_appends_witness :
  let t := [[cE; cC]; [cMW; cU]] in
  x_rotations t [t] =
  [t] ++ [t; rotate_state t; rotate_state (rotate_state t);
          rotate_state (rotate_state (rotate_state t));
          reflect_state t; rotate_state (reflect_state t);
          rotate_state (rotate_state (reflect_state t));
          rotate_state (rotate_state (rotate_state (reflect_state t)))].
Proof.
  intros t. apply (x_rotations_appends 2 t [t]).
  split; [done|]. repeat constructor.
Defined.

(** *** One-hot labels *)

Lemma argmax_insert (k : nat) (i : Z) :
  0 ≤ i < Z.of_nat k → argmax (<[Z.to_nat i := 1]> (replicate k 0)) = Some i.
Proof.
  intros Hi. rewrite insert_replicate_lt by lia.
  generalize (k - S (Z.to_nat i))%nat. intros r.
  destruct (Z.to_nat i) as [|j] eqn:Ej.
  - cbn [replicate app argmax]. rewrite argmax_from_zeros by lia.
    f_equal. lia.
  - cbn [replicate app argmax].
    change (0 <? 0) with false. cbn [argmax_from].
    rewrite argmax_from_hot. f_equal. lia.
Qed.

(** X20: a label made by [onehot] at an index of the range has the length
    asked for, holds 1 at the index and 0 elsewhere, and [np.argmax] reads
    the index back. *)
Theorem onehot_argmax length ind :
  0 ≤ ind < length →
  ∃ v, onehot length ind = Ok v ∧
       Datatypes.length v = Z.to_nat length ∧
       (∀ j, 0 ≤ j < length →
          v !! Z.to_nat j = Some (if decide (j = ind) then 1 else 0)) ∧
       argmax v = Some ind.
Proof.
  intros Hi. unfold onehot. rewrite np_index_in by done.
  cbn [of_index mbind result_bind]. eexists. split; [reflexivity|].
  split; [by rewrite length_insert, length_replicate|].
  split.
  - intros j Hj. destruct (decide (j = ind)) as [->|Hne].
    + apply list_lookup_insert_eq. rewrite length_replicate. lia.
    + rewrite list_lookup_insert_ne by lia.
      apply lookup_replicate_2. lia.
  - apply argmax_insert. lia.
Qed.

Lemma onehot_argmax_witness :
  ∃ v, onehot 5 3 = Ok v ∧ argmax v = Some 3.
Proof.
  destruct (onehot_argmax 5 3) as (v & Hv & _ & _ & Ha); [lia|].
  exists v. split; [exact Hv|exact Ha].
Defined.

(** X21: indices outside the range.  A negative index down to minus the
    length counts from the end, as numpy has it, so the label is the one of
    the index plus the length; any other index outside the range raises
    IndexError. *)
Theorem onehot_index length ind :
  0 ≤ length →
  (- length ≤ ind < 0 → onehot length ind = onehot length (length + ind)) ∧
  (ind < - length ∨ length ≤ ind → onehot length ind = Raise IndexError).
Proof.
  intros Hl. unfold onehot, np_index. split.
  - intros Hi.
    destruct (Z.leb_spec 0 ind), (Z.ltb_spec ind length),
      (Z.leb_spec (- length) ind), (Z.ltb_spec ind 0),
      (Z.leb_spec 0 (length + ind)), (Z.ltb_spec (length + ind) length);
      cbn [andb]; (done || lia).
  - intros Hi.
    destruct (Z.leb_spec 0 ind), (Z.ltb_spec ind length),
      (Z.leb_spec (- length) ind), (Z.ltb_spec ind 0);
      cbn [andb of_index mbind result_bind]; (done || lia).
Qed.

Lemma onehot_index_witness :
  onehot 5 (-1) = onehot 5 (5 + -1) ∧ onehot 5 5 = Raise IndexError.
Proof.
  destruct (onehot_index 5 (-1)) as [Hwrap _]; [lia|].
  destruct (onehot_index 5 5) as [_ Hout]; [lia|].
  split; [apply Hwrap; lia|apply Hout; lia].
Defined.

(** *** Centering *)

(** X22: [centered] for a board of the module's size and a character on
    it.  The result has side 2*size-1; the board cell (x, y) lands at
    (x + size-1 - char_x, y + size-1 - char_y), so the character's cell is
    at the centre; every cell outside the board's image is padding, with 1
    in layer 0 and 0 in every other layer. *)
Theorem centered_cells a char_x char_y :
  shape (Z.to_nat size) (Z.to_nat size) (Z.to_nat num_layers) a →
  0 ≤ char_x < size → 0 ≤ char_y < size →
  let t := centered a char_x char_y in
  shape (Z.to_nat (2 * size - 1)) (Z.to_nat (2 * size - 1))
        (Z.to_nat num_layers) t ∧
  (∀ x y l, in_bounds size x y = true →
     get t (x + (size - 1) - char_x) (y + (size - 1) - char_y) l
     = get a x y l) ∧
  (∀ l, get t (size - 1) (size - 1) l = get a char_x char_y l) ∧
  (∀ i j l, 0 ≤ i < 2 * size - 1 → 0 ≤ j < 2 * size - 1 → 0 ≤ l < num_layers →
     in_bounds size (i - (size - 1) + char_x) (j - (size - 1) + char_y) = false →
     get t i j l = if l =? 0 then 1 else 0).
Proof.
  intros Hs Hx Hy t.
  split; [by apply shape_centered|].
  assert (Hin : ∀ x y l, in_bounds size x y = true →
     get t (x + (size - 1) - char_x) (y + (size - 1) - char_y) l
     = get a x y l).
  { intros x y l Hb. apply in_bounds_true in Hb. unfold size in *.
    rewrite !get_cell. subst t.
    rewrite cell_centered by (unfold dsize, size; lia).
    rewrite !Z2Nat.id by lia.
    destruct (_ && _) eqn:E.
    - unfold size. f_equal. f_equal; f_equal; lia.
    - rewrite !andb_false_iff, !Z.leb_gt, !Z.ltb_ge in E. unfold size in E.
      lia. }
  split; [done|]. split.
  - intros l. rewrite <- (Hin char_x char_y l).
    + f_equal; lia.
    + apply in_bounds_true. lia.
  - intros i j l Hi Hj Hl Hout. apply in_bounds_false in Hout.
    unfold size, num_layers in *. rewrite get_cell. subst t.
    rewrite cell_centered by (unfold dsize, size; lia).
    rewrite !Z2Nat.id by lia.
    destruct (_ && _) eqn:E.
    + rewrite !andb_true_iff, !Z.leb_le, !Z.ltb_lt in E. unfold size in E.
      lia.
    + unfold pad_cell, num_layers.
      destruct (Z.eqb_spec l 0) as [->|Hl0]; [done|].
      rewrite list_lookup_total_insert_ne by lia.
      apply lookup_total_replicate_2. lia.
Qed.

Lemma centered_cells_witness :
  get (centered (arr board20_ready) 1 1) (size - 1) (size - 1) 2
  = get (arr board20_ready) 1 1 2.
Proof.
  destruct (centered_cells (arr board20_ready) 1 1) as (_ & _ & Hc & _).
  - apply wf_board20_ready.
  - unfold size; lia.
  - unfold size; lia.
  - exact (Hc 2).
Defined.

(** * The penalty and the class invariant under moves *)

(** X23: what a legal push request does to the penalty, on a ready
    position: [make_move] does not return ILLEGAL, and the penalty goes
    down by the number of moves the request stands for, which is one more
    than the length of a shortest walk from the character to the cell the
    push (or the entry into the exit) is made from. *)
Theorem make_move_penalty self x y direction :
  ready self → 0 ≤ direction < 4 →
  in_bounds (self_size self) x y = true →
  get (arr self) x y (direction + 6) ≠ 0 →
  ∃ r self' p i,
    make_move self x y direction = Ok (r, self') ∧ r ≠ ILLEGAL ∧
    step_to p direction = (x, y) ∧
    shortest (self_size self) (arr self) (char_loc self) p i ∧
    moves_penalty self' = moves_penalty self - Z.of_nat (S i).
Proof.
  intros Hready Hd Hb Hne. pose proof Hready as [Hwf _].
  destruct (ready_entry self x y direction Hready Hb Hd Hne)
    as (Hkind & p & i & Hst & Hshort & Hval).
  destruct (is_win (arr self) x y) eqn:Hw.
  - eexists WIN, _, p, i. split; [by apply make_move_win|].
    split; [done|]. split; [done|]. split; [done|].
    cbn [moves_penalty].
    destruct (is_movable (arr self) x y) eqn:Hm; [lia|].
    destruct Hkind as [[_ H10]|Hp]; [lia|].
    unfold pushable in Hp. rewrite !andb_true_iff in Hp.
    destruct Hp as [[[_ Hp] _] _]. cbn [fst snd] in Hp. congruence.
  - assert (Hbb : in_bounds (self_size self) (step_to (x, y) direction).1
                    (step_to (x, y) direction).2 = true).
    { destruct Hkind as [[He _]|Hp].
      - unfold open_exit in He. cbn [fst snd] in He.
        rewrite Hb, Hw in He. done.
      - unfold pushable in Hp. rewrite !andb_true_iff in Hp.
        destruct Hp as [[_ Hp] _]. exact Hp. }
    destruct (push_branch_run self x y direction Hwf Hd Hb Hne Hw Hbb)
      as (self' & Hmove & Hrun).
    pose proof (wf_pushed self x y direction Hwf Hb) as Hwfp.
    destruct (assign_pushes_keeps _ _ Hwfp Hrun)
      as (_ & _ & _ & _ & _ & Hpen & _).
    exists PUSH, self', p, i. split; [done|].
    split; [done|]. split; [done|]. split; [done|].
    rewrite Hpen. cbn [pushed moves_penalty]. lia.
Qed.

Lemma make_move_penalty_witness :
  ∃ r self' p i,
    make_move board5_ready 1 2 3 = Ok (r, self') ∧ r ≠ ILLEGAL ∧
    step_to p 3 = (1, 2) ∧
    shortest 5 (arr board5_ready) (2, 0) p i ∧
    moves_penalty self' = 0 - Z.of_nat (S i).
Proof.
  apply (make_move_penalty board5_ready 1 2 3 ready_board5).
  - lia.
  - reflexivity.
  - vm_compute; discriminate.
Defined.

(** *** The class invariant *)

Lemma set_checked_shape n m k a x y l v a' :
  set_checked a x y l v = Ok a' → shape n m k a → shape n m k a'.
Proof.
  unfold set_checked.
  destruct (np_index (dim0 a) x); cbn [of_index mbind result_bind]; [|done].
  destruct (np_index (dim1 a) y); cbn [of_index mbind result_bind]; [|done].
  destruct (np_index (dim2 a) l); cbn [of_index mbind result_bind]; [|done].
  intros [= <-]. apply shape_set.
Qed.

Lemma run_pass_wf self self' :
  wf self → run_pass self = Ok self' →
  wf self' ∧ self_size self' = self_size self ∧
  exit_loc self' = exit_loc self.
Proof.
  intros Hwf Hrp. unfold run_pass in Hrp.
  destruct (assign_pushes self) as [s|] eqn:Hrun; [|done].
  injection Hrp as ->.
  destruct (assign_pushes_keeps _ _ Hwf Hrun) as (? & ? & _ & _ & ? & _).
  done.
Qed.

Lemma make_move_wf self x y d r self' :
  wf self → make_move self x y d = Ok (r, self') →
  wf self' ∧ self_size self' = self_size self ∧
  exit_loc self' = exit_loc self.
Proof.
  intros Hwf. unfold make_move.
  destruct (in_bounds (self_size self) x y) eqn:Hb; cbn [negb];
    [|by intros [= <- <-]].
  destruct (get_checked (arr self) x y (d + 6)) as [c|];
    cbn [mbind result_bind]; [|done].
  destruct (c =? 0); [by intros [= <- <-]|].
  destruct (is_win _ x y && negb _); [by intros [= <- <-]|].
  destruct (is_win _ x y); [by intros [= <- <-]|].
  destruct (vecs_index d) as [vec|]; cbn [mbind result_bind]; [|done].
  destruct (set_checked _ _ _ 4 0) as [a1|] eqn:H1; cbn [mbind result_bind];
    [|done].
  destruct (set_checked a1 _ _ 1 1) as [a2|] eqn:H2; cbn [mbind result_bind];
    [|done].
  destruct (run_pass _) as [self2|] eqn:Hrp; cbn [mbind result_bind]; [|done].
  intros [= <- <-]. apply run_pass_wf in Hrp; [done|].
  destruct Hwf as [Hs Hc]. split; [|done].
  cbn [with_char_loc with_arr arr self_size].
  eapply set_checked_shape; [exact H2|].
  eapply set_checked_shape; [exact H1|].
  cbn [with_moves_penalty with_moves arr]. by do 4 apply shape_set.
Qed.

(** X24: the class invariant is kept by the moves.  From a position with
    an array of shape (size, size, 12) and the character on the board, on
    any request whatever (in range or not, on fresh layers or stale ones),
    whenever [make_move] or [move_in_direction] returns, the position
    afterwards has an array of that shape and the character on the board,
    and size and exit location are as before. *)
Theorem moves_keep_wf self :
  wf self →
  (∀ x y d r self', make_move self x y d = Ok (r, self') →
     wf self' ∧ self_size self' = self_size self ∧
     exit_loc self' = exit_loc self) ∧
  (∀ d b self', move_in_direction self d = Ok (b, self') →
     wf self' ∧ self_size self' = self_size self ∧
     exit_loc self' = exit_loc self).
Proof.
  intros Hwf. split; [intros x y d r self'; by apply make_move_wf|].
  intros d b self'. unfold move_in_direction.
  destruct (vecs_index d) as [vec|]; cbn [mbind result_bind]; [|done].
  generalize ((char_loc self).1 + vec.1) ((char_loc self).2 + vec.2).
  intros nx ny.
  destruct (in_bounds (self_size self) nx ny) eqn:Hb; cbn [negb];
    [|by intros [= <- <-]].
  destruct (get_checked (arr self) nx ny (d + 6)) as [c|];
    cbn [mbind result_bind]; [|done].
  destruct (c =? 0).
  - destruct (_ || _); [by intros [= <- <-]|].
    destruct (run_pass _) as [self2|] eqn:Hrp; cbn [mbind result_bind];
      [|done].
    intros [= <- <-]. apply run_pass_wf in Hrp; [done|].
    destruct Hwf as [Hs Hc]. split; [|done].
    cbn [with_char_loc with_arr arr self_size]. by do 2 apply shape_set.
  - destruct (make_move _ nx ny d) as [[r s]|] eqn:Hmove;
      cbn [mbind result_bind]; [|done].
    intros [= <- <-]. by apply make_move_wf in Hmove.
Qed.

Lemma moves_keep_wf_witness :
  let p := mkPos 3 (arr board3_ready) [(1, 2, 1)] (1, 1) (Some (1, 2)) (-1) in
  make_move board3_ready 1 2 1 = Ok (WIN, p) ∧ wf p.
Proof.
  intros p.
  assert (E : make_move board3_ready 1 2 1 = Ok (WIN, p))
    by (vm_compute; reflexivity).
  split; [exact E|].
  destruct (moves_keep_wf board3_ready wf_board3_ready) as [Hmm _].
  exact (proj1 (Hmm 1 2 1 WIN p E)).
Defined.

(** X25: [move_in_direction] does not validate its direction either: the
    list of the four vectors is indexed first, so a direction of 4 or more,
    or of less than -4, raises IndexError on any position. *)
Theorem move_in_direction_bad_direction self direction :
  4 ≤ direction ∨ direction < -4 →
  move_in_direction self direction = Raise IndexError.
Proof.
  intros Hd. unfold move_in_direction, vecs_index, np_index.
  destruct (Z.leb_spec 0 direction), (Z.ltb_spec direction 4),
    (Z.leb_spec (Z.opp 4) direction), (Z.ltb_spec direction 0);
    cbn [andb of_index mbind result_bind]; (done || lia).
Qed.

Lemma move_in_direction_bad_direction_witness :
  move_in_direction board3_ready 4 = Raise IndexError.
Proof.
  apply (move_in_direction_bad_direction board3_ready 4). left. lia.
Defined.

(** * Exits that cannot be entered *)

Lemma pair_eqb (u v x y : Z) :
  (u, v) ≠ (x, y) → (u =? x) && (v =? y) = false.
Proof.
  intros Hne. destruct (Z.eqb_spec u x), (Z.eqb_spec v y); try done.
  exfalso. apply Hne. congruence.
Qed.

(** X26: a ready position in which no exit cell is flagged empty or holds a
    box cannot be won by a push request, and stays that way: whenever
    [make_move] returns, the code is not WIN, and the position afterwards is
    ready and again has no exit that is empty or holds a box. *)
Theorem sealed_never_wins self x y direction r self' :
  ready self → sealed (self_size self) (arr self) → 0 ≤ direction < 4 →
  make_move self x y direction = Ok (r, self') →
  r ≠ WIN ∧ ready self' ∧ sealed (self_size self') (arr self').
Proof.
  intros Hready Hsealed Hd Hmove. pose proof Hready as [Hwf _].
  destruct (in_bounds (self_size self) x y) eqn:Hb.
  2:{ unfold make_move in Hmove. rewrite Hb in Hmove.
      injection Hmove as <- <-. done. }
  destruct (decide (get (arr self) x y (direction + 6) = 0)) as [Hz|Hne].
  { unfold make_move in Hmove. rewrite Hb in Hmove. cbn [negb] in Hmove.
    rewrite get_checked_in in Hmove by (done || (unfold num_layers; lia)).
    cbn [mbind result_bind] in Hmove. rewrite Hz in Hmove.
    injection Hmove as <- <-. done. }
  assert (Hpush : pushable (self_size self) (arr self) (x, y) direction = true).
  { destruct (ready_entry self x y direction Hready Hb Hd Hne)
      as [[[He _]|Hp] _]; [|done].
    unfold open_exit in He. cbn [fst snd] in He.
    rewrite !andb_true_iff in He. destruct He as [[_ Hw] He].
    destruct (Hsealed x y Hb Hw). congruence. }
  unfold pushable in Hpush. cbn [fst snd] in Hpush.
  rewrite !andb_true_iff in Hpush.
  destruct Hpush as ((((_ & _) & Hmv) & Hbb) & Heb).
  assert (Hw : is_win (arr self) x y = false).
  { destruct (is_win (arr self) x y) eqn:Hw; [|done].
    destruct (Hsealed x y Hb Hw). congruence. }
  destruct (push_branch_run self x y direction Hwf Hd Hb Hne Hw Hbb)
    as (self2 & Hmove2 & Hrun).
  rewrite Hmove2 in Hmove. injection Hmove as <- <-.
  pose proof (wf_pushed self x y direction Hwf Hb) as Hwfp.
  destruct (assign_pushes_keeps _ _ Hwfp Hrun) as (_ & Hn & _ & _ & _ & _ & Ht).
  cbn [pushed self_size] in Hn, Ht.
  split; [done|]. split; [by eapply assign_pushes_ready|].
  rewrite Hn. intros u v Huv.
  unfold is_win, is_empty, is_movable.
  rewrite !Ht by (done || lia).
  rewrite !get_pushed by (done || lia).
  set (b := step_to (x, y) direction) in *.
  change (3 =? 1) with false. change (3 =? 4) with false.
  change (3 =? 2) with false. change (4 =? 1) with false.
  change (4 =? 2) with false. change (1 =? 4) with false.
  change (1 =? 2) with false. rewrite !andb_false_r.
  change (4 =? 4) with true. change (1 =? 1) with true. rewrite !andb_true_r.
  fold (is_win (arr self) u v) (is_empty (arr self) u v)
    (is_movable (arr self) u v).
  intros Hwuv. destruct (Hsealed u v Huv Hwuv) as [He' Hm'].
  destruct (decide ((u, v) = (b.1, b.2))) as [[= -> ->]|Hnb].
  { exfalso. subst b. unfold step_to in *. cbn [fst snd] in *. congruence. }
  destruct (decide ((u, v) = (x, y))) as [[= -> ->]|Hnxy]; [congruence|].
  rewrite (pair_eqb _ _ _ _ Hnb), (pair_eqb _ _ _ _ Hnxy). done.
Qed.

Lemma ready_board3_sealed : ready board3_sealed.
Proof.
  split; [|vm_compute; reflexivity].
  split; [|done]. split; [done|]. repeat constructor.
Qed.

Lemma sealed_board3_sealed : sealed 3 (arr board3_sealed).
Proof.
  intros x y Hb. apply in_bounds_true in Hb.
  assert (Hx : x = 0 ∨ x = 1 ∨ x = 2) by lia.
  assert (Hy : y = 0 ∨ y = 1 ∨ y = 2) by lia.
  destruct Hx as [->|[->| ->]], Hy as [->|[->| ->]]; vm_compute;
    (done || discriminate).
Qed.

Lemma sealed_never_wins_witness :
  make_move board3_sealed 1 1 1 = Ok (PUSH, board3_sealed_pushed) ∧
  PUSH ≠ WIN ∧ ready board3_sealed_pushed ∧
  sealed 3 (arr board3_sealed_pushed).
Proof.
  assert (E : make_move board3_sealed 1 1 1 = Ok (PUSH, board3_sealed_pushed))
    by (vm_compute; reflexivity).
  split; [exact E|].
  apply (sealed_never_wins board3_sealed 1 1 1 PUSH board3_sealed_pushed
           ready_board3_sealed sealed_board3_sealed).
  - lia.
  - exact E.
Defined.

(** *** [set_up_position] *)

Lemma elem_of_area size_x size_y x y :
  (x, y) ∈ area size_x size_y ↔ 0 ≤ x < size_x ∧ 0 ≤ y < size_y.
Proof.
  unfold area. rewrite list_elem_of_bind. split.
  - intros (x' & Hy & Hx). apply list_elem_of_bind in Hy as (y' & Hxy & Hy).
    apply list_elem_of_singleton in Hxy as [= -> ->].
    apply elem_of_seqZ in Hx, Hy. lia.
  - intros Hb. exists x. split; [|apply elem_of_seqZ; lia].
    apply list_elem_of_bind. exists y. split; [|apply elem_of_seqZ; lia].
    by apply list_elem_of_singleton.
Qed.

Lemma cell_set_up_base size_x size_y i j :
  (i < 20)%nat → (j < 20)%nat →
  cell (set_up_base size_x size_y) i j =
  if (Z.of_nat i <? size_x) && (Z.of_nat j <? size_y)
  then <[0%nat := 0]> pad_cell else pad_cell.
Proof.
  intros Hi Hj. unfold cell, set_up_base. cbn zeta.
  set (zeros := replicate 20 (replicate 20 (replicate (Z.to_nat num_layers) 0))).
  assert (Hz : shape 20 20 (Z.to_nat num_layers) zeros).
  { unfold zeros. split; [by rewrite length_replicate|].
    apply Forall_replicate. split; [by rewrite length_replicate|].
    apply Forall_replicate. by rewrite length_replicate. }
  pose proof (shape_map_cells _ _ _ (Z.to_nat num_layers)
                (λ cell, <[0%nat := 1]> cell) zeros
                ltac:(intros; by rewrite length_insert) Hz) as Hs.
  destruct (shape_row _ _ _ _ i Hs Hi) as [Hrow _].
  rewrite lookup_total_imap by (destruct Hs as [-> _]; done).
  rewrite lookup_total_imap by (by rewrite Hrow).
  rewrite (cell_map_cells _ _ _ _ _ _ _ Hz) by done.
  unfold zeros. rewrite !lookup_total_replicate_2 by done. done.
Qed.

Lemma shape_set_up_base size_x size_y :
  shape 20 20 (Z.to_nat num_layers) (set_up_base size_x size_y).
Proof.
  assert (Hlen : length (set_up_base size_x size_y) = 20%nat).
  { unfold set_up_base, map_cells. cbn zeta.
    by rewrite length_imap, length_fmap, length_replicate. }
  assert (Hrow : ∀ i, (i < 20)%nat →
            length (set_up_base size_x size_y !!! i) = 20%nat).
  { intros i Hi. unfold set_up_base, map_cells. cbn zeta.
    rewrite lookup_total_imap
      by (by rewrite length_fmap, length_replicate).
    rewrite length_imap.
    rewrite (list_lookup_total_fmap _ (replicate _ _) i)
      by (by rewrite length_replicate).
    rewrite length_fmap, lookup_total_replicate_2 by done.
    by rewrite length_replicate. }
  apply shape_intro; [done|done|].
  intros i j Hi Hj. rewrite cell_set_up_base by done.
  destruct (_ && _); [rewrite length_insert|]; done.
Qed.

Lemma get_set_up_base size_x size_y x y l :
  in_bounds 20 x y = true → 0 ≤ l < 12 →
  get (set_up_base size_x size_y) x y l =
  if (l =? 0) && negb ((x <? size_x) && (y <? size_y)) then 1 else 0.
Proof.
  intros Hb Hl. apply in_bounds_true in Hb.
  rewrite get_cell, cell_set_up_base by lia.
  rewrite !Z2Nat.id by lia.
  assert (Hcases : l = 0 ∨ 0 < l) by lia.
  destruct ((x <? size_x) && (y <? size_y)); cbn [negb];
    rewrite ?andb_false_r, ?andb_true_r.
  - destruct Hcases as [->|Hl0]; [done|].
    destruct (Z.eqb_spec l 0); [lia|].
    rewrite list_lookup_total_insert_ne by lia.
    unfold pad_cell. rewrite list_lookup_total_insert_ne by lia.
    apply lookup_total_replicate_2. unfold num_layers. lia.
  - destruct Hcases as [->|Hl0]; [done|].
    destruct (Z.eqb_spec l 0); [lia|].
    unfold pad_cell. rewrite list_lookup_total_insert_ne by lia.
    apply lookup_total_replicate_2. unfold num_layers. lia.
Qed.

(** The loops of [set_up_position] over cells whose codes are layers 0 to
    4: each cell visited gets its code's layer set. *)
Lemma set_code_fold pass_in cells :
  (∀ p, p ∈ cells → in_bounds 20 p.1 p.2 = true ∧
        ∃ c, code_at pass_in p.1 p.2 = Ok c ∧ 0 ≤ c < 5) →
  ∀ a, shape 20 20 (Z.to_nat num_layers) a →
  ∃ a', foldl (set_code pass_in) (Ok a) cells = Ok a' ∧
        shape 20 20 (Z.to_nat num_layers) a' ∧
        ∀ x y l, in_bounds 20 x y = true → 0 ≤ l < 12 →
          ((x, y) ∉ cells → get a' x y l = get a x y l) ∧
          (∀ c, (x, y) ∈ cells → code_at pass_in x y = Ok c →
             get a' x y l = if l =? c then 1 else get a x y l).
Proof.
  induction cells as [|p cells IH]; intros Hcells a Hs.
  - exists a. split; [done|]. split; [done|].
    intros x y l Hb Hl. split; [done|]. intros c Hin.
    by apply elem_of_nil in Hin.
  - destruct (Hcells p ltac:(left)) as (Hpb & c & Hc & Hcr).
    assert (Hstep : set_code pass_in (Ok a) p = Ok (set a p.1 p.2 c 1)).
    { unfold set_code. cbn [mbind result_bind]. rewrite Hc.
      cbn [mbind result_bind].
      destruct (Z.ltb_spec c 5); [|lia].
      apply (set_checked_in 20); (done || (unfold num_layers; lia)). }
    destruct (IH ltac:(intros q Hq; apply Hcells; by right)
                (set a p.1 p.2 c 1) ltac:(by apply shape_set))
      as (a' & Hfold & Hs' & Hget).
    exists a'. cbn [foldl]. rewrite Hstep. split; [done|]. split; [done|].
    intros x y l Hb Hl. destruct (Hget x y l Hb Hl) as [Hout Hin].
    assert (Hset : get (set a p.1 p.2 c 1) x y l =
              if (x =? p.1) && (y =? p.2) && (l =? c) then 1
              else get a x y l)
      by (apply (get_set_in 20); (done || lia)).
    split.
    + intros Hnot. apply not_elem_of_cons in Hnot as [Hne Hnot].
      rewrite Hout, Hset by done.
      rewrite (pair_eqb x y p.1 p.2) by (by rewrite <- surjective_pairing).
      done.
    + intros c' Hin' Hc'.
      destruct (decide ((x, y) ∈ cells)) as [Hmem|Hnmem].
      * rewrite (Hin c' Hmem Hc'), Hset.
        destruct (Z.eqb_spec l c'); [done|].
        destruct (decide ((x, y) = p)) as [<-|Hne].
        -- cbn [fst snd] in Hc. rewrite Hc in Hc'. injection Hc' as ->.
           destruct (Z.eqb_spec l c'); [lia|]. by rewrite andb_false_r.
        -- rewrite (pair_eqb x y p.1 p.2)
             by (by rewrite <- surjective_pairing). done.
      * apply elem_of_cons in Hin' as [Heq|?]; [|done]. subst p.
        cbn [fst snd] in *. rewrite Hc in Hc'. injection Hc' as ->.
        rewrite Hout, Hset by done. rewrite !Z.eqb_refl. done.
Qed.

(** X27: [set_up_position] on codes 0 to 4 (unmovable, movable, character,
    exit, empty) with a character among them, for an area of at most 20 by
    20.  The construction succeeds and gives a ready position of size 20 in
    which a cell of the area has exactly the layer of its code set among
    layers 0 to 4, and every cell outside the area is an unmovable.  An exit
    made from code 3 has the exit flag but not the empty flag, so no exit of
    the position is empty or holds a box: the pass records no entry into
    it. *)
Theorem set_up_position_cells pass_in size_x size_y :
  0 ≤ size_x ≤ 20 → 0 ≤ size_y ≤ 20 →
  (∀ x y, 0 ≤ x < size_x → 0 ≤ y < size_y →
     ∃ c, code_at pass_in x y = Ok c ∧ 0 ≤ c < 5) →
  (∃ x y, 0 ≤ x < size_x ∧ 0 ≤ y < size_y ∧ code_at pass_in x y = Ok 2) →
  ∃ p,
    set_up_position pass_in size_x size_y = Ok (inr p) ∧
    ready p ∧ self_size p = 20 ∧
    (∀ x y c l, 0 ≤ x < size_x → 0 ≤ y < size_y →
       code_at pass_in x y = Ok c → 0 ≤ l < 5 →
       get (arr p) x y l = if l =? c then 1 else 0) ∧
    (∀ x y l, in_bounds 20 x y = true →
       ¬ (0 ≤ x < size_x ∧ 0 ≤ y < size_y) → 0 ≤ l < 5 →
       get (arr p) x y l = if l =? 0 then 1 else 0) ∧
    sealed 20 (arr p).
Proof.
  intros Hsx Hsy Hcodes (cx & cy & Hcx & Hcy & Hchar).
  destruct (set_code_fold pass_in (area size_x size_y)) with
    (a := set_up_base size_x size_y) as (a' & Hfold & Hs' & Hget).
  { intros [x y] Hin. apply elem_of_area in Hin. cbn [fst snd]. split.
    - apply in_bounds_true. lia.
    - apply Hcodes; lia. }
  { apply shape_set_up_base. }
  assert (Hin : ∀ x y c l, 0 ≤ x < size_x → 0 ≤ y < size_y →
            code_at pass_in x y = Ok c → 0 ≤ l < 12 →
            get a' x y l = if l =? c then 1 else 0).
  { intros x y c l Hx Hy Hc Hl.
    destruct (Hget x y l) as [_ Hcell]; [apply in_bounds_true; lia|done|].
    rewrite (Hcell c) by (done || apply elem_of_area; lia).
    rewrite get_set_up_base by (done || apply in_bounds_true; lia).
    destruct (Z.ltb_spec x size_x), (Z.ltb_spec y size_y); try lia.
    cbn [andb negb]. by rewrite andb_false_r. }
  assert (Hout : ∀ x y l, in_bounds 20 x y = true →
            ¬ (0 ≤ x < size_x ∧ 0 ≤ y < size_y) → 0 ≤ l < 12 →
            get a' x y l = if l =? 0 then 1 else 0).
  { intros x y l Hb Hnot Hl.
    destruct (Hget x y l Hb Hl) as [Hcell _].
    rewrite Hcell by (rewrite elem_of_area; done).
    rewrite get_set_up_base by done.
    apply in_bounds_true in Hb.
    destruct (Z.ltb_spec x size_x), (Z.ltb_spec y size_y);
      cbn [andb negb]; rewrite ?andb_true_r; (done || lia). }
  destruct (init_ready a' 20 Hs') as (p & Hinit & Hready & Hn & _ & _ & _ & _ & Ht).
  { exists cx, cy. split; [apply in_bounds_true; lia|].
    by rewrite (Hin cx cy 2) by (done || lia). }
  exists p. split.
  { unfold set_up_position, set_up_arr. rewrite Hfold.
    cbn [mbind result_bind]. by rewrite Hinit. }
  split; [done|]. split; [done|]. split; [|split].
  - intros x y c l Hx Hy Hc Hl.
    rewrite Ht by (done || apply in_bounds_true; lia).
    apply Hin; (done || lia).
  - intros x y l Hb Hnot Hl. rewrite Ht by done. apply Hout; (done || lia).
  - intros x y Hb. unfold is_win, is_empty, is_movable.
    rewrite !Ht by (done || lia).
    destruct (decide (0 ≤ x < size_x ∧ 0 ≤ y < size_y)) as [[Hx Hy]|Hnot].
    + destruct (Hcodes x y Hx Hy) as (c & Hc & Hcr).
      rewrite !(Hin x y c) by (done || lia).
      destruct (Z.eqb_spec 3 c) as [<-|]; [done|].
      destruct (Z.eqb_spec 4 c), (Z.eqb_spec 1 c); done.
    + rewrite !Hout by (done || lia). done.
Qed.

Lemma set_up_position_cells_witness :
  ∃ p, set_up_position codes3 3 3 = Ok (inr p) ∧ ready p ∧
       sealed 20 (arr p).
Proof.
  destruct (set_up_position_cells codes3 3 3)
    as (p & Hp & Hr & _ & _ & _ & Hsl).
  - lia.
  - lia.
  - intros x y Hx Hy.
    assert (Hx' : x = 0 ∨ x = 1 ∨ x = 2) by lia.
    assert (Hy' : y = 0 ∨ y = 1 ∨ y = 2) by lia.
    destruct Hx' as [->|[->| ->]], Hy' as [->|[->| ->]];
      eexists; (split; [reflexivity|lia]).
  - exists 1, 0. split; [lia|]. split; [lia|reflexivity].
  - exists p. split; [exact Hp|]. split; [exact Hr|exact Hsl].
Defined.

(** * Labels of the augmentation *)

(** X28: for a label triple of the centered frame, [y_rotations] raises
    nothing, keeps the labels already in the list and appends exactly
    eight: the one-hot vectors of the triple followed by its images under
    [rotate_once] and the reflection, all of which are triples of the frame
    again (so no index wraps around or is out of range). *)
Theorem y_rotations_appends x y d data :
  in_label (x, y, d) →
  y_rotations x y d data =
    Ok (data ++ ((λ tr, hot (label_index tr)) <$> orbit (x, y, d))) ∧
  Forall in_label (orbit (x, y, d)) ∧
  length (orbit (x, y, d)) = 8%nat.
Proof.
  intros H0.
  pose proof (rot_label_in _ H0) as H1.
  pose proof (rot_label_in _ H1) as H2.
  pose proof (rot_label_in _ H2) as H3.
  pose proof (rot_label_in _ H3) as H4.
  pose proof (ref_label_in _ H4) as H5.
  pose proof (rot_label_in _ H5) as H6.
  pose proof (rot_label_in _ H6) as H7.
  pose proof (rot_label_in _ H7) as H8.
  split; [|split; [|done]].
  - unfold y_rotations.
    set (t4 := ref_label (rot_label (rot_label (rot_label (rot_label (x, y, d)))))).
    rewrite (y_loop_step 3 (x, y, d)) by done.
    rewrite (y_loop_step 2) by done.
    rewrite (y_loop_step 1) by done.
    rewrite (y_loop_step 0) by done.
    rewrite y_loop_0. cbn [mbind result_bind].
    match goal with
    | |- context [y_loop 4 _ _ _ ?l] =>
      change (y_loop 4 _ _ _ l) with (y_loop 4 t4.1.1 t4.1.2 t4.2 l)
    end.
    rewrite (y_loop_step 3 t4) by done.
    rewrite (y_loop_step 2) by done.
    rewrite (y_loop_step 1) by done.
    rewrite (y_loop_step 0) by done.
    rewrite y_loop_0. cbn [mbind result_bind snd].
    rewrite <- !app_assoc. reflexivity.
  - unfold orbit. cbn zeta. repeat (constructor; [done|]). constructor.
Qed.

Lemma y_rotations_appends_witness :
  y_rotations 19 20 1 [[1; 0]] =
    Ok ([[1; 0]] ++ ((λ tr, hot (label_index tr)) <$> orbit (19, 20, 1))).
Proof.
  apply (y_rotations_appends 19 20 1 [[1; 0]]).
  unfold in_label, in_frame, dsize, size. simpl. lia.
Defined.
